(** * anicet tools: arm64.inspect.py and auxv.print.py

    A shallow embedding of the two capability tools of the repository and
    the proofs of their specified properties.

    - [Re]: the fragment of Python's [re] the instruction rules use
      (literals, character classes, [|], [*], [+], [.], a leading [^]),
      with [re.search] decided by derivatives.
    - [Binary64]: rounding to the nearest binary64 number.
    - [Inspect]: [INSPECT_ARRAY], [count_instructions] and
      [BinaryInspector.inspect] of tools/arm64.inspect.py.
    - [Auxv]: [bits_to_names], [decode_hwcap] and [parse_auxv] of
      tools/auxv.print.py.

    - [InspectMain], [AuxvMain]: [find_sample_instructions] and the
      printing loop of [main] of tools/arm64.inspect.py; [AT_NAMES], the
      table and [main] of tools/auxv.print.py.
    - [InspectInfo]: [parse_file_info], [get_build_id] and
      [get_file_size] of tools/arm64.inspect.py, with the capturing
      patterns of [parse_file_info] matched by backtracking.

    - [ReFacts], [InspectFacts], [AuxvFacts]: the matcher decides the
      language of a pattern; the properties of the classifier and of the
      report; the properties of the decoder and of the expander.
    - [AuxvMore], [InspectMore], [AuxvMainFacts], [InspectInfoFacts]:
      further properties of the decoder, of the classifier and of what
      the two tools print, and of the parsing of the [file] line.

    Python [str] values are modelled as [string] (code points below 256),
    [bytes] as [list byte], Python integers as [Z], dictionaries as
    association lists in insertion order.  The percentages are the
    rationals that binary64 arithmetic returns: every conversion,
    product and quotient is rounded to 53 bits, ties to even.  What
    the decoder takes from its interpreter, the size of [c_ulong] and the
    native byte order of [struct], is a [host] record. *)

From Stdlib Require Import ZArith List Bool Ascii String Lia QArith.
From Stdlib Require Import Strings.Byte Strings.HexString.
From Stdlib Require Import Permutation Sorted.
From Stdlib Require Import DecimalString DecimalZ Qround.
Import ListNotations.

Local Open Scope Z_scope.

(* ================================================================= *)
(** ** Regular expressions, as the rules use them *)

Module Re.

(** A pattern body.  [Sym p] is one character satisfying [p]: a literal,
    a class such as [[0-9a-f]], [\s] or [.]. *)
Inductive regex : Type :=
| Void : regex
| Eps : regex
| Sym : (ascii -> bool) -> regex
| Cat : regex -> regex -> regex
| Alt : regex -> regex -> regex
| Star : regex -> regex.

(** The language of a pattern body. *)
Inductive matches : regex -> list ascii -> Prop :=
| MEps : matches Eps []
| MSym p c : p c = true -> matches (Sym p) [c]
| MCat r1 r2 s1 s2 : matches r1 s1 -> matches r2 s2 -> matches (Cat r1 r2) (s1 ++ s2)
| MAltL r1 r2 s : matches r1 s -> matches (Alt r1 r2) s
| MAltR r1 r2 s : matches r2 s -> matches (Alt r1 r2) s
| MStarNil r : matches (Star r) []
| MStarCons r c s1 s2 :
    matches r (c :: s1) -> matches (Star r) s2 -> matches (Star r) (c :: s1 ++ s2).

Fixpoint nullable (r : regex) : bool :=
  match r with
  | Void => false
  | Eps => true
  | Sym _ => false
  | Cat r1 r2 => nullable r1 && nullable r2
  | Alt r1 r2 => nullable r1 || nullable r2
  | Star _ => true
  end.

Fixpoint deriv (c : ascii) (r : regex) : regex :=
  match r with
  | Void => Void
  | Eps => Void
  | Sym p => if p c then Eps else Void
  | Cat r1 r2 =>
      if nullable r1 then Alt (Cat (deriv c r1) r2) (deriv c r2)
      else Cat (deriv c r1) r2
  | Alt r1 r2 => Alt (deriv c r1) (deriv c r2)
  | Star r1 => Cat (deriv c r1) (Star r1)
  end.

(** [match_here r s]: some prefix of [s] is in the language of [r]
    (what [re.match] decides). *)
Fixpoint match_here (r : regex) (s : list ascii) : bool :=
  nullable r ||
  match s with
  | [] => false
  | c :: s' => match_here (deriv c r) s'
  end.

(** [search_from r s]: some factor of [s] is in the language of [r]
    (what [re.search] decides for a body without anchors). *)
Fixpoint search_from (r : regex) (s : list ascii) : bool :=
  match_here r s ||
  match s with
  | [] => false
  | _ :: s' => search_from r s'
  end.

(** A compiled pattern: the body, and whether the source pattern begins
    with [^]. *)
Record pattern : Type := Pattern { anchored : bool; body : regex }.

(** [re.search(pattern, line)] as a truth value. *)
Definition search (p : pattern) (line : string) : bool :=
  let s := list_ascii_of_string line in
  if anchored p then match_here (body p) s else search_from (body p) s.

(** *** Pattern syntax *)

Definition chr (c : ascii) : regex := Sym (Ascii.eqb c).

(** A literal string. *)
Fixpoint lit (s : string) : regex :=
  match s with
  | EmptyString => Eps
  | String c EmptyString => chr c
  | String c s' => Cat (chr c) (lit s')
  end.

Definition plus (r : regex) : regex := Cat r (Star r).

(** [(a|b|...)] *)
Fixpoint alts (rs : list regex) : regex :=
  match rs with
  | [] => Void
  | [r] => r
  | r :: rs' => Alt r (alts rs')
  end.

(** [[...]]: one of the characters of [s]. *)
Definition one_of (s : string) : regex :=
  Sym (fun c => existsb (Ascii.eqb c) (list_ascii_of_string s)).

Definition in_range (lo hi c : ascii) : bool :=
  (nat_of_ascii lo <=? nat_of_ascii c)%nat && (nat_of_ascii c <=? nat_of_ascii hi)%nat.

(** [\s] on a [str] pattern: the code points below 256 for which
    [str.isspace] holds, 9..13, 28..32, 0x85 and 0xa0. *)
Definition isspace (c : ascii) : bool :=
  let n := nat_of_ascii c in
  ((9 <=? n) && (n <=? 13) || (28 <=? n) && (n <=? 32) || (n =? 133) || (n =? 160))%nat.

Definition ishex (c : ascii) : bool := in_range "0" "9" c || in_range "a" "f" c.

Definition isdigit (c : ascii) : bool := in_range "0" "9" c.

(** [.]: any character but a newline. *)
Definition notnl (c : ascii) : bool := negb (Ascii.eqb c "010").

Definition ws : regex := Sym isspace.
Definition hex : regex := Sym ishex.
Definition digit : regex := Sym isdigit.
Definition dot : regex := Sym notnl.

Infix "@" := Cat (at level 40, left associativity).

End Re.

(* ================================================================= *)
(** ** Binary64 arithmetic, as the percentages use it *)

Module Binary64.

(** The integer nearest to [q], the even one of the two when [q] is
    half way. *)
Definition round_half_even (q : Q) : Z :=
  let n := Qfloor q in
  match (q - inject_Z n ?= 1 # 2)%Q with
  | Lt => n
  | Gt => (n + 1)%Z
  | Eq => if Z.even n then n else (n + 1)%Z
  end.

(** The integer part of the binary logarithm of [n / d], for [n > 0]. *)
Definition ilog2 (n : Z) (d : positive) : Z :=
  let k := Z.log2 n - Z.log2 (Zpos d) in
  if (if 0 <=? k then Zpos d * 2 ^ k <=? n else Zpos d <=? n * 2 ^ (- k))
  then k else k - 1.

(** [n / d], for [n > 0], rounded to 53 significant bits, ties to
    even: the 53 bits are the integer nearest to [n / d / 2^e], for the
    exponent [e] that puts it between 2^52 and 2^53. *)
Definition round_pos (n : Z) (d : positive) : Q :=
  let e := ilog2 n d - 52 in
  if 0 <=? e then inject_Z (round_half_even (n # (d * Z.to_pos (2 ^ e))) * 2 ^ e)
  else round_half_even ((n * 2 ^ (- e)) # d) # Z.to_pos (2 ^ (- e)).

(** The binary64 number nearest to [q], ties to even, as a reduced
    fraction: what a conversion, a product or a quotient of binary64
    numbers returns for the exact value [q].  The range of the exponent
    is not modelled: the counts of a stream are far from it. *)
Definition round64 (q : Q) : Q :=
  let q := Qred q in
  match Qnum q with
  | Z0 => 0%Q
  | Zpos _ => Qred (round_pos (Qnum q) (Qden q))
  | Zneg _ => Qred (- round_pos (- Qnum q) (Qden q))
  end.

(** [float(n)] *)
Definition float_of_int (n : Z) : Q := round64 (inject_Z n).

(** [x * y] and [x / y] on binary64 numbers. *)
Definition fmul (x y : Q) : Q := round64 (x * y).
Definition fdiv (x y : Q) : Q := round64 (x / y).

End Binary64.

(* ================================================================= *)
(** ** tools/arm64.inspect.py *)

Module Inspect.
Import Re Binary64.

Local Open Scope string_scope.

(** [a\s+b] *)
Definition sp (a b : string) : regex := lit a @ plus ws @ lit b.

(** A rule of [INSPECT_ARRAY]: [\s] followed by the given body. *)
Definition rule (r : regex) : pattern := Pattern false (ws @ r).

(** [INSPECT_ARRAY], in the order of the dictionary literal. *)
Definition INSPECT_ARRAY : list (string * pattern) :=
  [ (* 1. Core architecture and SIMD *)
    ("asimd", rule (alts [lit "fadd"; lit "fmul"; lit "ld1"; lit "st1"; lit "saddl";
                          lit "uaddl"; lit "sqadd"; lit "movi"; sp "add" "v"; sp "sub" "v";
                          sp "mul" "v"; lit "ld" @ one_of "234"; lit "st" @ one_of "234";
                          lit "umull"; lit "smull"]));
    ("asimdhp", rule (alts [sp "fadd" "h"; sp "fmul" "h"; sp "fmla" "h"; sp "fabs" "h";
                            sp "fneg" "h"; sp "fsqrt" "h"]));
    ("asimdfhm", rule (alts [lit "fmlal"; lit "fmlsl"]));
    ("asimddp", rule (alts [lit "sdot"; lit "udot"]));
    ("asimdrdm", rule (alts [lit "sqrdmlah"; lit "sqrdmlsh"]));
    ("i8mm", rule (alts [lit "smmla"; lit "ummla"; lit "usmmla"]));
    ("bf16", rule (alts [lit "bfdot"; lit "bfmmla"; lit "bfcvt"]));
    ("bf16fml", rule (alts [lit "bfmlalb"; lit "bfmlalt"]));
    ("sve", rule (lit "z" @ plus digit @ lit "."));
    ("sve2", rule (alts [sp "sqrdmlah" "z"; sp "sqrdmlsh" "z"; lit "match"; lit "nmatch";
                         lit "histcnt"; lit "histseg"; lit "addhnb"; lit "raddhnb"]));
    ("svei8mm", rule (alts [sp "smmla" "z"; sp "ummla" "z"; sp "usmmla" "z"]));
    ("svebf16", rule (alts [sp "bfdot" "z"; sp "bfmmla" "z"; sp "bfcvt" "z"]));
    ("sveaes", rule (alts [sp "aesd" "z"; sp "aese" "z"; sp "aesimc" "z"; sp "aesmc" "z"]));
    ("svepmull", rule (alts [sp "pmull" "z"]));
    ("svebitperm", rule (alts [lit "bext"; lit "bdep"; lit "bgrp"]));
    ("svesha3", rule (alts [lit "rax1"; lit "bcax"; lit "eor3"; lit "xar"]));
    ("svesm4", rule (alts [sp "sm4e" "z"; sp "sm4ekey" "z"]));
    ("fphp", rule (alts [sp "fcvt" "h"; sp "fadd" "h"; sp "fmul" "h"; sp "fdiv" "h";
                         sp "fsub" "h"]));
    ("fcma", rule (alts [lit "fcmla"; lit "fcadd"]));
    ("frint", rule (alts [lit "frint32x"; lit "frint64x"; lit "frint32z"; lit "frint64z"]));
    (* 2. Cryptography and hash extensions *)
    ("aes", rule (alts [lit "aese"; lit "aesd"; lit "aesmc"; lit "aesimc"]));
    ("pmull", rule (alts [lit "pmull"]));
    ("sha1", rule (alts [lit "sha1" @ one_of "cpmhsu"]));
    ("sha2", rule (alts [lit "sha256" @ one_of "hsu"; lit "sha512" @ one_of "hsu"]));
    ("sha3", rule (alts [lit "rax1"; lit "bcax"; lit "eor3"; lit "xar"]));
    ("sha512", rule (alts [lit "sha512" @ one_of "hsu"]));
    ("sm3", rule (alts [lit "sm3ss1"; lit "sm3tt" @ one_of "12" @ one_of "ab";
                        lit "sm3partw" @ one_of "12"]));
    ("sm4", rule (alts [lit "sm4e"; lit "sm4ekey"]));
    (* 3. Memory, atomics, and synchronization *)
    ("atomics", rule (alts [lit "ldadd"; lit "ldclr"; lit "ldeor"; lit "ldset"; lit "ldsmax";
                            lit "ldsmin"; lit "ldumax"; lit "ldumin"; lit "cas"; lit "casp";
                            lit "swp"]));
    ("dcpop", rule (sp "dc" "cvap"));
    ("dcpodp", rule (sp "dc" "cvadp"));
    ("uscat", rule (alts [lit "stset"; lit "stclr"]));
    ("lrcpc", rule (alts [lit "ldapr"; lit "stlr"]));
    ("ilrcpc", rule (alts [lit "ldapur"; lit "stlur"]));
    ("dgh", rule (lit "dgh"));
    ("sb", rule (lit "sb"));
    ("wfxt", rule (alts [lit "wfet"; lit "wfit"]));
    (* 4. Security and control-flow *)
    ("paca", rule (alts [lit "pacia"; lit "pacib"; lit "autia"; lit "autib"]));
    ("pacg", rule (alts [lit "pacda"; lit "pacdb"; lit "pacga"; lit "autda"; lit "autdb";
                         lit "autga"]));
    ("bti", rule (lit "bti"));
    ("flagm", rule (alts [lit "setf8"; lit "setf16"; lit "rmif"]));
    ("flagm2", rule (alts [lit "axflag"; lit "xaflag"]));
    (* 5. Data conversion and integer extensions *)
    ("jscvt", rule (lit "fjcvtzs"));
    ("crc32", rule (lit "crc32" @ one_of "bhwxc"));
    ("dit", rule (sp "msr" "dit"));
    ("cpuid", rule (lit "mrs" @ plus ws @ Star dot @ lit "," @ Star ws @ lit "id_"));
    ("evtstrm", rule (lit "evtstrm")) ].

(** [^\s+[0-9a-f]+:], the test for an instruction line. *)
Definition INSN_LINE : pattern := Pattern true (plus ws @ plus hex @ lit ":").

(** [r"."], the pattern [inspect] counts all instructions with. *)
Definition ANY : pattern := Pattern false dot.

(** [disasm.split("\n")] *)
Fixpoint split_lines (s : string) : list string :=
  match s with
  | EmptyString => [EmptyString]
  | String c s' =>
      if Ascii.eqb c "010" then EmptyString :: split_lines s'
      else match split_lines s' with
           | l :: ls => String c l :: ls
           | [] => [String c EmptyString]
           end
  end.

(** The body of the loop of [count_instructions]. *)
Definition count_line (pat : pattern) (count : Z) (line : string) : Z :=
  if search INSN_LINE line then
    if search pat line then count + 1 else count
  else count.

(** [BinaryInspector.count_instructions(disasm, pattern)] *)
Definition count_instructions (disasm : string) (pat : pattern) : Z :=
  fold_left (count_line pat) (split_lines disasm) 0.

(** Values stored in the report. *)
Inductive value : Type :=
| VStr : string -> value
| VInt : Z -> value
| VFloat : Q -> value.

(** An [OrderedDict]: keys in insertion order; assigning to a key that is
    present replaces its value in place. *)
Definition odict : Type := list (string * value).

Fixpoint od_set (k : string) (v : value) (d : odict) : odict :=
  match d with
  | [] => [(k, v)]
  | (k', v') :: d' => if String.eqb k' k then (k, v) :: d' else (k', v') :: od_set k v d'
  end.

Fixpoint od_get (k : string) (d : odict) : option value :=
  match d with
  | [] => None
  | (k', v') :: d' => if String.eqb k' k then Some v' else od_get k d'
  end.

(** [d.update(other)] *)
Definition od_update (d other : odict) : odict :=
  fold_left (fun acc kv => od_set (fst kv) (snd kv) acc) other d.

Definition od_keys (d : odict) : list string := map fst d.

(** [(count * 100.0) / total_insn if total_insn > 0 else 0.0], in
    binary64: the two integers are converted, the product and the
    quotient are rounded. *)
Definition percentage (count total_insn : Z) : Q :=
  if total_insn >? 0
  then fdiv (fmul (float_of_int count) 100) (float_of_int total_insn)
  else 0%Q.

(** The state of the loop of [inspect] over [INSPECT_ARRAY.items()]. *)
Record loop_state : Type := LoopState {
  detected : list string;
  undetected : list string;
  extension_results : odict
}.

Definition inspect_step (disasm : string) (total_insn : Z)
  (st : loop_state) (item : string * pattern) : loop_state :=
  let (ext_name, pat) := item in
  let count := count_instructions disasm pat in
  let pct := percentage count total_insn in
  let res := od_set (ext_name ++ "_instructions") (VInt count) (extension_results st) in
  let res := od_set (ext_name ++ "_instructions_percentage") (VFloat pct) res in
  if count >? 0
  then LoopState (detected st ++ [ext_name])%list (undetected st) res
  else LoopState (detected st) (undetected st ++ [ext_name])%list res.

Definition inspect_loop (disasm : string) (total_insn : Z) : loop_state :=
  fold_left (inspect_step disasm total_insn) INSPECT_ARRAY (LoopState [] [] []).

(** [";".join(names) if names else "none"] *)
Definition join_or_none (names : list string) : string :=
  match names with
  | [] => "none"
  | _ => String.concat ";" names
  end.

(** The result of [parse_file_info], supplied by the [file] utility. *)
Record file_info : Type := FileInfo {
  binary_format : string;
  arch : string;
  elf_version : string;
  dynamically_linked : bool;
  interpreter : string;
  android_api : string;
  builder : string;
  build_id_sha1 : string;
  debug_info : bool;
  stripped : bool
}.

(** [str(b).lower()] *)
Definition str_lower_bool (b : bool) : string := if b then "true" else "false".

(** [BinaryInspector.inspect], given what the external tools returned:
    the name of the binary, the parsed [file] line, the size and the
    disassembly text. *)
Definition inspect (binary_name : string) (parsed_info : file_info) (size_mb : Q)
  (disasm : string) : odict :=
  let total_insn := count_instructions disasm ANY in
  let st := inspect_loop disasm total_insn in
  let detected_extensions := join_or_none (detected st) in
  let undetected_extensions := join_or_none (undetected st) in
  let output := [] in
  let output := od_set "binary_name" (VStr binary_name) output in
  let output := od_set "detected_extensions" (VStr detected_extensions) output in
  let output := od_set "undetected_extensions" (VStr undetected_extensions) output in
  let output := od_set "binary_format" (VStr (binary_format parsed_info)) output in
  let output := od_set "arch" (VStr (arch parsed_info)) output in
  let output := od_set "elf_version" (VStr (elf_version parsed_info)) output in
  let output := od_set "dynamically_linked"
                  (VStr (str_lower_bool (dynamically_linked parsed_info))) output in
  let output := od_set "interpreter" (VStr (interpreter parsed_info)) output in
  let output := od_set "android_api" (VStr (android_api parsed_info)) output in
  let output := od_set "builder" (VStr (builder parsed_info)) output in
  let output := od_set "build_id_sha1" (VStr (build_id_sha1 parsed_info)) output in
  let output := od_set "debug_info" (VStr (str_lower_bool (debug_info parsed_info))) output in
  let output := od_set "stripped" (VStr (str_lower_bool (stripped parsed_info))) output in
  let output := od_set "binary_size_mb" (VFloat size_mb) output in
  let output := od_set "total_instructions" (VInt total_insn) output in
  od_update output (extension_results st).

(** *** Descriptions used in the statements *)

(** A line that begins with whitespace, a hexadecimal offset and a
    colon. *)
Definition begins_with_offset (line : string) : Prop :=
  exists w h rest,
    list_ascii_of_string line = (w ++ h ++ ":"%char :: rest)%list /\
    w <> [] /\ forallb isspace w = true /\
    h <> [] /\ forallb ishex h = true.

(** The lines the loop of [count_instructions] adds one for. *)
Definition counted (pat : pattern) (line : string) : bool :=
  search INSN_LINE line && search pat line.

(** The two keys [inspect] stores per category. *)
Definition ext_keys (ext_name : string) : list string :=
  [ext_name ++ "_instructions"; ext_name ++ "_instructions_percentage"].

(** The keys of a report, in order. *)
Definition REPORT_KEYS : list string :=
  (["binary_name"; "detected_extensions"; "undetected_extensions"; "binary_format";
    "arch"; "elf_version"; "dynamically_linked"; "interpreter"; "android_api";
    "builder"; "build_id_sha1"; "debug_info"; "stripped"; "binary_size_mb";
    "total_instructions"] ++ flat_map ext_keys (map fst INSPECT_ARRAY))%list.

(** The entries [inspect] assigns before the per-category results. *)
Definition fixed_entries (binary_name : string) (parsed_info : file_info) (size_mb : Q)
  (st : loop_state) (total_insn : Z) : odict :=
  [ ("binary_name", VStr binary_name);
    ("detected_extensions", VStr (join_or_none (detected st)));
    ("undetected_extensions", VStr (join_or_none (undetected st)));
    ("binary_format", VStr (binary_format parsed_info));
    ("arch", VStr (arch parsed_info));
    ("elf_version", VStr (elf_version parsed_info));
    ("dynamically_linked", VStr (str_lower_bool (dynamically_linked parsed_info)));
    ("interpreter", VStr (interpreter parsed_info));
    ("android_api", VStr (android_api parsed_info));
    ("builder", VStr (builder parsed_info));
    ("build_id_sha1", VStr (build_id_sha1 parsed_info));
    ("debug_info", VStr (str_lower_bool (debug_info parsed_info)));
    ("stripped", VStr (str_lower_bool (stripped parsed_info)));
    ("binary_size_mb", VFloat size_mb);
    ("total_instructions", VInt total_insn) ].

(** The two entries one iteration of the loop of [inspect] assigns. *)
Definition ext_entries (disasm : string) (total_insn : Z) (item : string * pattern)
  : odict :=
  let count := count_instructions disasm (snd item) in
  [ (fst item ++ "_instructions", VInt count);
    (fst item ++ "_instructions_percentage", VFloat (percentage count total_insn)) ].

(** A category is detected when its count is positive. *)
Definition hit (disasm : string) (item : string * pattern) : bool :=
  (count_instructions disasm (snd item) >? 0)%Z.

(** A [file] line and a stream of headers and labels, as inputs. *)
Definition sample_info : file_info :=
  FileInfo "ELF 64-bit LSB pie executable" "ARM aarch64" "version 1 (SYSV)"
    true "/system/bin/linker64" "Android 21" "unknown" "none" false true.

Definition sample_headers : string :=
  String.concat (String "010" "")
    ["Disassembly of section .text:"; ""; "0000000000401000 <main>:"].

(** [s.split(";")] *)
Fixpoint split_semicolons (s : string) : list string :=
  match s with
  | EmptyString => [EmptyString]
  | String c s' =>
      if Ascii.eqb c ";" then EmptyString :: split_semicolons s'
      else match split_semicolons s' with
           | l :: ls => String c l :: ls
           | [] => [String c EmptyString]
           end
  end.

(** The categories a field of the report lists: none for "none", else
    the names between the semicolons. *)
Definition listed (field : string) : list string :=
  if String.eqb field "none" then [] else split_semicolons field.

(** The categories the report lists under a key. *)
Definition report_set (key : string) (report : odict) : list string :=
  match od_get key report with
  | Some (VStr field) => listed field
  | _ => []
  end.

(** A name that can be listed: it does not begin with "n" and has no
    semicolon. *)
Definition listable (n : string) : bool :=
  match n with
  | EmptyString => false
  | String c _ => negb (Ascii.eqb c "n")
  end && forallb (fun c => negb (Ascii.eqb c ";")) (list_ascii_of_string n).

(** [n] copies of a line, each followed by a newline. *)
Definition repeat_line (line : string) (n : positive) : string :=
  Pos.iter (fun s => line ++ String "010" s) "" n.

(** *** The address field *)

(** Where a character of an instruction line lies: in the leading
    whitespace, in the hexadecimal address, or after the colon. *)
Inductive zone : Type := Lead | Addr | Rest.

Definition zones : list zone := [Lead; Addr; Rest].

Definition zone_eqb (i j : zone) : bool :=
  match i, j with
  | Lead, Lead | Addr, Addr | Rest, Rest => true
  | _, _ => false
  end.

Definition zone_leb (i j : zone) : bool :=
  match i, j with
  | Lead, _ | Addr, Addr | Addr, Rest | Rest, Rest => true
  | _, _ => false
  end.

(** The zone after one more character of the line. *)
Definition zone_step (i : zone) (c : ascii) : option zone :=
  match i with
  | Lead => if isspace c then Some Lead else if ishex c then Some Addr else None
  | Addr => if ishex c then Some Addr else if Ascii.eqb c ":" then Some Rest else None
  | Rest => Some Rest
  end.

Fixpoint zone_run (i : zone) (t : list ascii) : option zone :=
  match t with
  | [] => Some i
  | c :: t' =>
      match zone_step i c with
      | Some k => zone_run k t'
      | None => None
      end
  end.

(** The characters of the whitespace and of the address: those [\s]
    matches, the hexadecimal digits and the colon. *)
Definition addr_chars : list ascii :=
  (list_ascii_of_string "0123456789abcdef:" ++
   ["009"; "010"; "011"; "012"; "013"; "028"; "029"; "030"; "031"; " "; "133"; "160"])%char%list.

Definition goes (i j : zone) (c : ascii) : bool :=
  match zone_step i c with
  | Some k => zone_eqb k j
  | None => false
  end.

(** [reach r i j]: a word of [r] may lead from zone [i] to zone [j]
    (an upper bound: [Star] is taken to lead anywhere forward, and any
    character to stay after the colon). *)
Fixpoint reach (r : regex) (i j : zone) : bool :=
  match r with
  | Void => false
  | Eps => zone_eqb i j
  | Sym p =>
      zone_eqb i Rest && zone_eqb j Rest || existsb (fun c => p c && goes i j c) addr_chars
  | Cat r1 r2 => existsb (fun k => if reach r1 i k then reach r2 k j else false) zones
  | Alt r1 r2 => reach r1 i j || reach r2 i j
  | Star _ => zone_leb i j
  end.

(** No word of [r] enters or leaves the address, or [r] matches
    everywhere. *)
Definition addr_blind (r : regex) : bool :=
  nullable r ||
  negb (reach r Lead Addr || reach r Lead Rest || reach r Addr Addr || reach r Addr Rest).

(** Two lines that differ only in the address before the colon. *)
Definition same_but_address (line1 line2 : string) : Prop :=
  exists w h1 h2 rest,
    list_ascii_of_string line1 = (w ++ h1 ++ ":"%char :: rest)%list /\
    list_ascii_of_string line2 = (w ++ h2 ++ ":"%char :: rest)%list /\
    forallb isspace w = true /\
    h1 <> [] /\ forallb ishex h1 = true /\
    h2 <> [] /\ forallb ishex h2 = true.

Fixpoint nodupb (l : list string) : bool :=
  match l with
  | [] => true
  | x :: l' => negb (existsb (String.eqb x) l') && nodupb l'
  end.

End Inspect.

(* ================================================================= *)
(** ** tools/auxv.print.py *)

Module Auxv.

Local Open Scope string_scope.
Local Open Scope Z_scope.

Definition SUPPORTED_ARCH_LIST : list string := ["aarch64"; "x86_64"; "i386"; "i686"].

(** Selected HWCAP bits for aarch64. *)
Definition AARCH64_HWCAP : list (N * string) :=
  [ (0, "FP"); (1, "ASIMD"); (2, "EVTSTRM"); (3, "AES"); (4, "PMULL"); (5, "SHA1");
    (6, "SHA2"); (7, "CRC32"); (8, "ATOMICS"); (9, "FPHP"); (10, "ASIMDHP"); (11, "CPUID");
    (12, "ASIMDRDM"); (13, "JSCVT"); (14, "FCMA"); (15, "LRCPC"); (16, "DCPOP");
    (17, "SHA3"); (18, "SM3"); (19, "SM4"); (20, "ASIMDDP"); (21, "SHA512"); (22, "SVE");
    (23, "ASIMDFHM"); (28, "ILRCPC"); (29, "FLAGM"); (30, "SSBS"); (31, "SB") ]%N.

Definition AARCH64_HWCAP2 : list (N * string) :=
  [ (0, "DCPODP"); (1, "SVE2"); (2, "SVEAES"); (3, "SVEPMULL"); (4, "SVEBITPERM");
    (5, "SVESHA3"); (6, "SVESM4"); (7, "FLAGM2"); (8, "FRINT"); (9, "SVEI8MM");
    (10, "SVEF32MM"); (11, "SVEF64MM"); (12, "SVEBF16"); (13, "I8MM"); (14, "BF16");
    (15, "DGH"); (16, "RNG"); (17, "BTI"); (20, "MTE"); (21, "ECV"); (22, "AFP");
    (23, "RPRFM"); (28, "MTE3"); (29, "SSELECT"); (30, "IDST") ]%N.

(** Selected HWCAP bits for x86. *)
Definition X86_HWCAP : list (N * string) :=
  [ (0, "FPU"); (1, "VME"); (2, "DE"); (3, "PSE"); (4, "TSC"); (5, "MSR"); (6, "PAE");
    (7, "MCE"); (8, "CX8"); (9, "APIC"); (11, "SEP"); (12, "MTRR"); (13, "PGE");
    (14, "MCA"); (15, "CMOV"); (16, "PAT"); (17, "PSE36"); (19, "CLFLUSH"); (23, "MMX");
    (25, "SSE"); (26, "SSE2") ]%N.

(** [(bits >> bit) & 1], as a truth value. *)
Definition bit_set (bits : Z) (bit : N) : bool :=
  negb (Z.land (Z.shiftr bits (Z.of_N bit)) 1 =? 0).

(** [[name for bit, name in table.items() if (bits >> bit) & 1]] *)
Fixpoint bits_to_names (bits : Z) (table : list (N * string)) : list string :=
  match table with
  | [] => []
  | (bit, name) :: table' =>
      if bit_set bits bit then name :: bits_to_names bits table'
      else bits_to_names bits table'
  end.

(** [sorted] on a list of [str]: ascending by code points. *)
Fixpoint insert_sorted (x : string) (l : list string) : list string :=
  match l with
  | [] => [x]
  | y :: l' => if String.leb x y then x :: l else y :: insert_sorted x l'
  end.

Fixpoint sorted (l : list string) : list string :=
  match l with
  | [] => []
  | x :: l' => insert_sorted x (sorted l')
  end.

(** ["%x" % n] *)
Definition hex_of_Z (n : Z) : string :=
  match n with
  | Z0 => "0"
  | Zpos p => HexString.Raw.of_pos p ""
  | Zneg p => "-" ++ HexString.Raw.of_pos p ""
  end.

(** [lines.append(line)] *)
Definition append_line (lines : list string) (line : string) : list string :=
  (lines ++ [line])%list.

(** [decode_hwcap(arch, hwcap, hwcap2)]: the lines it returns. *)
Definition decode_hwcap (arch : string) (hwcap hwcap2 : Z) : list string :=
  if String.eqb arch "aarch64" then
    let names1 := bits_to_names hwcap AARCH64_HWCAP in
    let names2 := bits_to_names hwcap2 AARCH64_HWCAP2 in
    let lines := [] in
    let lines := match names1 with
                 | [] => lines
                 | _ => append_line lines ("HWCAP:  " ++ String.concat ", " (sorted names1))
                 end in
    let lines := match names2 with
                 | [] => lines
                 | _ => append_line lines ("HWCAP2: " ++ String.concat ", " (sorted names2))
                 end in
    lines
  else if existsb (String.eqb arch) ["x86_64"; "i386"; "i686"] then
    let names := bits_to_names hwcap X86_HWCAP in
    let lines := [] in
    let lines := match names with
                 | [] => lines
                 | _ => append_line lines ("HWCAP:  " ++ String.concat ", " (sorted names))
                 end in
    let lines := if hwcap2 =? 0 then lines
                 else append_line lines
                        ("HWCAP2: 0x" ++ hex_of_Z hwcap2 ++ " (rarely used on x86)") in
    lines
  else [].

(** *** The decoder *)

(** What the decoder takes from the interpreter it runs on:
    [ctypes.sizeof(ctypes.c_ulong)] and the byte order of [struct]'s
    native mode. *)
Inductive byteorder : Type := Little | Big.

Record host : Type := Host { sizeof_c_ulong : Z; sys_byteorder : byteorder }.

(** The two formats of [struct.unpack] the decoder uses. *)
Inductive format : Type := QQ | II.

Definition word_size (fmt : format) : nat :=
  match fmt with QQ => 8 | II => 4 end.

(** [struct.calcsize(fmt)] *)
Definition calcsize (fmt : format) : nat := (2 * word_size fmt)%nat.

(** The unsigned integer stored in [bs], least significant byte first. *)
Fixpoint uint_le (bs : list byte) : Z :=
  match bs with
  | [] => 0
  | b :: bs' => Z.of_N (Byte.to_N b) + 256 * uint_le bs'
  end.

Definition uint_of_bytes (bo : byteorder) (bs : list byte) : Z :=
  match bo with
  | Little => uint_le bs
  | Big => uint_le (rev bs)
  end.

(** [struct.unpack(fmt, chunk)]: [None] stands for [struct.error], raised
    when the chunk has not the size of the format. *)
Definition unpack (bo : byteorder) (fmt : format) (chunk : list byte) : option (Z * Z) :=
  if (List.length chunk =? calcsize fmt)%nat then
    Some (uint_of_bytes bo (firstn (word_size fmt) chunk),
          uint_of_bytes bo (skipn (word_size fmt) chunk))
  else None.

(** [data[i : j]] for [0 <= i <= j]. *)
Definition slice (data : list byte) (i j : nat) : list byte :=
  firstn (j - i) (skipn i data).

(** [range(0, stop, step)] for [step > 0]. *)
Definition range0 (stop step : nat) : list nat :=
  map (fun k => (k * step)%nat) (seq 0 ((stop + step - 1) / step)).

(** What [parse_auxv] does: return entries or raise. *)
Inductive result : Type :=
| Ok : list (Z * Z) -> result
| RuntimeError_UnsupportedWordSize : Z -> result
| StructError : result.

(** The loop of [parse_auxv] over [range(0, len(data), step)]. *)
Fixpoint parse_loop (bo : byteorder) (fmt : format) (step : nat) (data : list byte)
  (idxs : list nat) (entries : list (Z * Z)) : result :=
  match idxs with
  | [] => Ok entries
  | i :: idxs' =>
      let chunk := slice data i (i + step) in
      if (List.length chunk <? step)%nat then Ok entries
      else match unpack bo fmt chunk with
           | None => StructError
           | Some (a_type, a_val) =>
               if a_type =? 0 then Ok entries
               else parse_loop bo fmt step data idxs' (entries ++ [(a_type, a_val)])%list
           end
  end.

(** The word size [parse_auxv] resolves from the architecture hint. *)
Definition resolve_ul_size (h : host) (arch : option string) : Z :=
  match arch with
  | Some a =>
      if String.eqb a "aarch64" || String.eqb a "x86_64" then 8
      else if existsb (String.eqb a) ["i386"; "i686"] then 4
      else sizeof_c_ulong h
  | None => sizeof_c_ulong h
  end.

(** [parse_auxv(data, arch)] on raw bytes. *)
Definition parse_auxv (h : host) (data : list byte) (arch : option string) : result :=
  let ul_size := resolve_ul_size h arch in
  if ul_size =? 8 then
    parse_loop (sys_byteorder h) QQ 16 data (range0 (List.length data) 16) []
  else if ul_size =? 4 then
    parse_loop (sys_byteorder h) II 8 data (range0 (List.length data) 8) []
  else RuntimeError_UnsupportedWordSize ul_size.

(** *** Building buffers *)

(** The byte of value [v mod 256]. *)
Definition byte_of_Z (v : Z) : byte :=
  match Byte.of_N (Z.to_N (v mod 256)) with
  | Some b => b
  | None => x00
  end.

(** The [n] bytes of [v], least significant first. *)
Fixpoint bytes_le (n : nat) (v : Z) : list byte :=
  match n with
  | O => []
  | S n' => byte_of_Z v :: bytes_le n' (v / 256)
  end.

Definition bytes_of_uint (bo : byteorder) (n : nat) (v : Z) : list byte :=
  match bo with
  | Little => bytes_le n v
  | Big => rev (bytes_le n v)
  end.

(** One (tag, value) pair as two words of [w] bytes. *)
Definition encode_pair (bo : byteorder) (w : nat) (e : Z * Z) : list byte :=
  (bytes_of_uint bo w (fst e) ++ bytes_of_uint bo w (snd e))%list.

Definition encode (bo : byteorder) (w : nat) (es : list (Z * Z)) : list byte :=
  flat_map (encode_pair bo w) es.

(** *** Descriptions used in the statements *)

(** The decoder raised. *)
Definition raises (r : result) : Prop :=
  match r with
  | Ok _ => False
  | _ => True
  end.

(** A 64-bit little-endian host. *)
Definition host_le64 : host := Host 8 Little.

(** [AT_PAGESZ = 4096], [AT_HWCAP = 0x40040a], then [AT_NULL]. *)
Definition sample_entries : list (Z * Z) := [(6, 4096); (17, 4194314)].

Definition sample_auxv (w : nat) : list byte :=
  encode Little w (sample_entries ++ [(0, 0)]).

(** The order [sorted] sorts by. *)
Definition str_le (a b : string) : Prop := String.leb a b = true.

End Auxv.

(* ================================================================= *)
(** ** tools/arm64.inspect.py: samples and printing *)

Module InspectMain.
Import Re Inspect.

Local Open Scope string_scope.

(** [s.lstrip()] on the characters of [s]. *)
Fixpoint lstrip (s : list ascii) : list ascii :=
  match s with
  | [] => []
  | c :: s' => if isspace c then lstrip s' else s
  end.

(** [s.strip()]: whitespace removed at both ends. *)
Definition strip (s : string) : string :=
  string_of_list_ascii (rev (lstrip (rev (lstrip (list_ascii_of_string s))))).

(** The loop of [find_sample_instructions]; it is left at the [break]. *)
Fixpoint sample_loop (pat : pattern) (limit : Z) (lines samples : list string)
  : list string :=
  match lines with
  | [] => samples
  | line :: rest =>
      if search INSN_LINE line then
        if search pat line then
          let samples' := (samples ++ [strip line])%list in
          if (Z.of_nat (List.length samples') >=? limit)%Z then samples'
          else sample_loop pat limit rest samples'
        else sample_loop pat limit rest samples
      else sample_loop pat limit rest samples
  end.

(** [BinaryInspector.find_sample_instructions(disasm, pattern, limit)] *)
Definition find_sample_instructions (disasm : string) (pat : pattern) (limit : Z)
  : list string :=
  sample_loop pat limit (split_lines disasm) [].

(** [s.endswith(suffix)] *)
Definition endswith (s suffix : string) : bool :=
  let n := String.length s in
  let m := String.length suffix in
  (m <=? n)%nat && String.eqb (substring (n - m) m s) suffix.

(** What [main] prints for one key: [f"{key}: {value:.2f}"],
    [f"{key}: {value:.1f}"] or [f"{key}: {value}"]. *)
Inductive printed : Type :=
| Print2f : string -> value -> printed
| Print1f : string -> value -> printed
| PrintStr : string -> value -> printed.

Definition printed_key (l : printed) : string :=
  match l with
  | Print2f k _ | Print1f k _ | PrintStr k _ => k
  end.

(** [0 if args.quiet else args.debug] *)
Definition debug_level (quiet : bool) (debug : Z) : Z :=
  if quiet then 0%Z else debug.

(** One iteration of the printing loop of [main]. *)
Definition print_item (debug_level : Z) (item : string * value) : list printed :=
  let (key, value) := item in
  if (debug_level <? 1)%Z &&
     (endswith key "_instructions" || endswith key "_instructions_percentage")
  then []
  else if endswith key "_percentage" then [Print2f key value]
  else if String.eqb key "binary_size_mb" then [Print1f key value]
  else [PrintStr key value].

(** The keys the loop does not skip. *)
Definition shown (debug_level : Z) (key : string) : bool :=
  negb ((debug_level <? 1)%Z &&
        (endswith key "_instructions" || endswith key "_instructions_percentage")).

(** The printing loop of [main] over [results.items()]. *)
Definition print_results (debug_level : Z) (results : odict) : list printed :=
  flat_map (print_item debug_level) results.

(** A format applied to a value it accepts: [.2f] and [.1f] are given
    numbers. *)
Definition well_formatted (l : printed) : Prop :=
  match l with
  | Print2f _ (VFloat _) | Print2f _ (VInt _) => True
  | Print1f _ (VFloat _) | Print1f _ (VInt _) => True
  | PrintStr _ _ => True
  | _ => False
  end.

(** The keys [main] prints without [-d]. *)
Definition QUIET_KEYS : list string :=
  ["binary_name"; "detected_extensions"; "undetected_extensions"; "binary_format";
   "arch"; "elf_version"; "dynamically_linked"; "interpreter"; "android_api";
   "builder"; "build_id_sha1"; "debug_info"; "stripped"; "binary_size_mb"].

End InspectMain.

(* ================================================================= *)
(** ** tools/auxv.print.py: the table [main] prints *)

Module AuxvMain.
Import Auxv.

Local Open Scope string_scope.
Local Open Scope Z_scope.

(** AT_* tag names (from linux/auxvec.h). *)
Definition AT_NAMES : list (Z * string) :=
  [ (0, "AT_NULL"); (1, "AT_IGNORE"); (2, "AT_EXECFD"); (3, "AT_PHDR"); (4, "AT_PHENT");
    (5, "AT_PHNUM"); (6, "AT_PAGESZ"); (7, "AT_BASE"); (8, "AT_FLAGS"); (9, "AT_ENTRY");
    (10, "AT_NOTELF"); (11, "AT_UID"); (12, "AT_EUID"); (13, "AT_GID"); (14, "AT_EGID");
    (15, "AT_CLKTCK"); (16, "AT_PLATFORM"); (17, "AT_HWCAP"); (18, "AT_FPUCW");
    (19, "AT_DCACHEBSIZE"); (20, "AT_ICACHEBSIZE"); (21, "AT_UCACHEBSIZE");
    (22, "AT_IGNOREPPC"); (23, "AT_SECURE"); (24, "AT_BASE_PLATFORM"); (25, "AT_RANDOM");
    (26, "AT_HWCAP2"); (31, "AT_EXECFN"); (32, "AT_SYSINFO"); (33, "AT_SYSINFO_EHDR");
    (34, "AT_L1I_CACHESHAPE"); (35, "AT_L1D_CACHESHAPE"); (36, "AT_L2_CACHESHAPE");
    (37, "AT_L3_CACHESHAPE") ].

(** [d.get(k)] on a dictionary with integer keys. *)
Fixpoint dict_get {A : Type} (k : Z) (d : list (Z * A)) : option A :=
  match d with
  | [] => None
  | (k', v) :: d' => if k' =? k then Some v else dict_get k d'
  end.

(** [d[k] = v] *)
Fixpoint dict_set {A : Type} (k : Z) (v : A) (d : list (Z * A)) : list (Z * A) :=
  match d with
  | [] => [(k, v)]
  | (k', v') :: d' => if k' =? k then (k, v) :: d' else (k', v') :: dict_set k v d'
  end.

(** ["%d" % n], [str(n)] *)
Definition dec_of_Z (n : Z) : string := NilEmpty.string_of_int (Z.to_int n).

(** [AT_NAMES.get(t, "AT_%d" % t)] *)
Definition at_name (t : Z) : string :=
  match dict_get t AT_NAMES with
  | Some name => name
  | None => "AT_" ++ dec_of_Z t
  end.

Fixpoint spaces (n : nat) : string :=
  match n with
  | O => ""
  | S n' => String " " (spaces n')
  end.

(** [f"{s:<{w}}"]: [s] padded with spaces on the right to [w]
    characters. *)
Definition ljust (s : string) (w : nat) : string :=
  s ++ spaces (w - String.length s).

(** [max(len(AT_NAMES.get(t, "AT_%d" % t)) for t, _ in entries)], or 15
    without entries. *)
Definition name_width (entries : list (Z * Z)) : nat :=
  match entries with
  | [] => 15%nat
  | _ => fold_right Nat.max 0%nat (map (fun e => String.length (at_name (fst e))) entries)
  end.

(** The names whose values are printed in decimal. *)
Definition DECIMAL_NAMES : list string :=
  ["AT_PHENT"; "AT_PHNUM"; "AT_PAGESZ"; "AT_CLKTCK"; "AT_UID"; "AT_EUID"; "AT_GID";
   "AT_EGID"; "AT_SECURE"].

Definition quote : string := String "034" "".

(** What follows [" : "] in the row of one entry. *)
Definition entry_field (str_cache : list (Z * string)) (t v : Z) : string :=
  let name := at_name t in
  match (if existsb (Z.eqb t) [16; 24; 31] then dict_get t str_cache else None) with
  | Some s => "0x" ++ hex_of_Z v ++ "  " ++ quote ++ s ++ quote
  | None =>
      if t =? 25 then "0x" ++ hex_of_Z v ++ "  (pointer to 16 random bytes)"
      else if existsb (String.eqb name) DECIMAL_NAMES then dec_of_Z v
      else "0x" ++ hex_of_Z v
  end.

(** The row printed for one entry. *)
Definition entry_row (name_w : nat) (str_cache : list (Z * string)) (e : Z * Z) : string :=
  ljust (at_name (fst e)) name_w ++ " : " ++ entry_field str_cache (fst e) (snd e).

(** The table: one [print] per element. *)
Definition print_table (source_desc : string) (entries : list (Z * Z))
  (str_cache : list (Z * string)) : list string :=
  ("auxv from " ++ source_desc ++ ":")
    :: map (entry_row (name_width entries) str_cache) entries.

(** [next((v for t, v in entries if t == tag), 0)] *)
Fixpoint first_value (tag : Z) (entries : list (Z * Z)) : Z :=
  match entries with
  | [] => 0
  | (t, v) :: entries' => if t =? tag then v else first_value tag entries'
  end.

Definition newline : string := String "010" "".

(** What [main] prints under [--decode-hwcap]. *)
Definition print_hwcap (arch : string) (entries : list (Z * Z)) : list string :=
  let hw1 := first_value 17 entries in
  let hw2 := first_value 26 entries in
  match decode_hwcap arch hw1 hw2 with
  | [] => [newline ++ "Decoded HWCAP: (no known mapping for arch=" ++ arch ++ ")"]
  | lines => (newline ++ "Decoded HWCAP:") :: map (fun ln => "  " ++ ln) lines
  end.

(** The command line, after [argparse]. *)
Record args : Type := Args {
  decode_auxv : option string;
  decode_arch : option string;
  decode_hwcap_flag : bool;
  try_strings : bool
}.

(** What the process is told by its system: [platform.machine()],
    [os.getpid()], the bytes [open(path, "rb").read()] returns - none
    when [open] raises, the file missing or unreadable - and the string
    [read_string_from_maps] finds at an address, if any. *)
Record system : Type := System {
  sys_host : host;
  machine : string;
  getpid : Z;
  read_bytes : string -> option (list byte);
  read_string_from_maps : Z -> option string
}.

(** The loop that fills [str_cache] under [--try-strings]. *)
Fixpoint fill_str_cache (sys : system) (entries : list (Z * Z))
  (str_cache : list (Z * string)) : list (Z * string) :=
  match entries with
  | [] => str_cache
  | (t, v) :: entries' =>
      if existsb (Z.eqb t) [16; 24; 31] && negb (v =? 0) then
        match read_string_from_maps sys v with
        | Some s =>
            if String.eqb s "" then fill_str_cache sys entries' str_cache
            else fill_str_cache sys entries' (dict_set t s str_cache)
        | None => fill_str_cache sys entries' str_cache
        end
      else fill_str_cache sys entries' str_cache
  end.

(** How a run of [main] ends, given the values of its four options:
    the lines printed on standard output, the exception of the decoder,
    the [OSError] of [open] on the path it could not read, or the
    rejection of [--decode-arch] by [argparse]
    ([choices=SUPPORTED_ARCH_LIST]). *)
Inductive outcome : Type :=
| Printed : list string -> outcome
| Raised : result -> outcome
| OSError : string -> outcome
| ArgumentError : outcome.

(** [parse_auxv(path, arch=arch)] on a path: the file is read first. *)
Definition parse_auxv_path (sys : system) (path arch : string) : option result :=
  match read_bytes sys path with
  | Some data => Some (parse_auxv (sys_host sys) data (Some arch))
  | None => None
  end.

Definition valid_choice (a : option string) : bool :=
  match a with
  | Some x => existsb (String.eqb x) SUPPORTED_ARCH_LIST
  | None => true
  end.

(** [main()] *)
Definition main (sys : system) (a : args) : outcome :=
  if negb (valid_choice (decode_arch a)) then ArgumentError
  else
    let '(arch, auxv_path, decoded, source_desc, cache) :=
      match decode_auxv a with
      | Some path =>
          let arch := match decode_arch a with
                      | Some x => if String.eqb x "" then machine sys else x
                      | None => machine sys
                      end in
          (arch, path, parse_auxv_path sys path arch,
           "File: " ++ path ++ " (arch=" ++ arch ++ ")",
           fun _ : list (Z * Z) => @nil (Z * string))
      | None =>
          let arch := machine sys in
          (arch, "/proc/self/auxv", parse_auxv_path sys "/proc/self/auxv" arch,
           "PID " ++ dec_of_Z (getpid sys) ++ " (arch=" ++ arch ++ ")",
           fun entries => if try_strings a then fill_str_cache sys entries [] else [])
      end in
    match decoded with
    | None => OSError auxv_path
    | Some (Ok entries) =>
        Printed (print_table source_desc entries (cache entries) ++
                 (if decode_hwcap_flag a then print_hwcap arch entries else []))%list
    | Some r => Raised r
    end.

(** *** Descriptions used in the statements *)

(** The tags of [DECIMAL_NAMES], in the same order. *)
Definition DECIMAL_TAGS : list Z := [4; 5; 6; 15; 11; 12; 13; 14; 23].

(** The message printed when [decode_hwcap] returns no line. *)
Definition no_mapping (arch : string) : string :=
  newline ++ "Decoded HWCAP: (no known mapping for arch=" ++ arch ++ ")".

(** A row with [" : "] at column [w]. *)
Definition colon_at (w : nat) (row : string) : Prop := substring w 3 row = " : ".

(** No bit of the table is set in the mask. *)
Definition no_named_bit (bits : Z) (table : list (N * string)) : Prop :=
  forall bit name, In (bit, name) table -> Z.testbit bits (Z.of_N bit) = false.

(** A system whose files hold one buffer. *)
Definition sample_system (h : host) (m : string) (data : list byte) : system :=
  System h m 4242 (fun _ => Some data) (fun _ => None).

(** The path [main] reads. *)
Definition auxv_path (a : args) : string :=
  match decode_auxv a with
  | Some path => path
  | None => "/proc/self/auxv"
  end.

(** The hint [main] passes to the decoder. *)
Definition auxv_arch (sys : system) (a : args) : string :=
  match decode_auxv a, decode_arch a with
  | Some _, Some x => if String.eqb x "" then machine sys else x
  | _, _ => machine sys
  end.

(** The decoder has no word size: its hint is none of the four and the
    native [c_ulong] has neither 4 nor 8 bytes. *)
Definition no_word_size (sys : system) (a : args) : Prop :=
  ~ In (auxv_arch sys a) SUPPORTED_ARCH_LIST /\
  ~ (sizeof_c_ulong (sys_host sys) = 4 \/ sizeof_c_ulong (sys_host sys) = 8).

End AuxvMain.

(* ================================================================= *)
(** ** tools/arm64.inspect.py: the [file] line *)

Module InspectInfo.
Import Re Binary64 Inspect InspectMain.

Local Open Scope string_scope.

(** [s] begins with [p]. *)
Fixpoint starts_with (p s : list ascii) : bool :=
  match p, s with
  | [], _ => true
  | a :: p', b :: s' => Ascii.eqb a b && starts_with p' s'
  | _ :: _, [] => false
  end.

Fixpoint occurs (p s : list ascii) : bool :=
  starts_with p s ||
  match s with
  | [] => false
  | _ :: s' => occurs p s'
  end.

(** [needle in s] *)
Definition contains (needle s : string) : bool :=
  occurs (list_ascii_of_string needle) (list_ascii_of_string s).

(** [s.split(":", 1)[1]] when [s] has a colon: what follows the
    first one. *)
Fixpoint after_colon (s : list ascii) : list ascii :=
  match s with
  | [] => []
  | c :: s' => if Ascii.eqb c ":" then s' else after_colon s'
  end.

(** The pieces the patterns of [parse_file_info] are made of: a literal,
    a class repeated with [+], an alternation of literals. *)
Inductive item : Type :=
| Lit : string -> item
| Many : (ascii -> bool) -> item
| Or : list string -> item.

(** [s] without its prefix [p], if it begins with [p]. *)
Fixpoint drop_prefix (p s : list ascii) : option (list ascii) :=
  match p, s with
  | [], _ => Some s
  | a :: p', b :: s' => if Ascii.eqb a b then drop_prefix p' s' else None
  | _ :: _, [] => None
  end.

(** The text a sequence of items matches at the start of [s], found as
    [re] finds it: [+] takes as many characters as it can and gives them
    back one by one while the rest of the pattern fails; the
    alternatives are tried in order. *)
Fixpoint match_items (items : list item) (s : list ascii) : option (list ascii) :=
  match items with
  | [] => Some []
  | Lit l :: items' =>
      match drop_prefix (list_ascii_of_string l) s with
      | Some s' => option_map (app (list_ascii_of_string l)) (match_items items' s')
      | None => None
      end
  | Many cls :: items' =>
      (fix many (s : list ascii) : option (list ascii) :=
         match s with
         | [] => None
         | c :: s' =>
             if cls c then
               match many s' with
               | Some g => Some (c :: g)
               | None => option_map (cons c) (match_items items' s')
               end
             else None
         end) s
  | Or ls :: items' =>
      (fix alternatives (ls : list string) : option (list ascii) :=
         match ls with
         | [] => None
         | l :: ls' =>
             match drop_prefix (list_ascii_of_string l) s with
             | Some s' =>
                 match match_items items' s' with
                 | Some g => Some (list_ascii_of_string l ++ g)%list
                 | None => alternatives ls'
                 end
             | None => alternatives ls'
             end
         end) ls
  end.

(** A pattern whose one group runs to its end: [before(group)]. *)
Record capture : Type := Capture { before : string; group : list item }.

(** [m.group(1)] for [m = re.match(pattern, s)], if there is a match. *)
Definition re_match (p : capture) (s : list ascii) : option (list ascii) :=
  match drop_prefix (list_ascii_of_string (before p)) s with
  | Some s' => match_items (group p) s'
  | None => None
  end.

(** [m.group(1)] for [m = re.search(pattern, s)]: the match at the first
    position, from the left, that has one. *)
Fixpoint re_search (p : capture) (s : list ascii) : option (list ascii) :=
  match re_match p s with
  | Some g => Some g
  | None =>
      match s with
      | [] => None
      | _ :: s' => re_search p s'
      end
  end.

Definition notcomma (c : ascii) : bool := negb (Ascii.eqb c ",").
Definition notclose (c : ascii) : bool := negb (Ascii.eqb c ")").

(** [(ELF [^,]+)] *)
Definition BINARY_FORMAT : capture := Capture "" [Lit "ELF "; Many notcomma].

(** [(ARM aarch64|x86-64|i386|MIPS)] *)
Definition ARCH : capture := Capture "" [Or ["ARM aarch64"; "x86-64"; "i386"; "MIPS"]].

(** [(version \d+ \([^)]+\))] *)
Definition ELF_VERSION : capture :=
  Capture "" [Lit "version "; Many isdigit; Lit " ("; Many notclose; Lit ")"].

(** [interpreter ([^,]+)] *)
Definition INTERPRETER : capture := Capture "interpreter " [Many notcomma].

(** [for (Android \d+)] *)
Definition ANDROID_API : capture := Capture "for " [Lit "Android "; Many isdigit].

(** [built by (NDK [^,]+)] *)
Definition BUILDER : capture := Capture "built by " [Lit "NDK "; Many notcomma].

(** [BuildID\[sha1\]=([0-9a-f]+)] *)
Definition BUILD_ID : capture := Capture "BuildID[sha1]=" [Many ishex].

(** [m.group(1) if m else default] *)
Definition group_or (m : option (list ascii)) (default : string) : string :=
  match m with
  | Some g => string_of_list_ascii g
  | None => default
  end.

(** The first statement of [parse_file_info]: the filename prefix is
    removed. *)
Definition without_name (file_info : string) : string :=
  if contains ":" file_info
  then strip (string_of_list_ascii (after_colon (list_ascii_of_string file_info)))
  else file_info.

(** [BinaryInspector.parse_file_info(file_info)] *)
Definition parse_file_info (file_info : string) : Inspect.file_info :=
  let file_info := without_name file_info in
  let text := list_ascii_of_string file_info in
  let binary_format := group_or (re_match BINARY_FORMAT text) "unknown" in
  let arch := group_or (re_search ARCH text) "unknown" in
  let elf_version := group_or (re_search ELF_VERSION text) "unknown" in
  let dynamically_linked := contains "dynamically linked" file_info in
  let interpreter :=
    match re_search INTERPRETER text with
    | Some g => strip (string_of_list_ascii g)
    | None => "none"
    end in
  let android_api := group_or (re_search ANDROID_API text) "none" in
  let builder := group_or (re_search BUILDER text) "unknown" in
  let build_id_sha1 := group_or (re_search BUILD_ID text) "none" in
  let debug_info := contains "with debug_info" file_info in
  let stripped := contains "stripped" file_info && negb (contains "not stripped" file_info) in
  FileInfo binary_format arch elf_version dynamically_linked interpreter android_api
    builder build_id_sha1 debug_info stripped.

(** [BinaryInspector.get_build_id], given the standard output of
    [readelf -n]: the first line that names a build id, stripped. *)
Fixpoint first_build_id_line (lines : list string) : option string :=
  match lines with
  | [] => None
  | line :: lines' =>
      if contains "Build ID" line || contains "BuildID" line then Some (strip line)
      else first_build_id_line lines'
  end.

Definition get_build_id (stdout : string) : option string :=
  first_build_id_line (split_lines stdout).

(** *** The size of the file *)

(** [f"{x:.1f}"] for a number [x >= 0] that binary64 holds exactly: the
    tenth nearest to it, ties to even. *)
Definition format_1f (x : Q) : string :=
  let t := round_half_even (x * 10) in
  AuxvMain.dec_of_Z (t / 10) ++ "." ++ AuxvMain.dec_of_Z (t mod 10).

(** The loop of [get_file_size] over the units. *)
Fixpoint size_loop (units : list string) (size : Q) : string :=
  match units with
  | [] => format_1f size ++ " TB"
  | unit :: units' =>
      match (size ?= 1024)%Q with
      | Lt => format_1f size ++ " " ++ unit
      | _ => size_loop units' (size / 1024)
      end
  end.

(** [BinaryInspector.get_file_size], given [st_size].  Below 2^53 the
    size and its quotients by 1024 are held exactly by binary64. *)
Definition get_file_size (st_size : Z) : string :=
  size_loop ["B"; "KB"; "MB"; "GB"] (inject_Z st_size).

(** *** Descriptions used in the statements *)

(** The language of a sequence of items. *)
Definition regex_of_item (i : item) : regex :=
  match i with
  | Lit l => lit l
  | Many cls => plus (Sym cls)
  | Or ls => alts (map lit ls)
  end.

Fixpoint regex_of (items : list item) : regex :=
  match items with
  | [] => Eps
  | i :: items' => Cat (regex_of_item i) (regex_of items')
  end.

(** A pattern read without its group, as [re.search] - or, anchored,
    [re.match] - decides it. *)
Definition whole (anchor : bool) (p : capture) : pattern :=
  Pattern anchor (Cat (lit (before p)) (regex_of (group p))).

(** A run of the class: one character or more, all in the class. *)
Definition run (cls : ascii -> bool) (r : list ascii) : Prop :=
  r <> [] /\ forallb cls r = true.

(** [s] is empty or begins with a character outside the class: a run of
    the class cannot go on into [s]. *)
Definition halts (cls : ascii -> bool) (s : list ascii) : Prop :=
  match s with
  | [] => True
  | c :: _ => cls c = false
  end.

(** The same, of strings. *)
Definition all (cls : ascii -> bool) (s : string) : Prop :=
  s <> "" /\ forallb cls (list_ascii_of_string s) = true.

Definition stops (cls : ascii -> bool) (s : string) : Prop :=
  halts cls (list_ascii_of_string s).

(** The four fields read as a keyword and the run of a class after it,
    with their keyword, their class, and the field made of a run. *)
Inductive keyword_field : Type := Interpreter | AndroidApi | Builder | BuildId.

Definition keyword (f : keyword_field) : string :=
  match f with
  | Interpreter => "interpreter "
  | AndroidApi => "for Android "
  | Builder => "built by NDK "
  | BuildId => "BuildID[sha1]="
  end.

Definition keyword_class (f : keyword_field) : ascii -> bool :=
  match f with
  | Interpreter => notcomma
  | AndroidApi => isdigit
  | Builder => notcomma
  | BuildId => ishex
  end.

Definition field_value (f : keyword_field) (r : Inspect.file_info) : string :=
  match f with
  | Interpreter => interpreter r
  | AndroidApi => android_api r
  | Builder => builder r
  | BuildId => build_id_sha1 r
  end.

Definition field_of_run (f : keyword_field) (p : string) : string :=
  match f with
  | Interpreter => strip p
  | AndroidApi => "Android " ++ p
  | Builder => "NDK " ++ p
  | BuildId => p
  end.

(** [s[:-1]] *)
Definition but_last (s : string) : string :=
  string_of_list_ascii (removelast (list_ascii_of_string s)).

(** The units of [get_file_size], the last one included. *)
Definition UNITS : list string := ["B"; "KB"; "MB"; "GB"; "TB"].

(** The texts that make [parse_file_info] recognise something. *)
Definition MARKERS : list string :=
  ["ELF "; "ARM aarch64"; "x86-64"; "i386"; "MIPS"; "version "; "dynamically linked";
   "interpreter "; "for Android "; "built by NDK "; "BuildID[sha1]="; "with debug_info";
   "stripped"].

(** What [parse_file_info] returns when it recognises nothing. *)
Definition UNRECOGNISED : Inspect.file_info :=
  FileInfo "unknown" "unknown" "unknown" false "none" "none" "unknown" "none" false false.

(** A line of [file] for an Android binary. *)
Definition android_line : string :=
  "libx265.so: ELF 64-bit LSB shared object, ARM aarch64, version 1 (SYSV), " ++
  "dynamically linked, interpreter /system/bin/linker64, for GNU/Linux 3.7.0, " ++
  "BuildID[sha1]=0a1b2c3d4e5f, for Android 21, built by NDK r26b (10909125), " ++
  "with debug_info, not stripped".

End InspectInfo.

(* ================================================================= *)
(** ** The matcher decides the language *)

Module ReFacts.
Import Re.

Create HintDb re.
#[local] Hint Constructors matches : re.

Lemma nullable_iff (r : regex) : nullable r = true <-> matches r [].
Proof.
  split.
  - induction r; simpl; intro H; try discriminate; auto with re.
    + apply andb_true_iff in H as [H1 H2].
      change (@nil ascii) with (@nil ascii ++ []). auto with re.
    + apply orb_true_iff in H as [H | H]; auto with re.
  - intro H. remember [] as s eqn:E. revert E.
    induction H; intro E; simpl; try discriminate; auto.
    + apply app_eq_nil in E as [-> ->]. rewrite IHmatches1, IHmatches2; auto.
    + rewrite IHmatches; auto.
    + rewrite IHmatches; auto using orb_true_r.
Qed.

Lemma deriv_sound (c : ascii) (r : regex) :
  forall s, matches (deriv c r) s -> matches r (c :: s).
Proof.
  induction r; simpl; intros s H.
  - inversion H.
  - inversion H.
  - destruct (b c) eqn:E; inversion H; subst. auto with re.
  - destruct (nullable r1) eqn:N.
    + inversion H; subst.
      * match goal with M : matches (Cat _ _) _ |- _ => inversion M; subst end.
        change (c :: s1 ++ s2) with ((c :: s1) ++ s2). auto with re.
      * change (c :: s) with ([] ++ c :: s).
        constructor; [now apply nullable_iff | auto].
    + inversion H; subst.
      change (c :: s1 ++ s2) with ((c :: s1) ++ s2). auto with re.
  - inversion H; subst; auto with re.
  - inversion H; subst. auto with re.
Qed.

Lemma deriv_complete (r : regex) (cs : list ascii) :
  matches r cs -> forall c s, cs = c :: s -> matches (deriv c r) s.
Proof.
  induction 1; intros a t E; simpl; try discriminate.
  - injection E as -> <-. rewrite H. constructor.
  - destruct s1 as [|x s1]; simpl in E.
    + subst s2. apply nullable_iff in H. rewrite H.
      apply MAltR. now apply IHmatches2.
    + injection E as -> <-.
      assert (D : matches (Cat (deriv a r1) r2) (s1 ++ s2))
        by (constructor; [now apply IHmatches1 | assumption]).
      destruct (nullable r1); auto with re.
  - apply MAltL. now apply IHmatches.
  - apply MAltR. now apply IHmatches.
  - injection E as -> <-. constructor; [now apply IHmatches1 | assumption].
Qed.

Lemma deriv_iff (c : ascii) (r : regex) (s : list ascii) :
  matches (deriv c r) s <-> matches r (c :: s).
Proof.
  split; [apply deriv_sound | intro H; now apply (deriv_complete r (c :: s))].
Qed.

(** [match_here] finds exactly the prefixes in the language. *)
Lemma match_here_iff (s : list ascii) :
  forall r, match_here r s = true <-> exists p q, s = p ++ q /\ matches r p.
Proof.
  induction s as [|c s IH]; intro r; simpl.
  - rewrite orb_false_r, nullable_iff. split.
    + intro H. now exists [], [].
    + intros (p & q & E & H). symmetry in E.
      apply app_eq_nil in E as [-> _]. exact H.
  - rewrite orb_true_iff, nullable_iff, IH. split.
    + intros [H | (p & q & -> & H)].
      * now exists [], (c :: s).
      * exists (c :: p), q. split; [reflexivity | now apply deriv_iff].
    + intros (p & q & E & H). destruct p as [|x p]; [now left | right].
      simpl in E. injection E as <- ->.
      exists p, q. split; [reflexivity | now apply deriv_iff].
Qed.

(** [search_from] finds exactly the factors in the language. *)
Lemma search_from_iff (r : regex) (s : list ascii) :
  search_from r s = true <-> exists a p q, s = a ++ p ++ q /\ matches r p.
Proof.
  induction s as [|c s IH]; cbn [search_from].
  - rewrite orb_false_r, match_here_iff. split.
    + intros (p & q & E & H). now exists [], p, q.
    + intros (a & p & q & E & H). symmetry in E.
      apply app_eq_nil in E as [-> E]. now exists p, q.
  - rewrite orb_true_iff, match_here_iff, IH. split.
    + intros [(p & q & E & H) | (a & p & q & -> & H)].
      * now exists [], p, q.
      * now exists (c :: a), p, q.
    + intros (a & p & q & E & H). destruct a as [|x a].
      * left. now exists p, q.
      * right. simpl in E. injection E as <- ->. now exists a, p, q.
Qed.

(** A rule whose language contains another's matches wherever the other
    does. *)
Lemma search_from_incl (r1 r2 : regex) (s : list ascii) :
  (forall t, matches r1 t -> matches r2 t) ->
  search_from r1 s = true -> search_from r2 s = true.
Proof.
  intros I H. apply search_from_iff in H as (a & p & q & E & M).
  apply search_from_iff. exists a, p, q. auto.
Qed.

Lemma matches_sym_inv (f : ascii -> bool) (s : list ascii) :
  matches (Sym f) s -> exists c, s = [c] /\ f c = true.
Proof. inversion 1; subst; eauto. Qed.

Lemma matches_cat_inv (r1 r2 : regex) (s : list ascii) :
  matches (Cat r1 r2) s -> exists s1 s2, s = s1 ++ s2 /\ matches r1 s1 /\ matches r2 s2.
Proof. inversion 1; subst; eauto. Qed.

Lemma matches_star_sym (f : ascii -> bool) (s : list ascii) :
  matches (Star (Sym f)) s <-> forallb f s = true.
Proof.
  split.
  - intro H. remember (Star (Sym f)) as r eqn:E. revert E.
    induction H; intro E; try discriminate; [reflexivity|].
    injection E as ->. inversion H; subst. simpl.
    rewrite IHmatches2 by reflexivity.
    match goal with F : f _ = true |- _ => now rewrite F end.
  - induction s as [|c s IH]; simpl; intro H; [constructor|].
    apply andb_true_iff in H as [H1 H2].
    apply (MStarCons (Sym f) c [] s); [now constructor | auto].
Qed.

Lemma matches_plus_sym (f : ascii -> bool) (s : list ascii) :
  matches (plus (Sym f)) s <-> s <> [] /\ forallb f s = true.
Proof.
  unfold plus. split.
  - intro H. apply matches_cat_inv in H as (s1 & s2 & -> & H1 & H2).
    apply matches_sym_inv in H1 as (c & -> & F).
    apply matches_star_sym in H2. simpl. rewrite F, H2. split; [discriminate | reflexivity].
  - intros [N H]. destruct s as [|c s]; [contradiction|].
    simpl in H. apply andb_true_iff in H as [H1 H2].
    change (c :: s) with ([c] ++ s).
    constructor; [now constructor | now apply matches_star_sym].
Qed.

End ReFacts.

(* ================================================================= *)
(** ** Rounding to binary64 *)

Module Binary64Facts.
Import Binary64.

Lemma round_half_even_comp (x y : Q) : (x == y)%Q -> round_half_even x = round_half_even y.
Proof.
  intro E. unfold round_half_even.
  assert (F : Qfloor x = Qfloor y) by now rewrite E.
  rewrite F.
  assert (C : (x - inject_Z (Qfloor y) ?= 1 # 2)%Q = (y - inject_Z (Qfloor y) ?= 1 # 2)%Q)
    by now rewrite E.
  now rewrite C.
Qed.

(** The rounding on a quotient of integers. *)
Lemma round_half_even_quotient (n : Z) (d : positive) :
  round_half_even (n # d)
  = match (2 * (n mod Zpos d) ?= Zpos d)%Z with
    | Lt => (n / Zpos d)%Z
    | Gt => (n / Zpos d + 1)%Z
    | Eq => if Z.even (n / Zpos d) then (n / Zpos d)%Z else (n / Zpos d + 1)%Z
    end.
Proof.
  unfold round_half_even. cbn [Qfloor].
  replace ((n # d) - inject_Z (n / Zpos d) ?= 1 # 2)%Q
    with (2 * (n mod Zpos d) ?= Zpos d)%Z; [reflexivity|].
  unfold Qcompare, Qminus, Qplus, Qopp, inject_Z. cbn [Qnum Qden].
  rewrite Z.mod_eq by discriminate. f_equal; lia.
Qed.

Lemma round_half_even_int (m : Z) : round_half_even (m # 1) = m.
Proof.
  rewrite round_half_even_quotient, Z.mod_1_r, Z.div_1_r. reflexivity.
Qed.

(** The rounding of a quotient between 0 and an integer stays there. *)
Lemma round_quotient_bounds (n M : Z) (d : positive) :
  0 <= n -> n <= M * Zpos d -> 0 <= round_half_even (n # d) <= M.
Proof.
  intros N B. rewrite round_half_even_quotient.
  pose proof (Z.div_mod n (Zpos d)) as E.
  pose proof (Z.mod_pos_bound n (Zpos d)) as R.
  assert (P : 0 < Zpos d) by lia. specialize (R P).
  assert (Q0 : 0 <= n / Zpos d) by (apply Z.div_pos; lia).
  assert (E' : n = Zpos d * (n / Zpos d) + n mod Zpos d) by (apply E; lia).
  destruct (Z.compare_spec (2 * (n mod Zpos d)) (Zpos d)) as [C | C | C];
    [destruct (Z.even (n / Zpos d))| |]; nia.
Qed.

Lemma Qred_inject_Z (n : Z) : Qred (inject_Z n) = inject_Z n.
Proof.
  unfold Qred, inject_Z.
  pose proof (Z.ggcd_gcd n 1) as G. pose proof (Z.ggcd_correct_divisors n 1) as D.
  destruct (Z.ggcd n 1) as [g [a b]]. cbn [fst snd] in *.
  rewrite Z.gcd_1_r in G. subst g. destruct D as [-> D].
  assert (b = 1) by lia. subst b. f_equal. lia.
Qed.

Lemma round64_comp (x y : Q) : (x == y)%Q -> round64 x = round64 y.
Proof. intro E. unfold round64. now rewrite (Qred_complete x y E). Qed.

(** Where [ilog2] is not negative it is below the logarithm. *)
Lemma ilog2_lower (n : Z) (d : positive) :
  0 < n -> 0 <= ilog2 n d -> Zpos d * 2 ^ ilog2 n d <= n.
Proof.
  intros N. unfold ilog2.
  set (k := Z.log2 n - Z.log2 (Zpos d)).
  destruct (0 <=? k) eqn:K.
  - destruct (Zpos d * 2 ^ k <=? n) eqn:T; intro H.
    + now apply Z.leb_le.
    + destruct (Z.log2_spec n N) as [Ln _].
      destruct (Z.log2_spec (Zpos d)) as [_ Ld]; [lia|].
      pose proof (Z.log2_nonneg (Zpos d)) as Dn.
      assert (E : 2 ^ Z.succ (Z.log2 (Zpos d)) * 2 ^ (k - 1) = 2 ^ Z.log2 n).
      { rewrite <- Z.pow_add_r by lia. f_equal. unfold k. lia. }
      assert (P : 0 < 2 ^ (k - 1)) by (apply Z.pow_pos_nonneg; lia).
      assert (Lt : Zpos d * 2 ^ (k - 1) < 2 ^ Z.succ (Z.log2 (Zpos d)) * 2 ^ (k - 1))
        by (apply Z.mul_lt_mono_pos_r; assumption).
      apply Z.lt_le_incl. eapply Z.lt_le_trans; [exact Lt|]. rewrite E. exact Ln.
  - apply Z.leb_gt in K.
    destruct (Zpos d <=? n * 2 ^ (- k)); intro H; lia.
Qed.

Lemma round_half_even_nonneg (n : Z) (d : positive) :
  0 <= n -> 0 <= round_half_even (n # d).
Proof.
  intro N. rewrite round_half_even_quotient.
  assert (Q0 : 0 <= n / Zpos d) by (apply Z.div_pos; lia).
  destruct (2 * (n mod Zpos d) ?= Zpos d); [destruct (Z.even (n / Zpos d))| |]; lia.
Qed.

Lemma round_pos_nonneg (n : Z) (d : positive) : 0 < n -> (0 <= round_pos n d)%Q.
Proof.
  intro N. unfold round_pos.
  destruct (0 <=? ilog2 n d - 52) eqn:E.
  - apply Z.leb_le in E.
    pose proof (round_half_even_nonneg n (d * Z.to_pos (2 ^ (ilog2 n d - 52)))) as L.
    assert (P : 0 < 2 ^ (ilog2 n d - 52)) by (apply Z.pow_pos_nonneg; lia).
    unfold Qle, inject_Z. cbn [Qnum Qden]. nia.
  - apply Z.leb_gt in E.
    assert (P : 0 < 2 ^ (- (ilog2 n d - 52))) by (apply Z.pow_pos_nonneg; lia).
    pose proof (round_half_even_nonneg (n * 2 ^ (- (ilog2 n d - 52))) d) as L.
    unfold Qle. cbn [Qnum Qden]. nia.
Qed.

(** A quotient between 0 and an integer below 2^52 is rounded to a
    number between them: the integer is a binary64 number. *)
Lemma round_pos_bounds (n M : Z) (d : positive) :
  0 < n -> 0 < M < 2 ^ 52 -> n <= M * Zpos d ->
  (round_pos n d <= inject_Z M)%Q.
Proof.
  intros N [M0 M1] B. unfold round_pos.
  destruct (0 <=? ilog2 n d - 52) eqn:E.
  - exfalso. apply Z.leb_le in E.
    assert (I : 0 <= ilog2 n d) by lia.
    pose proof (ilog2_lower n d N I) as L.
    assert (P : 2 ^ 52 <= 2 ^ ilog2 n d) by (apply Z.pow_le_mono_r; lia).
    nia.
  - apply Z.leb_gt in E.
    assert (P : 0 < 2 ^ (- (ilog2 n d - 52))) by (apply Z.pow_pos_nonneg; lia).
    destruct (round_quotient_bounds (n * 2 ^ (- (ilog2 n d - 52)))
                (M * 2 ^ (- (ilog2 n d - 52))) d) as [_ U]; [nia | nia |].
    unfold Qle, inject_Z. cbn [Qnum Qden]. rewrite Z2Pos.id by exact P. lia.
Qed.

Lemma Qred_num_sign (q : Q) : (0 <= q)%Q -> 0 <= Qnum (Qred q).
Proof.
  intro H. pose proof (Qred_correct q) as C.
  assert (L : (0 <= Qred q)%Q) by now rewrite C.
  unfold Qle in L. cbn [Qnum Qden] in L. lia.
Qed.

Lemma round64_nonneg (q : Q) : (0 <= q)%Q -> (0 <= round64 q)%Q.
Proof.
  intro H. pose proof (Qred_num_sign q H) as S. unfold round64.
  destruct (Qnum (Qred q)) as [|p|p] eqn:N; [discriminate | | lia].
  rewrite Qred_correct. now apply round_pos_nonneg.
Qed.

Lemma round64_bounds (q : Q) (M : Z) :
  0 < M < 2 ^ 52 -> (0 <= q)%Q -> (q <= inject_Z M)%Q -> (round64 q <= inject_Z M)%Q.
Proof.
  intros HM H0 H1. pose proof (Qred_num_sign q H0) as S.
  assert (L : (Qred q <= inject_Z M)%Q) by now rewrite Qred_correct.
  unfold round64.
  destruct (Qnum (Qred q)) as [|p|p] eqn:N; [|rewrite Qred_correct|lia].
  - unfold Qle, inject_Z. cbn [Qnum Qden]. lia.
  - apply round_pos_bounds; [lia | exact HM|].
    unfold Qle, inject_Z in L. cbn [Qnum Qden] in L. rewrite N in L. lia.
Qed.

(** The integers below 2^53 are binary64 numbers. *)
Lemma round_pos_int (n : Z) : 0 < n < 2 ^ 53 -> (round_pos n 1 == inject_Z n)%Q.
Proof.
  intros [N0 N1]. unfold round_pos, ilog2.
  change (Z.log2 1) with 0. rewrite Z.sub_0_r.
  pose proof (Z.log2_nonneg n) as L0. destruct (Z.log2_spec n N0) as [L1 _].
  assert (K : (0 <=? Z.log2 n) = true) by now apply Z.leb_le.
  rewrite K.
  assert (T : (1 * 2 ^ Z.log2 n <=? n) = true) by (apply Z.leb_le; lia).
  rewrite T.
  assert (L2 : Z.log2 n < 53) by (apply Z.log2_lt_pow2; lia).
  destruct (0 <=? Z.log2 n - 52) eqn:E.
  - apply Z.leb_le in E. replace (Z.log2 n - 52) with 0 by lia.
    change (2 ^ 0) with 1. change (1 * Z.to_pos 1)%positive with 1%positive.
    rewrite round_half_even_int, Z.mul_1_r. reflexivity.
  - apply Z.leb_gt in E.
    assert (P : 0 < 2 ^ (- (Z.log2 n - 52))) by (apply Z.pow_pos_nonneg; lia).
    rewrite round_half_even_int.
    unfold Qeq, inject_Z. cbn [Qnum Qden]. rewrite Z2Pos.id by exact P. lia.
Qed.

Lemma round64_int (n : Z) : 0 <= n < 2 ^ 53 -> round64 (inject_Z n) = inject_Z n.
Proof.
  intros [N0 N1]. unfold round64. rewrite Qred_inject_Z. cbn [Qnum Qden inject_Z].
  destruct n as [|p|p]; [reflexivity | | lia].
  rewrite (Qred_complete _ (inject_Z (Zpos p))) by (apply round_pos_int; lia).
  apply Qred_inject_Z.
Qed.

End Binary64Facts.

(* ================================================================= *)
(** ** The instruction classifier *)

Module InspectFacts.
Import Re ReFacts Inspect Binary64 Binary64Facts.

Local Open Scope string_scope.

(** *** Instruction lines *)

Lemma matches_colon (s : list ascii) : matches (lit ":") s <-> s = [":"%char].
Proof.
  simpl. unfold chr. split.
  - intro H. apply matches_sym_inv in H as (c & -> & E).
    apply Ascii.eqb_eq in E. now subst.
  - intros ->. now constructor.
Qed.

Lemma matches_insn_body (s : list ascii) :
  matches (body INSN_LINE) s <->
  exists w h, s = (w ++ h ++ [":"%char])%list /\
    w <> [] /\ forallb isspace w = true /\ h <> [] /\ forallb ishex h = true.
Proof.
  unfold INSN_LINE, ws, hex. cbn [body]. split.
  - intro H.
    apply matches_cat_inv in H as (wh & c & -> & H & Hc).
    apply matches_cat_inv in H as (w & h & -> & Hw & Hh).
    apply matches_plus_sym in Hw as [? ?], Hh as [? ?].
    apply matches_colon in Hc as ->.
    exists w, h. rewrite <- app_assoc. auto.
  - intros (w & h & -> & ? & ? & ? & ?). rewrite app_assoc.
    constructor; [constructor|]; try (apply matches_plus_sym; now split).
    now apply matches_colon.
Qed.

Lemma search_insn_unfold (line : string) :
  search INSN_LINE line = match_here (body INSN_LINE) (list_ascii_of_string line).
Proof. reflexivity. Qed.

Lemma search_any_unfold (line : string) :
  search ANY line = search_from dot (list_ascii_of_string line).
Proof. reflexivity. Qed.

(** The test of [count_instructions] holds of exactly these lines. *)
Lemma search_insn_iff (line : string) :
  search INSN_LINE line = true <-> begins_with_offset line.
Proof.
  rewrite search_insn_unfold. unfold begins_with_offset.
  rewrite match_here_iff. split.
  - intros (p & q & E & H). apply matches_insn_body in H as (w & h & -> & H).
    exists w, h, q. rewrite E, <- !app_assoc. now split.
  - intros (w & h & rest & E & H).
    exists (w ++ h ++ [":"%char])%list, rest. split.
    + rewrite E, <- !app_assoc. reflexivity.
    + apply matches_insn_body. now exists w, h.
Qed.

(** An instruction line is matched by [r"."]. *)
Lemma insn_line_any (line : string) :
  search INSN_LINE line = true -> search ANY line = true.
Proof.
  intro H. apply search_insn_iff in H as (w & h & rest & E & _).
  rewrite search_any_unfold, E.
  apply search_from_iff. exists (w ++ h)%list, [":"%char], rest. split.
  - now rewrite <- app_assoc.
  - now constructor.
Qed.

(** *** Counting *)

Lemma count_line_counted (pat : pattern) (count : Z) (line : string) :
  count_line pat count line = if counted pat line then (count + 1)%Z else count.
Proof.
  unfold count_line, counted.
  destruct (search INSN_LINE line), (search pat line); reflexivity.
Qed.

Lemma count_fold (pat : pattern) (lines : list string) :
  forall acc,
    fold_left (count_line pat) lines acc
    = (acc + Z.of_nat (List.length (filter (counted pat) lines)))%Z.
Proof.
  induction lines as [|l ls IH]; intro acc; simpl.
  - lia.
  - rewrite IH, count_line_counted. destruct (counted pat l); simpl List.length; lia.
Qed.

Lemma count_instructions_filter (disasm : string) (pat : pattern) :
  count_instructions disasm pat
  = Z.of_nat (List.length (filter (counted pat) (split_lines disasm))).
Proof. unfold count_instructions. now rewrite count_fold. Qed.

Lemma count_instructions_nonneg (disasm : string) (pat : pattern) :
  (0 <= count_instructions disasm pat)%Z.
Proof. rewrite count_instructions_filter. lia. Qed.

Lemma filter_length_le {A} (f g : A -> bool) (l : list A) :
  (forall x, f x = true -> g x = true) ->
  (List.length (filter f l) <= List.length (filter g l))%nat.
Proof.
  intro I. induction l as [|x l IH]; simpl; [lia|].
  destruct (f x) eqn:F.
  - rewrite (I x F). simpl. lia.
  - destruct (g x); simpl; lia.
Qed.

Lemma counted_any (pat : pattern) (line : string) :
  counted pat line = true -> counted ANY line = true.
Proof.
  unfold counted. intro H. apply andb_true_iff in H as [H _].
  rewrite H. now apply insn_line_any.
Qed.

Lemma count_le_total (disasm : string) (pat : pattern) :
  (count_instructions disasm pat <= count_instructions disasm ANY)%Z.
Proof.
  rewrite !count_instructions_filter. apply inj_le.
  apply filter_length_le. apply counted_any.
Qed.

(** The total is the number of instruction lines. *)
Lemma total_is_insn_lines (disasm : string) :
  count_instructions disasm ANY
  = Z.of_nat (List.length (filter (search INSN_LINE) (split_lines disasm))).
Proof.
  rewrite count_instructions_filter. do 2 f_equal.
  apply filter_ext. intro l. unfold counted.
  destruct (search INSN_LINE l) eqn:E; [|reflexivity].
  now rewrite (insn_line_any l E).
Qed.

Lemma count_no_insn (disasm : string) (pat : pattern) :
  (forall line, In line (split_lines disasm) -> ~ begins_with_offset line) ->
  count_instructions disasm pat = 0%Z.
Proof.
  intro H. rewrite count_instructions_filter.
  replace (filter (counted pat) (split_lines disasm)) with (@nil string); [reflexivity|].
  symmetry. induction (split_lines disasm) as [|l ls IH]; [reflexivity|].
  simpl. unfold counted at 1.
  destruct (search INSN_LINE l) eqn:E.
  - apply search_insn_iff in E. exfalso. apply (H l); [now left | assumption].
  - simpl. apply IH. intros line I. apply H. now right.
Qed.

(** *** Percentages *)

Lemma percentage_zero (total_insn : Z) : (percentage 0 total_insn == 0)%Q.
Proof.
  unfold percentage. destruct (total_insn >? 0)%Z; [|reflexivity].
  unfold fdiv, fmul, float_of_int.
  assert (Z0 : round64 (inject_Z 0) = inject_Z 0) by reflexivity.
  rewrite Z0.
  rewrite (round64_comp (inject_Z 0 * 100) (inject_Z 0)) by reflexivity.
  rewrite Z0.
  rewrite (round64_comp (inject_Z 0 / round64 (inject_Z total_insn)) (inject_Z 0)).
  - rewrite Z0. reflexivity.
  - unfold Qeq, Qdiv, Qmult. cbn [Qnum Qden inject_Z]. lia.
Qed.

Lemma percentage_nonneg (count total_insn : Z) :
  (0 <= count)%Z -> (0 <= percentage count total_insn)%Q.
Proof.
  intro H. unfold percentage.
  destruct (total_insn >? 0)%Z eqn:T; [|apply Qle_refl].
  apply Z.gtb_lt in T.
  unfold fdiv, fmul, float_of_int. apply round64_nonneg.
  unfold Qdiv. apply Qmult_le_0_compat.
  - apply round64_nonneg. apply Qmult_le_0_compat; [|discriminate].
    apply round64_nonneg. unfold Qle, inject_Z. cbn [Qnum Qden]. lia.
  - apply Qinv_le_0_compat. apply round64_nonneg.
    unfold Qle, inject_Z. cbn [Qnum Qden]. lia.
Qed.

(** Below 2^53 / 100 instructions the conversions and the product are
    exact, and the quotient is rounded once. *)
Lemma percentage_le_100 (count total_insn : Z) :
  (0 <= count <= total_insn)%Z -> (100 * total_insn < 2 ^ 53)%Z ->
  (percentage count total_insn <= 100)%Q.
Proof.
  intros [H0 H1] B. unfold percentage.
  destruct (total_insn >? 0)%Z eqn:T; [|discriminate].
  apply Z.gtb_lt in T.
  unfold fdiv, fmul, float_of_int.
  rewrite (round64_int count) by lia.
  rewrite (round64_comp (inject_Z count * 100) (inject_Z (100 * count)))
    by (unfold Qeq, Qmult, inject_Z; cbn [Qnum Qden]; lia).
  rewrite (round64_int (100 * count)) by lia.
  rewrite (round64_int total_insn) by lia.
  assert (P : (0 < inject_Z total_insn)%Q) by (unfold Qlt; simpl; lia).
  apply (round64_bounds _ 100).
  - split; reflexivity.
  - apply Qle_shift_div_l; [assumption|].
    unfold Qle, Qmult, inject_Z; cbn [Qnum Qden]; lia.
  - apply Qle_shift_div_r; [assumption|].
    unfold Qle, Qmult, inject_Z; cbn [Qnum Qden]; lia.
Qed.

(** *** Streams joined by newlines *)

Lemma split_lines_cons (s : string) : exists l ls, split_lines s = l :: ls.
Proof.
  induction s as [|c s (l & ls & E)]; simpl; [eauto|].
  destruct (Ascii.eqb c "010"); [eauto|]. rewrite E. eauto.
Qed.

Lemma split_lines_newline (d1 d2 : string) :
  split_lines (d1 ++ String "010" d2) = (split_lines d1 ++ split_lines d2)%list.
Proof.
  induction d1 as [|c d1 IH]; [reflexivity|].
  cbn [append split_lines]. rewrite IH.
  destruct (Ascii.eqb c "010"); [reflexivity|].
  destruct (split_lines_cons d1) as (l & ls & E). rewrite E. reflexivity.
Qed.

Lemma count_instructions_newline (d1 d2 : string) (pat : pattern) :
  count_instructions (d1 ++ String "010" d2) pat
  = (count_instructions d1 pat + count_instructions d2 pat)%Z.
Proof.
  rewrite !count_instructions_filter, split_lines_newline.
  rewrite filter_app, length_app. lia.
Qed.

Lemma count_repeat_line (line : string) (pat : pattern) (n : positive) :
  count_instructions (repeat_line line n) pat
  = (Zpos n * count_instructions line pat)%Z.
Proof.
  unfold repeat_line. induction n as [|n IH] using Pos.peano_ind.
  - cbn [Pos.iter]. rewrite count_instructions_newline.
    change (count_instructions "" pat) with 0%Z. lia.
  - rewrite Pos.iter_succ, count_instructions_newline, IH. lia.
Qed.


(** *** Ordered dictionaries *)

Lemma nodupb_NoDup (l : list string) : nodupb l = true -> NoDup l.
Proof.
  induction l as [|x l IH]; simpl; intro H; constructor.
  - apply andb_true_iff in H as [H _]. apply negb_true_iff in H.
    intro I. apply not_true_iff_false in H. apply H.
    apply existsb_exists. exists x. split; [assumption | apply String.eqb_refl].
  - apply IH. now apply andb_true_iff in H as [_ H].
Qed.

Lemma od_set_fresh (k : string) (v : value) (d : odict) :
  ~ In k (od_keys d) -> od_set k v d = (d ++ [(k, v)])%list.
Proof.
  induction d as [|[k' v'] d IH]; simpl; intro N; [reflexivity|].
  destruct (String.eqb_spec k' k) as [->|_]; [tauto|].
  rewrite IH; [reflexivity | tauto].
Qed.

Lemma od_update_fresh (other : odict) :
  forall d, NoDup (od_keys d ++ od_keys other) -> od_update d other = (d ++ other)%list.
Proof.
  unfold od_update.
  induction other as [|[k v] other IH]; intros d N; simpl.
  - now rewrite app_nil_r.
  - assert (F : ~ In k (od_keys d)).
    { intro I. apply NoDup_remove_2 in N. apply N. apply in_or_app. now left. }
    rewrite (od_set_fresh k v d F), IH.
    + now rewrite <- app_assoc.
    + unfold od_keys in *. rewrite map_app, <- app_assoc. exact N.
Qed.

Lemma od_get_In (k : string) (v : value) (d : odict) :
  NoDup (od_keys d) -> In (k, v) d -> od_get k d = Some v.
Proof.
  induction d as [|[k' v'] d IH]; simpl; intros N I; [contradiction|].
  inversion N as [|? ? N1 N2]; subst.
  destruct I as [E | I].
  - injection E as -> ->. now rewrite String.eqb_refl.
  - destruct (String.eqb_spec k' k) as [->|_]; [|auto].
    exfalso. apply N1. unfold od_keys. now apply (in_map fst _ (k, v)).
Qed.

(** *** The loop of [inspect] *)

Lemma inspect_step_hit (disasm : string) (total_insn : Z) (st : loop_state)
  (item : string * pattern) :
  inspect_step disasm total_insn st item
  = LoopState
      (detected st ++ (if hit disasm item then [fst item] else []))%list
      (undetected st ++ (if hit disasm item then [] else [fst item]))%list
      (od_update (extension_results st) (ext_entries disasm total_insn item)).
Proof.
  destruct item as [n p]. unfold inspect_step, hit, od_update, ext_entries. simpl.
  destruct (count_instructions disasm p >? 0)%Z; now rewrite app_nil_r.
Qed.

Lemma od_update_app (d e1 e2 : odict) :
  od_update (od_update d e1) e2 = od_update d (e1 ++ e2)%list.
Proof. unfold od_update. now rewrite fold_left_app. Qed.

Lemma inspect_loop_from (disasm : string) (total_insn : Z) (rules : list (string * pattern)) :
  forall st,
    fold_left (inspect_step disasm total_insn) rules st
    = LoopState
        (detected st ++ map fst (filter (hit disasm) rules))%list
        (undetected st ++ map fst (filter (fun i => negb (hit disasm i)) rules))%list
        (od_update (extension_results st) (flat_map (ext_entries disasm total_insn) rules)).
Proof.
  induction rules as [|item rules IH]; intro st.
  - destruct st. simpl. now rewrite !app_nil_r.
  - cbn [fold_left filter flat_map]. rewrite IH, inspect_step_hit.
    cbn [detected undetected extension_results]. rewrite od_update_app.
    destruct (hit disasm item); cbn [negb map]; now rewrite <- !app_assoc, ?app_nil_r.
Qed.

Lemma inspect_loop_spec (disasm : string) (total_insn : Z) :
  inspect_loop disasm total_insn
  = LoopState
      (map fst (filter (hit disasm) INSPECT_ARRAY))
      (map fst (filter (fun i => negb (hit disasm i)) INSPECT_ARRAY))
      (od_update [] (flat_map (ext_entries disasm total_insn) INSPECT_ARRAY)).
Proof. unfold inspect_loop. now rewrite inspect_loop_from. Qed.

Lemma ext_entries_keys (disasm : string) (total_insn : Z) (rules : list (string * pattern)) :
  od_keys (flat_map (ext_entries disasm total_insn) rules)
  = flat_map ext_keys (map fst rules).
Proof.
  unfold od_keys. induction rules as [|[n p] rules IH]; simpl; [reflexivity|].
  now rewrite IH.
Qed.

Lemma report_keys_nodup : NoDup REPORT_KEYS.
Proof. apply nodupb_NoDup. vm_compute. reflexivity. Qed.

Lemma names_nodup : NoDup (map fst INSPECT_ARRAY).
Proof. apply nodupb_NoDup. vm_compute. reflexivity. Qed.

(** The report is the fixed entries followed by two entries per
    category, in the order of [INSPECT_ARRAY]. *)
Lemma inspect_entries (binary_name : string) (parsed_info : file_info) (size_mb : Q)
  (disasm : string) :
  let total_insn := count_instructions disasm ANY in
  inspect binary_name parsed_info size_mb disasm
  = (fixed_entries binary_name parsed_info size_mb (inspect_loop disasm total_insn) total_insn
     ++ flat_map (ext_entries disasm total_insn) INSPECT_ARRAY)%list.
Proof.
  intro total_insn.
  set (E := flat_map (ext_entries disasm total_insn) INSPECT_ARRAY).
  assert (KE : od_keys E = flat_map ext_keys (map fst INSPECT_ARRAY))
    by apply ext_entries_keys.
  assert (R : extension_results (inspect_loop disasm total_insn) = E).
  { rewrite inspect_loop_spec. cbn [extension_results].
    apply (od_update_fresh E []). cbn [od_keys map app]. fold (od_keys E). rewrite KE.
    assert (N := report_keys_nodup). unfold REPORT_KEYS in N.
    now apply NoDup_app_remove_l in N. }
  set (F := fixed_entries binary_name parsed_info size_mb
              (inspect_loop disasm total_insn) total_insn).
  assert (U : inspect binary_name parsed_info size_mb disasm
              = od_update (od_update [] F)
                  (extension_results (inspect_loop disasm total_insn)))
    by reflexivity.
  rewrite U, R.
  assert (NF : NoDup (od_keys F ++ od_keys E)).
  { rewrite KE. exact report_keys_nodup. }
  rewrite (od_update_fresh F []).
  - now apply od_update_fresh.
  - apply NoDup_app_remove_r in NF. exact NF.
Qed.

Lemma inspect_keys (binary_name : string) (parsed_info : file_info) (size_mb : Q)
  (disasm : string) :
  od_keys (inspect binary_name parsed_info size_mb disasm) = REPORT_KEYS.
Proof.
  rewrite inspect_entries. unfold od_keys at 1. rewrite map_app.
  fold (od_keys (flat_map (ext_entries disasm (count_instructions disasm ANY)) INSPECT_ARRAY)).
  now rewrite ext_entries_keys.
Qed.


Lemma nodup_fst_functional {A B} (l : list (A * B)) (a : A) (b1 b2 : B) :
  NoDup (map fst l) -> In (a, b1) l -> In (a, b2) l -> b1 = b2.
Proof.
  induction l as [|[x y] l IH]; simpl; intros N I1 I2; [contradiction|].
  inversion N as [|? ? N1 N2]; subst.
  destruct I1 as [E1 | I1], I2 as [E2 | I2].
  - congruence.
  - injection E1 as -> ->. exfalso. apply N1. now apply (in_map fst _ (a, b2)).
  - injection E2 as -> ->. exfalso. apply N1. now apply (in_map fst _ (a, b1)).
  - auto.
Qed.

Lemma in_ext_entries (disasm : string) (total_insn : Z) (item : string * pattern)
  (rules : list (string * pattern)) (kv : string * value) :
  In item rules -> In kv (ext_entries disasm total_insn item) ->
  In kv (flat_map (ext_entries disasm total_insn) rules).
Proof. intros I K. apply in_flat_map. now exists item. Qed.

Lemma split_disjoint {B} (f : string * B -> bool) (rules : list (string * B)) (n : string) :
  NoDup (map fst rules) ->
  ~ (In n (map fst (filter f rules)) /\ In n (map fst (filter (fun i => negb (f i)) rules))).
Proof.
  intros N [D U].
  apply in_map_iff in D as ([n1 p1] & E1 & F1), U as ([n2 p2] & E2 & F2).
  apply filter_In in F1 as [I1 H1], F2 as [I2 H2]. simpl in E1, E2. subst n1 n2.
  assert (p1 = p2) by (apply (nodup_fst_functional rules n); assumption).
  subst p2. rewrite H1 in H2. discriminate.
Qed.

Lemma split_cover {B} (f : string * B -> bool) (rules : list (string * B)) (n : string) :
  In n (map fst (filter f rules)) \/ In n (map fst (filter (fun i => negb (f i)) rules))
  <-> In n (map fst rules).
Proof.
  split.
  - intros [D | U]; [apply in_map_iff in D as (i & E & F) | apply in_map_iff in U as (i & E & F)];
      apply filter_In in F as [I _]; subst n; now apply in_map.
  - intro I. apply in_map_iff in I as (i & E & I). subst n.
    destruct (f i) eqn:H; [left | right]; apply in_map, filter_In;
      (split; [assumption | now rewrite H]).
Qed.

(** What the report holds for a category. *)
Lemma inspect_category (binary_name : string) (parsed_info : file_info) (size_mb : Q)
  (disasm : string) (item : string * pattern) :
  In item INSPECT_ARRAY ->
  let total_insn := count_instructions disasm ANY in
  let count := count_instructions disasm (snd item) in
  let report := inspect binary_name parsed_info size_mb disasm in
  od_get (fst item ++ "_instructions") report = Some (VInt count) /\
  od_get (fst item ++ "_instructions_percentage") report
  = Some (VFloat (percentage count total_insn)).
Proof.
  intros I total_insn count report.
  assert (N : NoDup (od_keys report))
    by (unfold report; rewrite inspect_keys; exact report_keys_nodup).
  split; apply od_get_In; try assumption;
    unfold report; rewrite inspect_entries; apply in_or_app; right;
    apply (in_ext_entries _ _ item); try assumption; simpl; auto.
Qed.

(** What the report holds under three of the fixed keys. *)
Lemma fixed_entries_lists (binary_name : string) (parsed_info : file_info) (size_mb : Q)
  (st : loop_state) (total_insn : Z) :
  let F := fixed_entries binary_name parsed_info size_mb st total_insn in
  In ("detected_extensions", VStr (join_or_none (detected st))) F /\
  In ("undetected_extensions", VStr (join_or_none (undetected st))) F /\
  In ("total_instructions", VInt total_insn) F.
Proof. unfold fixed_entries. simpl. tauto. Qed.

Lemma inspect_fixed (binary_name : string) (parsed_info : file_info) (size_mb : Q)
  (disasm : string) (k : string) (v : value) :
  In (k, v) (fixed_entries binary_name parsed_info size_mb
               (inspect_loop disasm (count_instructions disasm ANY))
               (count_instructions disasm ANY)) ->
  od_get k (inspect binary_name parsed_info size_mb disasm) = Some v.
Proof.
  intro I. apply od_get_In.
  - rewrite inspect_keys. exact report_keys_nodup.
  - rewrite inspect_entries. apply in_or_app. now left.
Qed.

Lemma inspect_lists (binary_name : string) (parsed_info : file_info) (size_mb : Q)
  (disasm : string) :
  let total_insn := count_instructions disasm ANY in
  let st := inspect_loop disasm total_insn in
  let report := inspect binary_name parsed_info size_mb disasm in
  od_get "detected_extensions" report = Some (VStr (join_or_none (detected st))) /\
  od_get "undetected_extensions" report = Some (VStr (join_or_none (undetected st))) /\
  od_get "total_instructions" report = Some (VInt total_insn).
Proof.
  intros total_insn st report.
  destruct (fixed_entries_lists binary_name parsed_info size_mb st total_insn)
    as (D & U & T).
  repeat split; apply inspect_fixed; assumption.
Qed.

Lemma no_insn_lines (lines : list string) :
  forallb (fun l => negb (search INSN_LINE l)) lines = true ->
  forall line, In line lines -> ~ begins_with_offset line.
Proof.
  intros H line I B. apply search_insn_iff in B.
  rewrite forallb_forall in H. specialize (H line I).
  rewrite B in H. discriminate.
Qed.

(** *** The address field *)

Lemma zone_eqb_eq (i j : zone) : zone_eqb i j = true <-> i = j.
Proof. destruct i, j; simpl; split; intro H; try reflexivity; discriminate. Qed.

Lemma in_zones (k : zone) : In k zones.
Proof. destruct k; simpl; tauto. Qed.

Lemma addr_chars_complete (c : ascii) :
  isspace c || ishex c || Ascii.eqb c ":" = true ->
  existsb (Ascii.eqb c) addr_chars = true.
Proof. destruct c as [[] [] [] [] [] [] [] []]; vm_compute; exact (fun H => H). Qed.

Lemma zone_step_chars (i j : zone) (c : ascii) :
  zone_step i c = Some j -> i <> Rest -> In c addr_chars.
Proof.
  intros S N.
  assert (E : existsb (Ascii.eqb c) addr_chars = true).
  { apply addr_chars_complete. destruct i; simpl in S; [| |contradiction].
    - destruct (isspace c); [reflexivity|]. destruct (ishex c); [reflexivity | discriminate].
    - destruct (ishex c); [apply orb_true_iff; left; apply orb_true_r|].
      destruct (Ascii.eqb c ":"); [apply orb_true_r | discriminate]. }
  apply existsb_exists in E as (x & I & E). apply Ascii.eqb_eq in E. now subst x.
Qed.

Lemma zone_step_mono (i j : zone) (c : ascii) :
  zone_step i c = Some j -> zone_leb i j = true.
Proof.
  destruct i; simpl.
  - intros _. reflexivity.
  - destruct (ishex c); [intro H; injection H as <-; reflexivity|].
    destruct (Ascii.eqb c ":"); [intro H; injection H as <-; reflexivity | discriminate].
  - intro H; injection H as <-; reflexivity.
Qed.

Lemma zone_leb_trans (i j k : zone) :
  zone_leb i j = true -> zone_leb j k = true -> zone_leb i k = true.
Proof. destruct i, j, k; simpl; auto. Qed.

Lemma zone_run_mono (t : list ascii) :
  forall i j, zone_run i t = Some j -> zone_leb i j = true.
Proof.
  induction t as [|c t IH]; simpl; intros i j H.
  - injection H as <-. now destruct i.
  - destruct (zone_step i c) as [k|] eqn:E; [|discriminate].
    apply (zone_leb_trans i k j); [now apply (zone_step_mono i k c) | now apply IH].
Qed.

Lemma zone_run_app (t1 t2 : list ascii) :
  forall i j, zone_run i (t1 ++ t2) = Some j <->
              exists k, zone_run i t1 = Some k /\ zone_run k t2 = Some j.
Proof.
  induction t1 as [|c t1 IH]; simpl; intros i j.
  - split; [intro H; now exists i | intros (k & E & H); now injection E as ->].
  - destruct (zone_step i c) as [k|]; [apply IH|].
    split; [discriminate | intros (k & E & _); discriminate].
Qed.

(** [reach] covers the words of the pattern. *)
Lemma reach_sound (r : regex) (t : list ascii) :
  matches r t -> forall i j, zone_run i t = Some j -> reach r i j = true.
Proof.
  induction 1; intros i j R; cbn [reach].
  - simpl in R. injection R as <-. now apply zone_eqb_eq.
  - simpl in R. destruct (zone_step i c) as [k|] eqn:S; [|discriminate].
    injection R as <-. apply orb_true_iff.
    destruct i; [right | right | left; simpl in S; injection S as <-; reflexivity];
      (apply existsb_exists; exists c;
       split; [apply (zone_step_chars _ k c S); discriminate|];
       rewrite H; unfold goes; rewrite S; now apply zone_eqb_eq).
  - apply zone_run_app in R as (k & R1 & R2).
    apply existsb_exists. exists k. split; [apply in_zones|].
    now rewrite (IHmatches1 i k R1), (IHmatches2 k j R2).
  - now rewrite (IHmatches i j R).
  - rewrite (IHmatches i j R). apply orb_true_r.
  - simpl in R. injection R as <-. now destruct i.
  - now apply (zone_run_mono (c :: s1 ++ s2)).
Qed.

Lemma hex_not_space (c : ascii) : ishex c = true -> isspace c = false.
Proof.
  destruct c as [[] [] [] [] [] [] [] []]; vm_compute; intro H;
    try reflexivity; discriminate.
Qed.

Lemma run_spaces (w : list ascii) :
  forallb isspace w = true -> zone_run Lead w = Some Lead.
Proof.
  induction w as [|c w IH]; simpl; [reflexivity|].
  intro H. apply andb_true_iff in H as [H1 H2]. rewrite H1. now apply IH.
Qed.

Lemma run_hexes (h : list ascii) :
  forallb ishex h = true -> zone_run Addr h = Some Addr.
Proof.
  induction h as [|c h IH]; simpl; [reflexivity|].
  intro H. apply andb_true_iff in H as [H1 H2]. rewrite H1. now apply IH.
Qed.

Lemma run_address (w h : list ascii) :
  forallb isspace w = true -> h <> [] -> forallb ishex h = true ->
  zone_run Lead (w ++ h) = Some Addr.
Proof.
  intros W N H. apply zone_run_app. exists Lead. split; [now apply run_spaces|].
  destruct h as [|c h]; [contradiction|]. simpl in *.
  apply andb_true_iff in H as [H1 H2].
  rewrite (hex_not_space c H1), H1. now apply run_hexes.
Qed.

Lemma run_rest (rest : list ascii) : zone_run Addr (":"%char :: rest) = Some Rest.
Proof.
  change (zone_run Addr (":"%char :: rest)) with (zone_run Rest rest).
  induction rest as [|c rest IH]; [reflexivity | exact IH].
Qed.

Lemma run_lead_spaces (t : list ascii) :
  zone_run Lead t = Some Lead -> forallb isspace t = true.
Proof.
  induction t as [|c t IH]; simpl; [reflexivity|].
  destruct (isspace c); [exact IH|].
  destruct (ishex c); [|discriminate].
  intro H. apply zone_run_mono in H. discriminate.
Qed.

Lemma search_from_nullable (r : regex) (s : list ascii) :
  nullable r = true -> search_from r s = true.
Proof. intro N. destruct s; simpl; now rewrite N. Qed.

(** A match in one line is a match in the other. *)
Lemma addr_blind_transfer (r : regex) (w h1 h2 rest : list ascii) :
  nullable r = false -> addr_blind r = true ->
  forallb isspace w = true ->
  h1 <> [] -> forallb ishex h1 = true ->
  h2 <> [] -> forallb ishex h2 = true ->
  search_from r (w ++ h1 ++ ":"%char :: rest) = true ->
  search_from r (w ++ h2 ++ ":"%char :: rest) = true.
Proof.
  intros NN B W N1 H1 N2 H2 S.
  unfold addr_blind in B. rewrite NN in B. cbn [orb] in B.
  apply negb_true_iff in B.
  apply orb_false_iff in B as [B B4]. apply orb_false_iff in B as [B B3].
  apply orb_false_iff in B as [B1 B2].
  apply search_from_iff in S as (a & p & q & E & M).
  apply search_from_iff.
  assert (RL : zone_run Lead (w ++ h1 ++ ":"%char :: rest) = Some Rest).
  { rewrite app_assoc. apply zone_run_app. exists Addr.
    split; [now apply run_address | apply run_rest]. }
  rewrite E in RL. apply zone_run_app in RL as (i & Ra & RL).
  apply zone_run_app in RL as (j & Rp & Rq).
  pose proof (reach_sound r p M i j Rp) as RR.
  pose proof (zone_run_mono p i j Rp) as Mij.
  destruct i, j; try discriminate Mij; try congruence.
  - (* the match lies in the leading whitespace *)
    assert (Sp : forallb isspace (a ++ p) = true).
    { apply run_lead_spaces. apply zone_run_app. now exists Lead. }
    assert (E' : ((a ++ p) ++ q = w ++ (h1 ++ ":"%char :: rest))%list)
      by (rewrite <- app_assoc; now symmetry).
    apply app_eq_app in E' as (l & [[E1 E2] | [E1 E2]]).
    + destruct l as [|c l].
      * rewrite app_nil_r in E1.
        exists a, p, (h2 ++ ":"%char :: rest)%list.
        split; [|assumption]. rewrite <- E1, <- app_assoc. reflexivity.
      * exfalso. destruct h1 as [|x h1]; [contradiction|].
        simpl in E2. injection E2 as -> E2. simpl in H1.
        apply andb_true_iff in H1 as [H1 _]. apply hex_not_space in H1.
        rewrite E1, forallb_app in Sp. apply andb_true_iff in Sp as [_ Sp].
        simpl in Sp. rewrite H1 in Sp. discriminate.
    + exists a, p, (l ++ h2 ++ ":"%char :: rest)%list.
      split; [|assumption]. rewrite E1, <- !app_assoc. reflexivity.
  - (* the match lies after the colon *)
    assert (E' : (a ++ (p ++ q) = (w ++ h1) ++ (":"%char :: rest))%list)
      by (rewrite <- app_assoc; now symmetry).
    apply app_eq_app in E' as (l & [[E1 E2] | [E1 E2]]).
    + destruct l as [|c l].
      * exfalso. rewrite app_nil_r in E1. subst a.
        rewrite run_address in Ra by assumption. discriminate.
      * simpl in E2. injection E2 as <- E2.
        exists ((w ++ h2) ++ ":"%char :: l)%list, p, q.
        split; [|assumption]. rewrite E2, <- !app_assoc. reflexivity.
    + exfalso.
      assert (RA : zone_run Lead (a ++ l) = Some Addr)
        by (rewrite <- E1; now apply run_address).
      apply zone_run_app in RA as (k & RA1 & RA2).
      rewrite Ra in RA1. injection RA1 as <-.
      apply zone_run_mono in RA2. discriminate.
Qed.

Lemma addr_blind_search (p : pattern) (line1 line2 : string) :
  anchored p = false -> addr_blind (body p) = true ->
  same_but_address line1 line2 ->
  search p line1 = search p line2.
Proof.
  intros A B (w & h1 & h2 & rest & E1 & E2 & W & N1 & H1 & N2 & H2).
  unfold search. rewrite A, E1, E2.
  destruct (nullable (body p)) eqn:NN.
  - now rewrite !search_from_nullable.
  - apply eq_true_iff_eq. split; intro S.
    + now apply (addr_blind_transfer (body p) w h1 h2 rest).
    + now apply (addr_blind_transfer (body p) w h2 h1 rest).
Qed.

(** All rules but those of "asimd" and "fcma" give the same answer on two
    lines that differ only in the address. *)
Lemma other_rules_ignore_the_address :
  Forall (fun item =>
            fst item = "asimd" \/ fst item = "fcma" \/
            forall line1 line2,
              same_but_address line1 line2 ->
              search (snd item) line1 = search (snd item) line2)
         INSPECT_ARRAY.
Proof.
  assert (C : forallb (fun item =>
                         String.eqb (fst item) "asimd" || String.eqb (fst item) "fcma" ||
                         negb (anchored (snd item)) && addr_blind (body (snd item)))
                INSPECT_ARRAY = true) by (vm_compute; reflexivity).
  rewrite forallb_forall in C. apply Forall_forall. intros item I.
  specialize (C item I).
  apply orb_true_iff in C as [C | C]; [apply orb_true_iff in C as [C | C]|].
  - left. now apply String.eqb_eq.
  - right. left. now apply String.eqb_eq.
  - right. right. apply andb_true_iff in C as [A B]. apply negb_true_iff in A.
    intros line1 line2 S. now apply addr_blind_search.
Qed.

(** *** The properties of the classifier *)

Local Open Scope Z_scope.

(** C2, at the input where the code departs from it.  The lines
    ["  fadd00: nop"] and ["  401000: nop"] differ only in the hexadecimal
    address before the colon, yet the rule of "asimd" matches the first
    through its address and not the second, and so does the rule of
    "fcma" on ["  fcadd0: nop"]: [count_instructions] applies a rule to
    the whole line, and the whitespace before the address is a place
    where the leading [\s] of a rule matches.  The other rules are not
    affected ([other_rules_ignore_the_address]). *)
Theorem address_field_reaches_the_rules :
  exists asimd fcma,
    In ("asimd", asimd) INSPECT_ARRAY /\ In ("fcma", fcma) INSPECT_ARRAY /\
    same_but_address "  fadd00: nop" "  401000: nop" /\
    same_but_address "  fcadd0: nop" "  401000: nop" /\
    search asimd "  fadd00: nop" = true /\ search asimd "  401000: nop" = false /\
    count_instructions "  fadd00: nop" asimd = 1 /\
    count_instructions "  401000: nop" asimd = 0 /\
    count_instructions "  fcadd0: nop" fcma = 1 /\
    count_instructions "  401000: nop" fcma = 0.
Proof.
  do 2 eexists. split; [|split; [|split; [|split]]].
  - left. reflexivity.
  - do 18 right. left. reflexivity.
  - exists (list_ascii_of_string "  "), (list_ascii_of_string "fadd00"),
      (list_ascii_of_string "401000"), (list_ascii_of_string " nop").
    repeat split; try reflexivity; discriminate.
  - exists (list_ascii_of_string "  "), (list_ascii_of_string "fcadd0"),
      (list_ascii_of_string "401000"), (list_ascii_of_string " nop").
    repeat split; try reflexivity; discriminate.
  - vm_compute. repeat split.
Qed.

(** *** The lists of the report, read back *)

Lemma split_semicolons_plain (s : string) :
  forallb (fun c => negb (Ascii.eqb c ";")) (list_ascii_of_string s) = true ->
  split_semicolons s = [s].
Proof.
  induction s as [|c s IH]; [reflexivity|]. simpl. intro H.
  apply andb_true_iff in H as [C H]. apply negb_true_iff in C.
  now rewrite C, IH.
Qed.

Lemma split_semicolons_join (x rest : string) :
  forallb (fun c => negb (Ascii.eqb c ";")) (list_ascii_of_string x) = true ->
  split_semicolons (x ++ String ";" rest) = x :: split_semicolons rest.
Proof.
  induction x as [|c x IH]; [reflexivity|]. simpl. intro H.
  apply andb_true_iff in H as [C H]. apply negb_true_iff in C.
  now rewrite C, IH.
Qed.

Lemma split_semicolons_concat (x : string) (names : list string) :
  forallb listable (x :: names) = true ->
  split_semicolons (String.concat ";" (x :: names)) = x :: names.
Proof.
  revert x. induction names as [|y names IH]; intros x H.
  - simpl in H. rewrite andb_true_r in H. unfold listable in H.
    apply andb_true_iff in H as [_ H]. now apply split_semicolons_plain.
  - cbn [forallb] in H. apply andb_true_iff in H as [X H].
    change (String.concat ";" (x :: y :: names))
      with (x ++ String ";" (String.concat ";" (y :: names))).
    unfold listable in X. apply andb_true_iff in X as [_ X].
    rewrite split_semicolons_join by exact X. now rewrite IH.
Qed.

Lemma listed_join_or_none (names : list string) :
  forallb listable names = true -> listed (join_or_none names) = names.
Proof.
  intro H. destruct names as [|x names]; [reflexivity|].
  unfold listed, join_or_none.
  assert (N : String.eqb (String.concat ";" (x :: names)) "none" = false).
  { cbn [forallb] in H. apply andb_true_iff in H as [X _].
    unfold listable in X. apply andb_true_iff in X as [X _].
    destruct x as [|c x]; [discriminate|]. apply negb_true_iff in X.
    apply String.eqb_neq. intro E.
    assert (F : exists t, String.concat ";" (String c x :: names) = String c t)
      by (destruct names; simpl; eauto).
    destruct F as [t F]. rewrite F in E. injection E as -> _.
    discriminate X. }
  rewrite N. now apply split_semicolons_concat.
Qed.

Lemma registry_listable (f : string * pattern -> bool) :
  forallb listable (map fst (filter f INSPECT_ARRAY)) = true.
Proof.
  assert (A : forallb listable (map fst INSPECT_ARRAY) = true) by (vm_compute; reflexivity).
  rewrite forallb_forall in *. intros n I. apply A.
  apply in_map_iff in I as (i & <- & I). apply filter_In in I as [I _]. now apply in_map.
Qed.

Lemma report_set_of (report : odict) (key : string) (names : list string) :
  od_get key report = Some (VStr (join_or_none names)) ->
  forallb listable names = true ->
  report_set key report = names.
Proof.
  intros G L. unfold report_set. rewrite G. now apply listed_join_or_none.
Qed.

Lemma loop_lists (disasm : string) (total_insn : Z) :
  detected (inspect_loop disasm total_insn) = map fst (filter (hit disasm) INSPECT_ARRAY) /\
  undetected (inspect_loop disasm total_insn)
  = map fst (filter (fun item => negb (hit disasm item)) INSPECT_ARRAY).
Proof. rewrite inspect_loop_spec. split; reflexivity. Qed.

(** The two lists the report holds, read back. *)
Lemma inspect_report_sets (binary_name : string) (parsed_info : file_info) (size_mb : Q)
  (disasm : string) :
  let report := inspect binary_name parsed_info size_mb disasm in
  report_set "detected_extensions" report = map fst (filter (hit disasm) INSPECT_ARRAY) /\
  report_set "undetected_extensions" report
  = map fst (filter (fun item => negb (hit disasm item)) INSPECT_ARRAY).
Proof.
  intro report.
  destruct (inspect_lists binary_name parsed_info size_mb disasm) as (GD & GU & _).
  destruct (loop_lists disasm (count_instructions disasm ANY)) as [LD LU].
  split.
  - rewrite <- LD. apply report_set_of; [exact GD|]. rewrite LD. apply registry_listable.
  - rewrite <- LU. apply report_set_of; [exact GU|]. rewrite LU. apply registry_listable.
Qed.

Lemma partition_of (A B : list string) (f : string * pattern -> bool) :
  A = map fst (filter f INSPECT_ARRAY) ->
  B = map fst (filter (fun item => negb (f item)) INSPECT_ARRAY) ->
  (forall n, ~ (In n A /\ In n B)) /\
  (forall n, In n A \/ In n B <-> In n (map fst INSPECT_ARRAY)).
Proof.
  intros -> ->. split; intro n.
  - apply split_disjoint. exact names_nodup.
  - apply split_cover.
Qed.

(** C5. For every instruction stream the report lists, under
    "detected_extensions" and "undetected_extensions", the categories
    that count at least one instruction and those that count none, in
    the order of [INSPECT_ARRAY]; the two lists have no category in
    common and together hold every category of [INSPECT_ARRAY]; for every
    category the report holds its count and its percentage (0 when the
    count is 0); the keys of the report are [REPORT_KEYS] whatever the
    input. *)
Theorem report_partition_and_keys (binary_name : string) (parsed_info : file_info)
  (size_mb : Q) (disasm : string) :
  let total_insn := count_instructions disasm ANY in
  let report := inspect binary_name parsed_info size_mb disasm in
  let detected_set := report_set "detected_extensions" report in
  let undetected_set := report_set "undetected_extensions" report in
  (exists d u, od_get "detected_extensions" report = Some (VStr d) /\
               od_get "undetected_extensions" report = Some (VStr u)) /\
  detected_set = map fst (filter (hit disasm) INSPECT_ARRAY) /\
  undetected_set = map fst (filter (fun item => negb (hit disasm item)) INSPECT_ARRAY) /\
  (forall n, ~ (In n detected_set /\ In n undetected_set)) /\
  (forall n, In n detected_set \/ In n undetected_set <-> In n (map fst INSPECT_ARRAY)) /\
  Forall (fun item =>
            let count := count_instructions disasm (snd item) in
            od_get (fst item ++ "_instructions") report = Some (VInt count) /\
            od_get (fst item ++ "_instructions_percentage") report
            = Some (VFloat (percentage count total_insn)) /\
            (count = 0 -> (percentage count total_insn == 0)%Q))
         INSPECT_ARRAY /\
  od_keys report = REPORT_KEYS.
Proof.
  intros total_insn report detected_set undetected_set.
  destruct (inspect_lists binary_name parsed_info size_mb disasm) as (GD & GU & _).
  destruct (inspect_report_sets binary_name parsed_info size_mb disasm) as [ED EU].
  destruct (partition_of detected_set undetected_set (hit disasm)
              ED EU) as [PD PC].
  split; [|split; [|split; [|split; [|split; [|split]]]]].
  - exists (join_or_none (detected (inspect_loop disasm total_insn))),
      (join_or_none (undetected (inspect_loop disasm total_insn))).
    split; [exact GD | exact GU].
  - exact ED.
  - exact EU.
  - exact PD.
  - exact PC.
  - apply Forall_forall. intros item I.
    destruct (inspect_category binary_name parsed_info size_mb disasm item I) as [C P].
    split; [exact C | split; [exact P|]].
    intros ->. apply percentage_zero.
  - apply inspect_keys.
Qed.

(** C7. On the single line ["  401000: sdot v0.4s, v1.16b, v2.16b"] the
    category "asimddp" counts one instruction and every other category
    of [INSPECT_ARRAY] counts none. *)
Theorem sdot_line_counts_for_asimddp_only :
  let disasm := "  401000: sdot v0.4s, v1.16b, v2.16b" in
  map (fun item => (fst item, count_instructions disasm (snd item))) INSPECT_ARRAY
  = map (fun item => (fst item, if String.eqb (fst item) "asimddp" then 1 else 0))
      INSPECT_ARRAY /\
  existsb (fun item => String.eqb (fst item) "asimddp") INSPECT_ARRAY = true /\
  count_instructions disasm ANY = 1.
Proof. vm_compute. repeat split. Qed.

(** C8. When no line of the stream begins with whitespace, a hexadecimal
    offset and a colon, the total is 0 and every category has count 0 and
    percentage 0, in the counts and in the report. *)
Theorem no_instruction_line_all_zero (binary_name : string) (parsed_info : file_info)
  (size_mb : Q) (disasm : string) :
  (forall line, In line (split_lines disasm) -> ~ begins_with_offset line) ->
  let report := inspect binary_name parsed_info size_mb disasm in
  count_instructions disasm ANY = 0 /\
  od_get "total_instructions" report = Some (VInt 0) /\
  Forall (fun item =>
            count_instructions disasm (snd item) = 0 /\
            od_get (fst item ++ "_instructions") report = Some (VInt 0) /\
            od_get (fst item ++ "_instructions_percentage") report = Some (VFloat 0))
         INSPECT_ARRAY.
Proof.
  intros H report.
  assert (T : count_instructions disasm ANY = 0) by now apply count_no_insn.
  repeat split.
  - exact T.
  - rewrite <- T. apply (inspect_lists binary_name parsed_info size_mb disasm).
  - apply Forall_forall. intros item I.
    assert (C : count_instructions disasm (snd item) = 0) by now apply count_no_insn.
    destruct (inspect_category binary_name parsed_info size_mb disasm item I) as [C1 C2].
    rewrite C, T in *. auto.
Qed.


(** The empty stream and a stream of headers and labels have no
    instruction line. *)
Lemma no_instruction_line_all_zero_witness :
  (count_instructions "" ANY = 0 /\
   od_get "total_instructions" (inspect "x265" sample_info 1%Q "") = Some (VInt 0)) /\
  (count_instructions sample_headers ANY = 0 /\
   od_get "total_instructions" (inspect "x265" sample_info 1%Q sample_headers)
   = Some (VInt 0)).
Proof.
  split.
  - assert (H : forall line, In line (split_lines "") -> ~ begins_with_offset line)
      by (apply no_insn_lines; vm_compute; reflexivity).
    destruct (no_instruction_line_all_zero "x265" sample_info 1%Q "" H) as (T & R & _).
    split; assumption.
  - assert (H : forall line, In line (split_lines sample_headers) ->
                             ~ begins_with_offset line)
      by (apply no_insn_lines; vm_compute; reflexivity).
    destruct (no_instruction_line_all_zero "x265" sample_info 1%Q sample_headers H)
      as (T & R & _).
    split; assumption.
Defined.

Lemma sha512_within_sha2 (a b : regex) (t : list ascii) :
  matches (ws @ alts [b]) t -> matches (ws @ alts [a; b]) t.
Proof.
  cbn [alts]. intro H. apply matches_cat_inv in H as (s1 & s2 & -> & H1 & H2).
  constructor; [assumption | now apply MAltR].
Qed.

Lemma count_line_hit (pat : pattern) (count : Z) (line : string) :
  count_line pat count line = count + 1 <-> counted pat line = true.
Proof.
  rewrite count_line_counted. destruct (counted pat line); split; intro H;
    try reflexivity; try discriminate; lia.
Qed.

(** C9. The rules of "sha3" and "svesha3" are the same pattern, so their
    counts are equal on every stream; every line counted for "sha512" is
    counted for "sha2"; and the counts do not partition the stream: on the
    stream of the one line ["  401000: sha512h q0, q1, v2.2d"] both "sha2"
    and "sha512" count it, and the counts of all categories add up to 2
    for a total of 1. *)
Theorem sha_rules_overlap :
  exists sha3 svesha3 sha2 sha512,
    In ("sha3", sha3) INSPECT_ARRAY /\ In ("svesha3", svesha3) INSPECT_ARRAY /\
    In ("sha2", sha2) INSPECT_ARRAY /\ In ("sha512", sha512) INSPECT_ARRAY /\
    sha3 = svesha3 /\
    (forall disasm, count_instructions disasm sha3 = count_instructions disasm svesha3) /\
    (forall line count,
        count_line sha512 count line = count + 1 ->
        count_line sha2 count line = count + 1) /\
    (forall disasm, count_instructions disasm sha512 <= count_instructions disasm sha2) /\
    (let disasm := "  401000: sha512h q0, q1, v2.2d" in
     count_instructions disasm ANY = 1 /\
     count_instructions disasm sha2 = 1 /\
     count_instructions disasm sha512 = 1 /\
     fold_right Z.add 0 (map (fun item => count_instructions disasm (snd item)) INSPECT_ARRAY)
     = 2).
Proof.
  assert (W : forall line, counted (rule (alts [lit "sha512" @ one_of "hsu"])) line = true ->
              counted (rule (alts [lit "sha256" @ one_of "hsu"; lit "sha512" @ one_of "hsu"]))
                line = true).
  { intros line H. unfold counted in *. apply andb_true_iff in H as [H1 H2].
    rewrite H1. simpl. unfold search in *. cbn [anchored body rule] in *.
    revert H2. apply search_from_incl. apply sha512_within_sha2. }
  eexists. eexists. eexists. eexists.
  split; [do 24 right; left; reflexivity|].
  split; [do 15 right; left; reflexivity|].
  split; [do 23 right; left; reflexivity|].
  split; [do 25 right; left; reflexivity|].
  split; [reflexivity|].
  split; [reflexivity|].
  split; [|split].
  - intros line count H. apply count_line_hit. apply W. now apply count_line_hit in H.
  - intro disasm. rewrite !count_instructions_filter. apply inj_le.
    apply filter_length_le. exact W.
  - vm_compute. repeat split.
Qed.

(** C10, as stated, at an input where it fails: on a stream of
    360287970189643 lines, each the same [aese] instruction, the count of
    "aes" and the total are both 360287970189643 and the percentage the
    report holds is above 100.  The product by [100.0] is no binary64
    number and is rounded up, by 4, and the quotient of the rounded
    product by the total is rounded to the binary64 number that follows
    100. *)
Lemma percentage_above_100 :
  let disasm := repeat_line "  401000: aese v0.16b, v1.16b" 360287970189643 in
  let report := inspect "a.out" sample_info 1 disasm in
  exists aes pct,
    In ("aes", aes) INSPECT_ARRAY /\
    count_instructions disasm aes = 360287970189643 /\
    count_instructions disasm ANY = 360287970189643 /\
    od_get "aes_instructions_percentage" report = Some (VFloat pct) /\
    (100 < pct)%Q.
Proof.
  intros disasm report.
  assert (I : exists aes, In ("aes", aes) INSPECT_ARRAY /\
                          count_instructions "  401000: aese v0.16b, v1.16b" aes = 1 /\
                          count_instructions "  401000: aese v0.16b, v1.16b" ANY = 1).
  { eexists. split; [do 20 right; left; reflexivity|]. vm_compute. split; reflexivity. }
  destruct I as (aes & I & L1 & L2).
  exists aes, (percentage 360287970189643 360287970189643).
  assert (C1 : count_instructions disasm aes = 360287970189643)
    by (unfold disasm; rewrite count_repeat_line, L1; reflexivity).
  assert (C2 : count_instructions disasm ANY = 360287970189643)
    by (unfold disasm; rewrite count_repeat_line, L2; reflexivity).
  split; [exact I | split; [exact C1 | split; [exact C2 | split]]].
  - clearbody disasm.
    destruct (inspect_category "a.out" sample_info 1 disasm ("aes", aes) I) as [_ P].
    change (snd ("aes", aes)) with aes in P.
    change (fst ("aes", aes) ++ "_instructions_percentage")
      with "aes_instructions_percentage" in P.
    rewrite C1, C2 in P. exact P.
  - vm_compute. reflexivity.
Qed.

(** C10, amended.  On every stream a category counts at most as many
    lines as there are instructions, and the count and the percentage
    the report holds for it lie in 0..total and at or above 0; the
    percentage is at most 100 when 100 times the total is below 2^53,
    so that the product by [100.0] is exact. *)
Theorem count_within_total (binary_name : string) (parsed_info : file_info)
  (size_mb : Q) (disasm : string) :
  let total_insn := count_instructions disasm ANY in
  let report := inspect binary_name parsed_info size_mb disasm in
  od_get "total_instructions" report = Some (VInt total_insn) /\
  (forall pat, 0 <= count_instructions disasm pat <= total_insn) /\
  Forall (fun item =>
            exists count pct,
              od_get (fst item ++ "_instructions") report = Some (VInt count) /\
              od_get (fst item ++ "_instructions_percentage") report = Some (VFloat pct) /\
              count = count_instructions disasm (snd item) /\
              0 <= count <= total_insn /\
              (0 <= pct)%Q /\
              (100 * total_insn < 2 ^ 53 -> (pct <= 100)%Q))
         INSPECT_ARRAY.
Proof.
  intros total_insn report.
  assert (B : forall pat, 0 <= count_instructions disasm pat <= total_insn)
    by (intro pat; split; [apply count_instructions_nonneg | apply count_le_total]).
  split; [|split].
  - apply (inspect_lists binary_name parsed_info size_mb disasm).
  - exact B.
  - apply Forall_forall. intros item I.
    destruct (inspect_category binary_name parsed_info size_mb disasm item I) as [C P].
    exists (count_instructions disasm (snd item)),
           (percentage (count_instructions disasm (snd item)) total_insn).
    split; [exact C | split; [exact P | split; [reflexivity | split; [apply B|]]]].
    split.
    + apply percentage_nonneg, B.
    + intro T. apply percentage_le_100; [apply B | exact T].
Qed.

End InspectFacts.

(* ================================================================= *)
(** ** The auxv decoder and the capability expander *)

Module AuxvFacts.
Import Auxv.

Local Open Scope string_scope.
Local Open Scope Z_scope.

(** *** Words and bytes *)

Lemma byte_of_Z_value (v : Z) : Z.of_N (Byte.to_N (byte_of_Z v)) = v mod 256.
Proof.
  unfold byte_of_Z.
  assert (B : 0 <= v mod 256 < 256) by (apply Z.mod_pos_bound; lia).
  destruct (Byte.of_N (Z.to_N (v mod 256))) as [b|] eqn:E.
  - apply Byte.to_of_N in E. rewrite E. lia.
  - apply Byte.of_N_None_iff in E. lia.
Qed.

Lemma bytes_le_length (n : nat) : forall v, List.length (bytes_le n v) = n.
Proof. induction n as [|n IH]; intro v; simpl; [reflexivity | now rewrite IH]. Qed.

Lemma uint_le_bytes_le (n : nat) :
  forall v, 0 <= v < 256 ^ Z.of_nat n -> uint_le (bytes_le n v) = v.
Proof.
  induction n as [|n IH]; intros v B.
  - simpl in *. lia.
  - cbn [bytes_le uint_le]. rewrite byte_of_Z_value, IH.
    + pose proof (Z.div_mod v 256). lia.
    + rewrite Nat2Z.inj_succ, Z.pow_succ_r in B by lia.
      split; [apply Z.div_pos; lia | apply Z.div_lt_upper_bound; lia].
Qed.

Lemma bytes_of_uint_length (bo : byteorder) (n : nat) (v : Z) :
  List.length (bytes_of_uint bo n v) = n.
Proof. destruct bo; simpl; [|rewrite length_rev]; apply bytes_le_length. Qed.

Lemma uint_of_bytes_of_uint (bo : byteorder) (n : nat) (v : Z) :
  0 <= v < 256 ^ Z.of_nat n -> uint_of_bytes bo (bytes_of_uint bo n v) = v.
Proof.
  intro B. destruct bo; simpl; [|rewrite rev_involutive]; now apply uint_le_bytes_le.
Qed.

Lemma encode_pair_length (bo : byteorder) (fmt : format) (e : Z * Z) :
  List.length (encode_pair bo (word_size fmt) e) = calcsize fmt.
Proof.
  unfold encode_pair, calcsize. rewrite length_app, !bytes_of_uint_length. lia.
Qed.

(** [struct.unpack] reads back a pair encoded in the same byte order. *)
Lemma unpack_encode_pair (bo : byteorder) (fmt : format) (e : Z * Z) :
  0 <= fst e < 256 ^ Z.of_nat (word_size fmt) ->
  0 <= snd e < 256 ^ Z.of_nat (word_size fmt) ->
  unpack bo fmt (encode_pair bo (word_size fmt) e) = Some e.
Proof.
  intros B1 B2. unfold unpack. rewrite encode_pair_length, Nat.eqb_refl.
  unfold encode_pair.
  rewrite firstn_app, skipn_app, !bytes_of_uint_length, Nat.sub_diag.
  rewrite firstn_all2, skipn_all2 by (rewrite bytes_of_uint_length; lia).
  cbn [firstn skipn]. rewrite app_nil_r. cbn [app].
  rewrite !uint_of_bytes_of_uint by assumption. now destruct e.
Qed.

Lemma unpack_some (bo : byteorder) (fmt : format) (chunk : list byte) :
  List.length chunk = calcsize fmt -> exists t v, unpack bo fmt chunk = Some (t, v).
Proof. intro L. unfold unpack. rewrite L, Nat.eqb_refl. eauto. Qed.


(** *** The loop over the strides *)

Lemma range0_short (n step : nat) :
  (0 < n < step)%nat -> range0 n step = [0%nat].
Proof.
  intro B. unfold range0.
  replace ((n + step - 1) / step)%nat with 1%nat; [reflexivity|].
  apply Nat.div_unique with (r := (n - 1)%nat); lia.
Qed.

Lemma range0_nil (step : nat) : (0 < step)%nat -> range0 0 step = [].
Proof.
  intro B. unfold range0. rewrite Nat.add_0_l, Nat.div_small by lia. reflexivity.
Qed.

Lemma range0_step (n step : nat) :
  (0 < step)%nat ->
  range0 (step + n) step = 0%nat :: map (Nat.add step) (range0 n step).
Proof.
  intro B. unfold range0.
  replace ((step + n + step - 1) / step)%nat with (S ((n + step - 1) / step)).
  - cbn [seq map]. f_equal. rewrite <- seq_shift, !map_map.
    apply map_ext. intro k. simpl. lia.
  - replace (step + n + step - 1)%nat with (1 * step + (n + step - 1))%nat by lia.
    rewrite Nat.div_add_l by lia. reflexivity.
Qed.

Lemma slice_shift (pre d : list byte) (i step : nat) :
  slice (pre ++ d) (List.length pre + i) (List.length pre + i + step) = slice d i (i + step).
Proof.
  unfold slice.
  replace (List.length pre + i + step - (List.length pre + i))%nat with step by lia.
  replace (i + step - i)%nat with step by lia.
  rewrite skipn_app, skipn_all2 by lia.
  replace (List.length pre + i - List.length pre)%nat with i by lia. reflexivity.
Qed.

(** Dropping a prefix of the buffer shifts the indices. *)
Lemma parse_loop_shift (bo : byteorder) (fmt : format) (step : nat) (pre d : list byte) :
  forall idxs entries,
    parse_loop bo fmt step (pre ++ d) (map (Nat.add (List.length pre)) idxs) entries
    = parse_loop bo fmt step d idxs entries.
Proof.
  induction idxs as [|i idxs IH]; intro entries; [reflexivity|].
  cbn [map parse_loop]. rewrite slice_shift.
  destruct (List.length (slice d i (i + step)) <? step)%nat; [reflexivity|].
  destruct (unpack bo fmt (slice d i (i + step))) as [[t v]|]; [|reflexivity].
  destruct (t =? 0); [reflexivity | apply IH].
Qed.

Lemma slice_first (chunk d : list byte) :
  slice (chunk ++ d) 0 (0 + List.length chunk) = chunk.
Proof.
  unfold slice. cbn [skipn]. rewrite Nat.add_0_l, Nat.sub_0_r, firstn_app, Nat.sub_diag.
  cbn [firstn]. rewrite firstn_all, app_nil_r. reflexivity.
Qed.

Lemma parse_loop_head (bo : byteorder) (fmt : format) (chunk d : list byte)
  (entries : list (Z * Z)) (t v : Z) :
  (0 < List.length chunk)%nat ->
  unpack bo fmt chunk = Some (t, v) ->
  parse_loop bo fmt (List.length chunk) (chunk ++ d)
    (range0 (List.length chunk + List.length d) (List.length chunk)) entries
  = if t =? 0 then Ok entries
    else parse_loop bo fmt (List.length chunk) d
           (range0 (List.length d) (List.length chunk)) (entries ++ [(t, v)]).
Proof.
  intros P U. rewrite range0_step by assumption.
  cbn [parse_loop]. rewrite slice_first, Nat.ltb_irrefl, U.
  destruct (t =? 0); [reflexivity | apply parse_loop_shift].
Qed.

(** One full stride at the head of the buffer: one iteration. *)
Lemma parse_loop_stride (bo : byteorder) (fmt : format) (chunk d : list byte)
  (entries : list (Z * Z)) (t v : Z) :
  List.length chunk = calcsize fmt ->
  unpack bo fmt chunk = Some (t, v) ->
  parse_loop bo fmt (calcsize fmt) (chunk ++ d)
    (range0 (List.length (chunk ++ d)) (calcsize fmt)) entries
  = if t =? 0 then Ok entries
    else parse_loop bo fmt (calcsize fmt) d (range0 (List.length d) (calcsize fmt))
           (entries ++ [(t, v)]).
Proof.
  intros L U.
  assert (P : (0 < calcsize fmt)%nat) by (destruct fmt; cbv; lia).
  rewrite length_app, <- L. apply parse_loop_head; [lia | assumption].
Qed.

(** Less than a stride left: the loop ends. *)
Lemma parse_loop_short (bo : byteorder) (fmt : format) (step : nat) (d : list byte)
  (entries : list (Z * Z)) :
  (List.length d < step)%nat ->
  parse_loop bo fmt step d (range0 (List.length d) step) entries = Ok entries.
Proof.
  intro B. destruct d as [|b d].
  - rewrite range0_nil by lia. reflexivity.
  - rewrite range0_short by (simpl in *; lia). cbn [parse_loop].
    assert (L : (List.length (slice (b :: d) 0 (0 + step)) < step)%nat).
    { unfold slice. rewrite length_firstn. cbn [skipn]. lia. }
    apply Nat.ltb_lt in L. now rewrite L.
Qed.

(** A buffer is a number of full strides and a shorter tail. *)
Lemma strides_ind (step : nat) (P : list byte -> Prop) :
  (0 < step)%nat ->
  (forall d, (List.length d < step)%nat -> P d) ->
  (forall chunk d : list byte, List.length chunk = step -> P d -> P (chunk ++ d)%list) ->
  forall d, P d.
Proof.
  intros S0 Hshort Hstride d.
  remember (List.length d) as n eqn:E. revert d E.
  induction n as [n IH] using lt_wf_ind. intros d E.
  destruct (Nat.lt_ge_cases (List.length d) step) as [L | G]; [now apply Hshort|].
  rewrite <- (firstn_skipn step d). apply Hstride.
  - rewrite length_firstn. lia.
  - apply (IH (List.length (skipn step d))); [|reflexivity].
    rewrite length_skipn. lia.
Qed.

(** The loop never fails: [struct.unpack] only sees full strides. *)
Lemma parse_loop_ok (bo : byteorder) (fmt : format) (data : list byte) :
  forall entries, exists es,
    parse_loop bo fmt (calcsize fmt) data (range0 (List.length data) (calcsize fmt)) entries
    = Ok es.
Proof.
  assert (P : (0 < calcsize fmt)%nat) by (destruct fmt; cbv; lia).
  revert data.
  refine (strides_ind (calcsize fmt)
            (fun data => forall entries, exists es,
               parse_loop bo fmt (calcsize fmt) data
                 (range0 (List.length data) (calcsize fmt)) entries = Ok es) P _ _).
  - intros d L entries. rewrite parse_loop_short by assumption. eauto.
  - intros chunk d L IH entries.
    destruct (unpack_some bo fmt chunk L) as (t & v & U).
    rewrite (parse_loop_stride bo fmt chunk d entries t v L U).
    destruct (t =? 0); eauto.
Qed.

(** The bytes after the last full stride do not matter. *)
Lemma parse_loop_tail (bo : byteorder) (fmt : format) (tail : list byte) :
  (List.length tail < calcsize fmt)%nat ->
  forall n data entries,
    List.length data = (n * calcsize fmt)%nat ->
    parse_loop bo fmt (calcsize fmt) (data ++ tail)
      (range0 (List.length (data ++ tail)) (calcsize fmt)) entries
    = parse_loop bo fmt (calcsize fmt) data (range0 (List.length data) (calcsize fmt)) entries.
Proof.
  intro T.
  assert (P : (0 < calcsize fmt)%nat) by (destruct fmt; cbv; lia).
  induction n as [|n IH]; intros data entries L.
  - destruct data; [|discriminate]. cbn [app].
    rewrite !parse_loop_short by (simpl; lia). reflexivity.
  - rewrite <- (firstn_skipn (calcsize fmt) data).
    assert (L1 : List.length (firstn (calcsize fmt) data) = calcsize fmt)
      by (rewrite length_firstn; simpl in L; lia).
    assert (L2 : List.length (skipn (calcsize fmt) data) = (n * calcsize fmt)%nat)
      by (rewrite length_skipn; simpl in L; lia).
    destruct (unpack_some bo fmt _ L1) as (t & v & U).
    rewrite <- app_assoc.
    rewrite (parse_loop_stride bo fmt _ (skipn (calcsize fmt) data ++ tail) entries t v L1 U).
    rewrite (parse_loop_stride bo fmt _ (skipn (calcsize fmt) data) entries t v L1 U).
    destruct (t =? 0); [reflexivity | now apply IH].
Qed.

(** Encoded pairs with nonzero tags are read back in order, up to the
    first pair with tag 0. *)
Lemma parse_loop_encode (bo : byteorder) (fmt : format) (v0 : Z) (rest : list byte) :
  0 <= v0 < 256 ^ Z.of_nat (word_size fmt) ->
  forall es entries,
    Forall (fun e => 0 < fst e < 256 ^ Z.of_nat (word_size fmt) /\
                     0 <= snd e < 256 ^ Z.of_nat (word_size fmt)) es ->
    let data := (encode bo (word_size fmt) (es ++ [(0, v0)]) ++ rest)%list in
    parse_loop bo fmt (calcsize fmt) data (range0 (List.length data) (calcsize fmt)) entries
    = Ok (entries ++ es).
Proof.
  intros B0. induction es as [|e es IH]; intros entries F data; subst data.
  - cbn [app encode flat_map]. rewrite app_nil_r.
    rewrite (parse_loop_stride bo fmt _ rest entries 0 v0).
    + cbn. now rewrite app_nil_r.
    + apply encode_pair_length.
    + apply unpack_encode_pair; simpl; lia.
  - inversion F as [|? ? [Bt Bv] F']; subst.
    cbn [app encode flat_map]. rewrite <- app_assoc.
    rewrite (parse_loop_stride bo fmt _ _ entries (fst e) (snd e)).
    + destruct (fst e =? 0) eqn:Z0; [apply Z.eqb_eq in Z0; lia|].
      fold (encode bo (word_size fmt) (es ++ [(0, v0)])).
      rewrite (IH _ F'), <- app_assoc. now destruct e.
    + apply encode_pair_length.
    + rewrite unpack_encode_pair by lia. now destruct e.
Qed.


(** *** The decoder *)

Lemma parse_auxv_QQ (h : host) (data : list byte) (arch : option string) :
  resolve_ul_size h arch = 8 ->
  parse_auxv h data arch
  = parse_loop (sys_byteorder h) QQ (calcsize QQ) data
      (range0 (List.length data) (calcsize QQ)) [].
Proof. intro E. unfold parse_auxv. rewrite E. reflexivity. Qed.

Lemma parse_auxv_II (h : host) (data : list byte) (arch : option string) :
  resolve_ul_size h arch = 4 ->
  parse_auxv h data arch
  = parse_loop (sys_byteorder h) II (calcsize II) data
      (range0 (List.length data) (calcsize II)) [].
Proof. intro E. unfold parse_auxv. rewrite E. reflexivity. Qed.

Lemma parse_auxv_unsupported (h : host) (data : list byte) (arch : option string) :
  ~ (resolve_ul_size h arch = 4 \/ resolve_ul_size h arch = 8) ->
  parse_auxv h data arch = RuntimeError_UnsupportedWordSize (resolve_ul_size h arch).
Proof.
  intro N. unfold parse_auxv.
  destruct (Z.eqb_spec (resolve_ul_size h arch) 8); [tauto|].
  destruct (Z.eqb_spec (resolve_ul_size h arch) 4); [tauto|]. reflexivity.
Qed.

Lemma parse_auxv_ok (h : host) (data : list byte) (arch : option string) :
  resolve_ul_size h arch = 4 \/ resolve_ul_size h arch = 8 ->
  exists es, parse_auxv h data arch = Ok es.
Proof.
  intros [E | E].
  - rewrite (parse_auxv_II h data arch E). apply parse_loop_ok.
  - rewrite (parse_auxv_QQ h data arch E). apply parse_loop_ok.
Qed.

Lemma resolve_unsupported (h : host) (arch : string) :
  ~ In arch SUPPORTED_ARCH_LIST -> resolve_ul_size h (Some arch) = sizeof_c_ulong h.
Proof.
  intro N. unfold resolve_ul_size.
  destruct (String.eqb_spec arch "aarch64") as [->|_]; [exfalso; apply N; simpl; tauto|].
  destruct (String.eqb_spec arch "x86_64") as [->|_]; [exfalso; apply N; simpl; tauto|].
  cbn [orb existsb].
  destruct (String.eqb_spec arch "i386") as [->|_]; [exfalso; apply N; simpl; tauto|].
  destruct (String.eqb_spec arch "i686") as [->|_]; [exfalso; apply N; simpl; tauto|].
  reflexivity.
Qed.

(** Pairs written in the byte order of the host are read back. *)
Lemma roundtrip_native (h : host) (arch : option string) (entries : list (Z * Z))
  (v0 : Z) (rest : list byte) :
  resolve_ul_size h arch = 4 \/ resolve_ul_size h arch = 8 ->
  Forall (fun e => 0 < fst e < 2 ^ (8 * resolve_ul_size h arch) /\
                   0 <= snd e < 2 ^ (8 * resolve_ul_size h arch)) entries ->
  0 <= v0 < 2 ^ (8 * resolve_ul_size h arch) ->
  parse_auxv h
    (encode (sys_byteorder h) (Z.to_nat (resolve_ul_size h arch)) (entries ++ [(0, v0)])
     ++ rest) arch
  = Ok entries.
Proof.
  intros [E | E] F B0.
  - rewrite (parse_auxv_II h _ arch E). rewrite E in *.
    change (Z.to_nat 4) with (word_size II).
    now rewrite (parse_loop_encode (sys_byteorder h) II v0 rest B0 entries [] F).
  - rewrite (parse_auxv_QQ h _ arch E). rewrite E in *.
    change (Z.to_nat 8) with (word_size QQ).
    now rewrite (parse_loop_encode (sys_byteorder h) QQ v0 rest B0 entries [] F).
Qed.

(** C1, as stated, at an input where it fails: on a 64-bit host the hint
    "riscv64", which is not in [SUPPORTED_ARCH_LIST], does not make
    [parse_auxv] raise; the buffer is decoded with 8-byte words and its
    two entries are returned. *)
Lemma unsupported_hint_is_decoded :
  existsb (String.eqb "riscv64") SUPPORTED_ARCH_LIST = false /\
  parse_auxv host_le64 (sample_auxv 8) (Some "riscv64") = Ok sample_entries /\
  ~ raises (parse_auxv host_le64 (sample_auxv 8) (Some "riscv64")).
Proof.
  split; [reflexivity|].
  assert (E : parse_auxv host_le64 (sample_auxv 8) (Some "riscv64") = Ok sample_entries)
    by (vm_compute; reflexivity).
  split; [exact E | rewrite E; simpl; tauto].
Qed.

(** C1, amended.  For a hint outside [SUPPORTED_ARCH_LIST] the decoder
    resolves the word size to the native [sizeof(c_ulong)] of the host and
    decodes as it does without a hint; it raises, for an unsupported word
    size and with no entries, exactly when that native size is neither 4
    nor 8. *)
Theorem unsupported_hint_defaults_to_native (h : host) (data : list byte) (arch : string) :
  ~ In arch SUPPORTED_ARCH_LIST ->
  resolve_ul_size h (Some arch) = sizeof_c_ulong h /\
  parse_auxv h data (Some arch) = parse_auxv h data None /\
  (raises (parse_auxv h data (Some arch)) <->
   ~ (sizeof_c_ulong h = 4 \/ sizeof_c_ulong h = 8)) /\
  (raises (parse_auxv h data (Some arch)) ->
   parse_auxv h data (Some arch) = RuntimeError_UnsupportedWordSize (sizeof_c_ulong h)).
Proof.
  intro N. pose proof (resolve_unsupported h arch N) as R.
  assert (P : parse_auxv h data (Some arch) = parse_auxv h data None)
    by (unfold parse_auxv; rewrite R; reflexivity).
  assert (D : sizeof_c_ulong h = 4 \/ sizeof_c_ulong h = 8 \/
              ~ (sizeof_c_ulong h = 4 \/ sizeof_c_ulong h = 8)) by lia.
  split; [exact R | split; [exact P|]].
  destruct D as [E | [E | E]].
  - destruct (parse_auxv_ok h data (Some arch)) as [es O]; [rewrite R; tauto|].
    rewrite O. simpl. split; [split; [tauto | lia] | tauto].
  - destruct (parse_auxv_ok h data (Some arch)) as [es O]; [rewrite R; tauto|].
    rewrite O. simpl. split; [split; [tauto | lia] | tauto].
  - rewrite (parse_auxv_unsupported h data (Some arch)) by (rewrite R; exact E).
    rewrite R. simpl. tauto.
Qed.

(** On a 64-bit host the hint "riscv64" decodes as no hint does; on a
    host whose [c_ulong] has 2 bytes it raises. *)
Lemma unsupported_hint_defaults_to_native_witness :
  parse_auxv host_le64 (sample_auxv 8) (Some "riscv64")
  = parse_auxv host_le64 (sample_auxv 8) None /\
  parse_auxv (Host 2 Little) (sample_auxv 8) (Some "riscv64")
  = RuntimeError_UnsupportedWordSize 2.
Proof.
  assert (N : ~ In "riscv64" SUPPORTED_ARCH_LIST)
    by (simpl; intros [H | [H | [H | [H | []]]]]; discriminate).
  destruct (unsupported_hint_defaults_to_native host_le64 (sample_auxv 8) "riscv64" N)
    as (_ & P & _).
  destruct (unsupported_hint_defaults_to_native (Host 2 Little) (sample_auxv 8) "riscv64" N)
    as (_ & _ & R & Q).
  split; [exact P | apply Q, R].
  simpl. lia.
Defined.

(** C3, as stated, at an input where it fails: [struct.unpack] reads
    words in the byte order of the host, so on a big-endian host the two
    pairs of [sample_entries], written as little-endian 8-byte words and
    followed by a pair with tag 0, are read back with their bytes
    reversed: tag 6 as 6 * 2^56.  The same holds with 4-byte words. *)
Lemma little_endian_words_on_a_big_endian_host :
  parse_auxv (Host 8 Big) (encode Little 8 (sample_entries ++ [(0, 0)])) (Some "aarch64")
  = Ok [(432345564227567616, 4503599627370496);
        (1224979098644774912, 720646309123457024)] /\
  parse_auxv (Host 8 Big) (encode Little 8 (sample_entries ++ [(0, 0)])) (Some "aarch64")
  <> Ok sample_entries /\
  parse_auxv (Host 4 Big) (encode Little 4 (sample_entries ++ [(0, 0)])) None
  <> Ok sample_entries.
Proof.
  split; [vm_compute; reflexivity | split; vm_compute; discriminate].
Qed.

(** C3, amended.  On a little-endian host, for a word size of 4 or 8,
    the pairs with nonzero tags written as little-endian words and
    followed by a pair with tag 0 are decoded to exactly these pairs, in
    order; the terminating pair is not among them. *)
Theorem roundtrip_little_endian (h : host) (arch : option string)
  (entries : list (Z * Z)) (v0 : Z) :
  sys_byteorder h = Little ->
  resolve_ul_size h arch = 4 \/ resolve_ul_size h arch = 8 ->
  Forall (fun e => 0 < fst e < 2 ^ (8 * resolve_ul_size h arch) /\
                   0 <= snd e < 2 ^ (8 * resolve_ul_size h arch)) entries ->
  0 <= v0 < 2 ^ (8 * resolve_ul_size h arch) ->
  parse_auxv h
    (encode Little (Z.to_nat (resolve_ul_size h arch)) (entries ++ [(0, v0)])) arch
  = Ok entries.
Proof.
  intros L W F B0.
  pose proof (roundtrip_native h arch entries v0 [] W F B0) as R.
  rewrite app_nil_r, L in R. exact R.
Qed.

(** Two entries and a terminator, with 8-byte and with 4-byte words. *)
Lemma roundtrip_little_endian_witness :
  parse_auxv host_le64 (encode Little 8 (sample_entries ++ [(0, 0)])) (Some "aarch64")
  = Ok sample_entries /\
  parse_auxv host_le64 (encode Little 4 (sample_entries ++ [(0, 7)])) (Some "i386")
  = Ok sample_entries.
Proof.
  split.
  - apply (roundtrip_little_endian host_le64 (Some "aarch64") sample_entries 0).
    + reflexivity.
    + right. reflexivity.
    + repeat constructor; simpl; lia.
    + simpl. lia.
  - apply (roundtrip_little_endian host_le64 (Some "i386") sample_entries 7).
    + reflexivity.
    + left. reflexivity.
    + repeat constructor; simpl; lia.
    + simpl. lia.
Defined.

Lemma parse_auxv_tail (h : host) (arch : option string) (data tail : list byte) :
  resolve_ul_size h arch = 4 \/ resolve_ul_size h arch = 8 ->
  (List.length data mod (2 * Z.to_nat (resolve_ul_size h arch)) = 0)%nat ->
  (List.length tail < 2 * Z.to_nat (resolve_ul_size h arch))%nat ->
  parse_auxv h (data ++ tail) arch = parse_auxv h data arch.
Proof.
  intros W M T.
  destruct W as [E | E]; rewrite E in M, T.
  - rewrite !(parse_auxv_II h _ arch E).
    apply Nat.Div0.div_exact in M.
    apply (parse_loop_tail (sys_byteorder h) II tail T
             (List.length data / (2 * Z.to_nat 4))%nat).
    rewrite M at 1. apply Nat.mul_comm.
  - rewrite !(parse_auxv_QQ h _ arch E).
    apply Nat.Div0.div_exact in M.
    apply (parse_loop_tail (sys_byteorder h) QQ tail T
             (List.length data / (2 * Z.to_nat 8))%nat).
    rewrite M at 1. apply Nat.mul_comm.
Qed.

(** C4. For a word size of 4 or 8, bytes after the last full stride,
    fewer than a stride, change nothing: the buffer with them decodes to
    what the buffer without them decodes to, and the decoder does not
    raise. *)
Theorem truncated_tail_is_discarded (h : host) (arch : option string)
  (data tail : list byte) :
  resolve_ul_size h arch = 4 \/ resolve_ul_size h arch = 8 ->
  (List.length data mod (2 * Z.to_nat (resolve_ul_size h arch)) = 0)%nat ->
  (List.length tail < 2 * Z.to_nat (resolve_ul_size h arch))%nat ->
  parse_auxv h (data ++ tail) arch = parse_auxv h data arch /\
  exists entries, parse_auxv h (data ++ tail) arch = Ok entries.
Proof.
  intros W M T. split; [now apply parse_auxv_tail | now apply parse_auxv_ok].
Qed.

(** Two 4-byte pairs followed by three more bytes. *)
Lemma truncated_tail_is_discarded_witness :
  parse_auxv host_le64 (encode Little 4 sample_entries ++ [x11; x00; x00]) (Some "i386")
  = parse_auxv host_le64 (encode Little 4 sample_entries) (Some "i386") /\
  parse_auxv host_le64 (encode Little 4 sample_entries ++ [x11; x00; x00]) (Some "i386")
  = Ok sample_entries.
Proof.
  destruct (truncated_tail_is_discarded host_le64 (Some "i386")
              (encode Little 4 sample_entries) [x11; x00; x00]) as [E _].
  - left. reflexivity.
  - reflexivity.
  - simpl. lia.
  - split; [exact E | vm_compute; reflexivity].
Defined.

(** The same, for any buffer: the bytes after the last full stride are
    dropped. *)
Lemma parse_auxv_whole_strides (h : host) (arch : option string) (data : list byte) :
  resolve_ul_size h arch = 4 \/ resolve_ul_size h arch = 8 ->
  let step := (2 * Z.to_nat (resolve_ul_size h arch))%nat in
  parse_auxv h data arch
  = parse_auxv h (firstn (List.length data - List.length data mod step) data) arch.
Proof.
  intros W step.
  assert (S0 : (0 < step)%nat) by (unfold step; destruct W as [-> | ->]; simpl; lia).
  pose proof (Nat.mod_upper_bound (List.length data) step ltac:(lia)) as U.
  pose proof (Nat.Div0.mod_le (List.length data) step) as Le.
  pose proof (Nat.div_mod_eq (List.length data) step) as DM.
  set (k := (List.length data - List.length data mod step)%nat) in *.
  rewrite <- (firstn_skipn k data) at 1.
  apply parse_auxv_tail; try assumption.
  - fold step. rewrite length_firstn.
    replace (Nat.min k (List.length data)) with (step * (List.length data / step))%nat
      by lia.
    rewrite Nat.mul_comm. apply Nat.Div0.mod_mul.
  - fold step. rewrite length_skipn. lia.
Qed.

(** *** The capability expander *)

Lemma bit_set_testbit (bits : Z) (bit : N) :
  bit_set bits bit = Z.testbit bits (Z.of_N bit).
Proof.
  unfold bit_set.
  assert (P : 0 <= Z.of_N bit) by lia.
  rewrite <- (Z.add_0_l (Z.of_N bit)) at 2.
  rewrite <- Z.shiftr_spec by lia. rewrite Z.bit0_odd.
  change 1 with (Z.ones 1). rewrite Z.land_ones by lia.
  change (2 ^ 1) with 2. rewrite Zmod_odd.
  now destruct (Z.odd (Z.shiftr bits (Z.of_N bit))).
Qed.

Lemma bits_to_names_filter (bits : Z) (table : list (N * string)) :
  bits_to_names bits table
  = map snd (filter (fun e => Z.testbit bits (Z.of_N (fst e))) table).
Proof.
  induction table as [|[bit name] table IH]; [reflexivity|].
  cbn [bits_to_names filter fst]. rewrite bit_set_testbit, IH.
  now destruct (Z.testbit bits (Z.of_N bit)).
Qed.

Lemma bits_to_names_In (bits : Z) (table : list (N * string)) (name : string) :
  In name (bits_to_names bits table) <->
  exists bit, In (bit, name) table /\ Z.testbit bits (Z.of_N bit) = true.
Proof.
  rewrite bits_to_names_filter, in_map_iff. split.
  - intros ([bit n] & E & I). simpl in E. subst n.
    apply filter_In in I as [I T]. now exists bit.
  - intros (bit & I & T). exists (bit, name). split; [reflexivity|].
    apply filter_In. now split.
Qed.

Lemma insert_sorted_perm (x : string) (l : list string) :
  Permutation (insert_sorted x l) (x :: l).
Proof.
  induction l as [|y l IH]; simpl; [reflexivity|].
  destruct (String.leb x y); [reflexivity|].
  rewrite IH. apply perm_swap.
Qed.

Lemma sorted_perm (l : list string) : Permutation (sorted l) l.
Proof.
  induction l as [|x l IH]; simpl; [reflexivity|].
  rewrite insert_sorted_perm. now constructor.
Qed.

Lemma insert_sorted_hd (a x : string) (l : list string) :
  str_le a x -> HdRel str_le a l -> HdRel str_le a (insert_sorted x l).
Proof.
  intros A H. destruct l as [|y l]; simpl; [now constructor|].
  destruct (String.leb x y); constructor; [assumption | now inversion H].
Qed.

Lemma insert_sorted_sorted (x : string) (l : list string) :
  Sorted str_le l -> Sorted str_le (insert_sorted x l).
Proof.
  induction 1 as [|y l S IH H]; simpl; [repeat constructor|].
  destruct (String.leb x y) eqn:E.
  - constructor; [now constructor | now constructor].
  - constructor; [assumption|].
    apply insert_sorted_hd; [|assumption].
    destruct (String.leb_total x y) as [T | T]; [congruence | exact T].
Qed.

Lemma sorted_sorted (l : list string) : Sorted str_le (sorted l).
Proof.
  induction l as [|x l IH]; simpl; [constructor | now apply insert_sorted_sorted].
Qed.

(** C6, as stated, at an input where it fails: for the mask with exactly
    the bits 1, 3 and 22 set, [bits_to_names] on [AARCH64_HWCAP] returns
    the names in the order of the table, which is not the lexical
    order. *)
Lemma bits_to_names_is_not_sorted :
  bits_to_names (2 ^ 1 + 2 ^ 3 + 2 ^ 22) AARCH64_HWCAP = ["ASIMD"; "AES"; "SVE"] /\
  bits_to_names (2 ^ 1 + 2 ^ 3 + 2 ^ 22) AARCH64_HWCAP <> ["AES"; "ASIMD"; "SVE"].
Proof.
  assert (E : bits_to_names (2 ^ 1 + 2 ^ 3 + 2 ^ 22) AARCH64_HWCAP = ["ASIMD"; "AES"; "SVE"])
    by (vm_compute; reflexivity).
  split; [exact E | rewrite E; discriminate].
Qed.

(** C6, amended.  [bits_to_names] depends on the mask and the table only
    and returns exactly the names whose bit is set in the mask, in the
    order of the table; [decode_hwcap] sorts them lexically when it
    prints them.  On [AARCH64_HWCAP] the mask with exactly the bits 1, 3
    and 22 set gives ["ASIMD"; "AES"; "SVE"], which [sorted] turns into
    ["AES"; "ASIMD"; "SVE"], the line ["HWCAP:  AES, ASIMD, SVE"]. *)
Theorem bits_to_names_in_table_order (bits : Z) (table : list (N * string)) :
  bits_to_names bits table
  = map snd (filter (fun e => Z.testbit bits (Z.of_N (fst e))) table) /\
  (forall name,
      In name (bits_to_names bits table) <->
      exists bit, In (bit, name) table /\ Z.testbit bits (Z.of_N bit) = true) /\
  Permutation (sorted (bits_to_names bits table)) (bits_to_names bits table) /\
  Sorted str_le (sorted (bits_to_names bits table)) /\
  bits_to_names (2 ^ 1 + 2 ^ 3 + 2 ^ 22) AARCH64_HWCAP = ["ASIMD"; "AES"; "SVE"] /\
  sorted (bits_to_names (2 ^ 1 + 2 ^ 3 + 2 ^ 22) AARCH64_HWCAP) = ["AES"; "ASIMD"; "SVE"] /\
  decode_hwcap "aarch64" (2 ^ 1 + 2 ^ 3 + 2 ^ 22) 0 = ["HWCAP:  AES, ASIMD, SVE"].
Proof.
  split; [apply bits_to_names_filter|].
  split; [intro name; apply bits_to_names_In|].
  split; [apply sorted_perm|].
  split; [apply sorted_sorted|].
  split; [vm_compute; reflexivity|].
  split; vm_compute; reflexivity.
Qed.

End AuxvFacts.

(* ================================================================= *)
(** ** More on the decoder and the expander *)

Module AuxvMore.
Import Auxv AuxvFacts.

Local Open Scope string_scope.
Local Open Scope Z_scope.

(** *** What the decoder returns *)

Lemma uint_le_bounds (bs : list byte) :
  0 <= uint_le bs < 256 ^ Z.of_nat (List.length bs).
Proof.
  induction bs as [|b bs IH]; [simpl; lia|].
  cbn [uint_le List.length]. rewrite Nat2Z.inj_succ, Z.pow_succ_r by lia.
  pose proof (Byte.to_N_bounded b). lia.
Qed.

Lemma uint_of_bytes_bounds (bo : byteorder) (bs : list byte) :
  0 <= uint_of_bytes bo bs < 256 ^ Z.of_nat (List.length bs).
Proof.
  destruct bo; simpl; [apply uint_le_bounds|].
  rewrite <- (length_rev bs). apply uint_le_bounds.
Qed.

Lemma unpack_bounds (bo : byteorder) (fmt : format) (chunk : list byte) (t v : Z) :
  unpack bo fmt chunk = Some (t, v) ->
  0 <= t < 256 ^ Z.of_nat (word_size fmt) /\ 0 <= v < 256 ^ Z.of_nat (word_size fmt).
Proof.
  unfold unpack. destruct (Nat.eqb_spec (List.length chunk) (calcsize fmt)) as [L|]; [|discriminate].
  intro E. injection E as <- <-. unfold calcsize in L.
  pose proof (uint_of_bytes_bounds bo (firstn (word_size fmt) chunk)) as B1.
  pose proof (uint_of_bytes_bounds bo (skipn (word_size fmt) chunk)) as B2.
  rewrite length_firstn in B1. rewrite length_skipn in B2.
  replace (Nat.min (word_size fmt) (List.length chunk)) with (word_size fmt) in B1 by lia.
  replace (List.length chunk - word_size fmt)%nat with (word_size fmt) in B2 by lia.
  now split.
Qed.

(** What holds of every pair [struct.unpack] returns with a nonzero tag
    holds of every entry. *)
Lemma parse_loop_forall (P : Z * Z -> Prop) (bo : byteorder) (fmt : format) :
  (forall chunk t v, unpack bo fmt chunk = Some (t, v) -> t <> 0 -> P (t, v)) ->
  forall data entries es,
    Forall P entries ->
    parse_loop bo fmt (calcsize fmt) data (range0 (List.length data) (calcsize fmt)) entries
    = Ok es ->
    Forall P es.
Proof.
  intro U.
  assert (S0 : (0 < calcsize fmt)%nat) by (destruct fmt; cbv; lia).
  refine (strides_ind (calcsize fmt)
            (fun data => forall entries es, Forall P entries ->
               parse_loop bo fmt (calcsize fmt) data
                 (range0 (List.length data) (calcsize fmt)) entries = Ok es ->
               Forall P es) S0 _ _).
  - intros d L entries es F E. rewrite parse_loop_short in E by assumption.
    injection E as <-. exact F.
  - intros chunk d L IH entries es F E.
    destruct (unpack_some bo fmt chunk L) as (t & v & Un).
    rewrite (parse_loop_stride bo fmt chunk d entries t v L Un) in E.
    destruct (Z.eqb_spec t 0) as [->|N].
    + injection E as <-. exact F.
    + apply (IH (entries ++ [(t, v)])%list es); [|exact E].
      apply Forall_app. split; [exact F|].
      constructor; [exact (U chunk t v Un N) | constructor].
Qed.

Lemma parse_auxv_forall (P : Z * Z -> Prop) (h : host) (data : list byte)
  (arch : option string) (es : list (Z * Z)) :
  (forall fmt chunk t v,
      Z.of_nat (word_size fmt) = resolve_ul_size h arch ->
      unpack (sys_byteorder h) fmt chunk = Some (t, v) -> t <> 0 -> P (t, v)) ->
  parse_auxv h data arch = Ok es -> Forall P es.
Proof.
  intros U E.
  destruct (Z.eq_dec (resolve_ul_size h arch) 8) as [W | W8].
  - rewrite (parse_auxv_QQ h data arch W) in E.
    apply (parse_loop_forall P (sys_byteorder h) QQ) with (data := data) (entries := []);
      [|constructor | exact E].
    intros chunk t v. apply U. now rewrite W.
  - destruct (Z.eq_dec (resolve_ul_size h arch) 4) as [W | W4].
    + rewrite (parse_auxv_II h data arch W) in E.
      apply (parse_loop_forall P (sys_byteorder h) II) with (data := data) (entries := []);
        [|constructor | exact E].
      intros chunk t v. apply U. now rewrite W.
    + rewrite parse_auxv_unsupported in E by lia. discriminate.
Qed.

(** X1.  Whatever the buffer, no entry has tag 0 ([AT_NULL] is never
    returned), and tags and values fit the word size. *)
Theorem entries_are_nonnull_words (h : host) (data : list byte) (arch : option string)
  (es : list (Z * Z)) :
  parse_auxv h data arch = Ok es ->
  Forall (fun e => 0 < fst e < 2 ^ (8 * resolve_ul_size h arch) /\
                   0 <= snd e < 2 ^ (8 * resolve_ul_size h arch)) es.
Proof.
  apply parse_auxv_forall. intros fmt chunk t v W Un N.
  apply unpack_bounds in Un. rewrite <- W. cbn [fst snd].
  replace (2 ^ (8 * Z.of_nat (word_size fmt))) with (256 ^ Z.of_nat (word_size fmt))
    by (destruct fmt; reflexivity).
  lia.
Qed.

Lemma entries_are_nonnull_words_witness :
  Forall (fun e => 0 < fst e < 2 ^ (8 * 8) /\ 0 <= snd e < 2 ^ (8 * 8)) sample_entries.
Proof.
  apply (entries_are_nonnull_words host_le64 (sample_auxv 8) (Some "aarch64")).
  vm_compute. reflexivity.
Defined.

(** *** How much the decoder reads *)

(** The entries already collected stay in front. *)
Lemma parse_loop_entries (bo : byteorder) (fmt : format) :
  forall data entries,
    parse_loop bo fmt (calcsize fmt) data (range0 (List.length data) (calcsize fmt)) entries
    = match parse_loop bo fmt (calcsize fmt) data
              (range0 (List.length data) (calcsize fmt)) [] with
      | Ok es => Ok (entries ++ es)
      | r => r
      end.
Proof.
  assert (S0 : (0 < calcsize fmt)%nat) by (destruct fmt; cbv; lia).
  refine (strides_ind (calcsize fmt)
            (fun data => forall entries,
               parse_loop bo fmt (calcsize fmt) data
                 (range0 (List.length data) (calcsize fmt)) entries
               = match parse_loop bo fmt (calcsize fmt) data
                         (range0 (List.length data) (calcsize fmt)) [] with
                 | Ok es => Ok (entries ++ es)
                 | r => r
                 end) S0 _ _).
  - intros d L entries. rewrite !parse_loop_short by assumption. now rewrite app_nil_r.
  - intros chunk d L IH entries.
    destruct (unpack_some bo fmt chunk L) as (t & v & Un).
    rewrite !(parse_loop_stride bo fmt chunk d _ t v L Un).
    destruct (t =? 0); [now rewrite app_nil_r|].
    rewrite (IH (entries ++ [(t, v)])%list), (IH ([] ++ [(t, v)])%list).
    destruct (parse_loop bo fmt (calcsize fmt) d (range0 (List.length d) (calcsize fmt)) []);
      try reflexivity.
    now rewrite <- app_assoc.
Qed.

Lemma parse_loop_count (bo : byteorder) (fmt : format) :
  forall data entries es,
    parse_loop bo fmt (calcsize fmt) data (range0 (List.length data) (calcsize fmt)) entries
    = Ok es ->
    (List.length es * calcsize fmt
     <= List.length entries * calcsize fmt + List.length data)%nat.
Proof.
  assert (S0 : (0 < calcsize fmt)%nat) by (destruct fmt; cbv; lia).
  refine (strides_ind (calcsize fmt)
            (fun data => forall entries es,
               parse_loop bo fmt (calcsize fmt) data
                 (range0 (List.length data) (calcsize fmt)) entries = Ok es ->
               (List.length es * calcsize fmt
                <= List.length entries * calcsize fmt + List.length data)%nat) S0 _ _).
  - intros d L entries es E. rewrite parse_loop_short in E by assumption.
    injection E as <-. lia.
  - intros chunk d L IH entries es E.
    destruct (unpack_some bo fmt chunk L) as (t & v & Un).
    rewrite (parse_loop_stride bo fmt chunk d entries t v L Un) in E.
    rewrite length_app.
    destruct (t =? 0).
    + injection E as <-. lia.
    + apply IH in E. rewrite length_app in E. simpl in E. lia.
Qed.

(** X2.  A buffer of [n] bytes gives at most [n / (2 * word size)] entries. *)
Theorem entries_at_most_strides (h : host) (data : list byte) (arch : option string)
  (es : list (Z * Z)) :
  parse_auxv h data arch = Ok es ->
  Z.of_nat (List.length es) * (2 * resolve_ul_size h arch) <= Z.of_nat (List.length data).
Proof.
  intro E.
  destruct (Z.eq_dec (resolve_ul_size h arch) 8) as [W | W8].
  - rewrite (parse_auxv_QQ h data arch W) in E. apply parse_loop_count in E.
    rewrite W. change (calcsize QQ) with 16%nat in E. simpl in E. lia.
  - destruct (Z.eq_dec (resolve_ul_size h arch) 4) as [W | W4].
    + rewrite (parse_auxv_II h data arch W) in E. apply parse_loop_count in E.
      rewrite W. change (calcsize II) with 8%nat in E. simpl in E. lia.
    + rewrite parse_auxv_unsupported in E by lia. discriminate.
Qed.

Lemma entries_at_most_strides_witness :
  Z.of_nat (List.length sample_entries) * (2 * 8) <= Z.of_nat (List.length (sample_auxv 8)).
Proof.
  apply (entries_at_most_strides host_le64 (sample_auxv 8) (Some "aarch64")).
  vm_compute. reflexivity.
Defined.

Lemma parse_loop_prefix (bo : byteorder) (fmt : format) (more : list byte) :
  forall data entries, exists es es',
    parse_loop bo fmt (calcsize fmt) data (range0 (List.length data) (calcsize fmt)) entries
    = Ok es /\
    parse_loop bo fmt (calcsize fmt) (data ++ more)
      (range0 (List.length (data ++ more)) (calcsize fmt)) entries
    = Ok (es ++ es').
Proof.
  assert (S0 : (0 < calcsize fmt)%nat) by (destruct fmt; cbv; lia).
  refine (strides_ind (calcsize fmt)
            (fun data => forall entries, exists es es',
               parse_loop bo fmt (calcsize fmt) data
                 (range0 (List.length data) (calcsize fmt)) entries = Ok es /\
               parse_loop bo fmt (calcsize fmt) (data ++ more)
                 (range0 (List.length (data ++ more)) (calcsize fmt)) entries
               = Ok (es ++ es')) S0 _ _).
  - intros d L entries. rewrite parse_loop_short by assumption.
    rewrite (parse_loop_entries bo fmt (d ++ more) entries).
    destruct (parse_loop_ok bo fmt (d ++ more) []) as [es' E]. rewrite E.
    now exists entries, es'.
  - intros chunk d L IH entries.
    destruct (unpack_some bo fmt chunk L) as (t & v & Un).
    rewrite <- app_assoc.
    rewrite !(parse_loop_stride bo fmt chunk _ entries t v L Un).
    destruct (t =? 0); [|apply IH].
    exists entries, []. now rewrite app_nil_r.
Qed.

(** X3.  More bytes at the end of a buffer only add entries at the end: what
    a buffer decodes to is a prefix of what any extension of it decodes
    to. *)
Theorem longer_buffer_extends_entries (h : host) (data more : list byte)
  (arch : option string) :
  resolve_ul_size h arch = 4 \/ resolve_ul_size h arch = 8 ->
  exists es es',
    parse_auxv h data arch = Ok es /\
    parse_auxv h (data ++ more) arch = Ok (es ++ es').
Proof.
  intros [W | W].
  - rewrite !(parse_auxv_II h _ arch W). apply parse_loop_prefix.
  - rewrite !(parse_auxv_QQ h _ arch W). apply parse_loop_prefix.
Qed.

Lemma longer_buffer_extends_entries_witness :
  exists es es',
    parse_auxv host_le64 (firstn 20 (sample_auxv 8)) (Some "aarch64") = Ok es /\
    parse_auxv host_le64 (firstn 20 (sample_auxv 8) ++ skipn 20 (sample_auxv 8))
      (Some "aarch64") = Ok (es ++ es').
Proof.
  apply (longer_buffer_extends_entries host_le64 (firstn 20 (sample_auxv 8))
           (skipn 20 (sample_auxv 8)) (Some "aarch64")).
  right. reflexivity.
Defined.

Lemma parse_loop_encode_all (bo : byteorder) (fmt : format) (tail : list byte) :
  (List.length tail < calcsize fmt)%nat ->
  forall es entries,
    Forall (fun e => 0 < fst e < 256 ^ Z.of_nat (word_size fmt) /\
                     0 <= snd e < 256 ^ Z.of_nat (word_size fmt)) es ->
    let data := (encode bo (word_size fmt) es ++ tail)%list in
    parse_loop bo fmt (calcsize fmt) data (range0 (List.length data) (calcsize fmt)) entries
    = Ok (entries ++ es).
Proof.
  intro T. induction es as [|e es IH]; intros entries F data; subst data.
  - cbn [encode flat_map app]. rewrite parse_loop_short by assumption.
    now rewrite app_nil_r.
  - inversion F as [|? ? [Bt Bv] F']; subst.
    cbn [encode flat_map]. rewrite <- app_assoc.
    rewrite (parse_loop_stride bo fmt _ _ entries (fst e) (snd e)).
    + destruct (fst e =? 0) eqn:Z0; [apply Z.eqb_eq in Z0; lia|].
      fold (encode bo (word_size fmt) es).
      rewrite (IH _ F'), <- app_assoc. now destruct e.
    + apply encode_pair_length.
    + rewrite unpack_encode_pair by lia. now destruct e.
Qed.

(** X4.  A buffer without terminator is decoded to its end: the pairs written
    in the byte order of the host, all with nonzero tags, followed by
    less than a stride of bytes, are read back. *)
Theorem unterminated_buffer_is_read_to_the_end (h : host) (arch : option string)
  (entries : list (Z * Z)) (tail : list byte) :
  resolve_ul_size h arch = 4 \/ resolve_ul_size h arch = 8 ->
  Forall (fun e => 0 < fst e < 2 ^ (8 * resolve_ul_size h arch) /\
                   0 <= snd e < 2 ^ (8 * resolve_ul_size h arch)) entries ->
  (List.length tail < 2 * Z.to_nat (resolve_ul_size h arch))%nat ->
  parse_auxv h
    (encode (sys_byteorder h) (Z.to_nat (resolve_ul_size h arch)) entries ++ tail) arch
  = Ok entries.
Proof.
  intros [E | E] F T.
  - rewrite (parse_auxv_II h _ arch E). rewrite E in *.
    change (Z.to_nat 4) with (word_size II).
    now rewrite (parse_loop_encode_all (sys_byteorder h) II tail T entries [] F).
  - rewrite (parse_auxv_QQ h _ arch E). rewrite E in *.
    change (Z.to_nat 8) with (word_size QQ).
    now rewrite (parse_loop_encode_all (sys_byteorder h) QQ tail T entries [] F).
Qed.

Lemma unterminated_buffer_is_read_to_the_end_witness :
  parse_auxv host_le64 (encode Little 4 sample_entries ++ [x11; x00; x00]) (Some "i686")
  = Ok sample_entries.
Proof.
  apply (unterminated_buffer_is_read_to_the_end host_le64 (Some "i686") sample_entries
           [x11; x00; x00]).
  - left. reflexivity.
  - repeat constructor; simpl; lia.
  - simpl. lia.
Defined.

(** X5.  The decoder stops at the first pair with tag 0: whatever follows it
    in the buffer is not read, in either byte order. *)
Theorem bytes_after_terminator_are_ignored (h : host) (arch : option string)
  (entries : list (Z * Z)) (v0 : Z) (rest : list byte) :
  resolve_ul_size h arch = 4 \/ resolve_ul_size h arch = 8 ->
  Forall (fun e => 0 < fst e < 2 ^ (8 * resolve_ul_size h arch) /\
                   0 <= snd e < 2 ^ (8 * resolve_ul_size h arch)) entries ->
  0 <= v0 < 2 ^ (8 * resolve_ul_size h arch) ->
  parse_auxv h
    (encode (sys_byteorder h) (Z.to_nat (resolve_ul_size h arch)) (entries ++ [(0, v0)])
     ++ rest) arch
  = Ok entries.
Proof. apply roundtrip_native. Qed.

Lemma bytes_after_terminator_are_ignored_witness :
  parse_auxv (Host 8 Big)
    (encode Big 8 (sample_entries ++ [(0, 0)]) ++ encode Big 8 [(3, 64); (0, 0)])
    (Some "x86_64")
  = Ok sample_entries.
Proof.
  apply (bytes_after_terminator_are_ignored (Host 8 Big) (Some "x86_64") sample_entries 0
           (encode Big 8 [(3, 64); (0, 0)])).
  - right. reflexivity.
  - repeat constructor; simpl; lia.
  - simpl. lia.
Defined.

(** X6.  With one of the four supported hints the decoder never raises, and
    the size of [c_ulong] on the host plays no part. *)
Theorem supported_hint_fixes_the_word_size (h1 h2 : host) (data : list byte)
  (arch : string) :
  In arch SUPPORTED_ARCH_LIST ->
  sys_byteorder h1 = sys_byteorder h2 ->
  parse_auxv h1 data (Some arch) = parse_auxv h2 data (Some arch) /\
  (exists es, parse_auxv h1 data (Some arch) = Ok es) /\
  resolve_ul_size h1 (Some arch)
  = (if String.eqb arch "aarch64" || String.eqb arch "x86_64" then 8 else 4).
Proof.
  intros I B.
  assert (R : forall h, resolve_ul_size h (Some arch)
                        = if String.eqb arch "aarch64" || String.eqb arch "x86_64"
                          then 8 else 4).
  { intro h. simpl in I.
    destruct I as [<- | [<- | [<- | [<- | []]]]]; reflexivity. }
  split; [|split; [|apply R]].
  - unfold parse_auxv. rewrite (R h1), (R h2), B. reflexivity.
  - apply parse_auxv_ok. rewrite R.
    destruct (String.eqb arch "aarch64" || String.eqb arch "x86_64"); tauto.
Qed.

Lemma supported_hint_fixes_the_word_size_witness :
  parse_auxv (Host 4 Little) (sample_auxv 8) (Some "aarch64")
  = parse_auxv (Host 8 Little) (sample_auxv 8) (Some "aarch64").
Proof.
  apply (supported_hint_fixes_the_word_size (Host 4 Little) (Host 8 Little)
           (sample_auxv 8) "aarch64").
  - simpl. tauto.
  - reflexivity.
Defined.

End AuxvMore.

(* ================================================================= *)
(** ** More on the classifier: streams, samples and printing *)

Module InspectMore.
Import Re ReFacts Inspect InspectFacts InspectMain.

Local Open Scope string_scope.

(** *** Streams *)

(** X7.  The counts of two streams joined by a newline add up, so the order in
    which parts of a disassembly are joined does not change a count. *)
Theorem counts_add_up (d1 d2 : string) (pat : pattern) :
  count_instructions (d1 ++ String "010" d2) pat
  = (count_instructions d1 pat + count_instructions d2 pat)%Z /\
  count_instructions (d1 ++ String "010" d2) pat
  = count_instructions (d2 ++ String "010" d1) pat.
Proof.
  assert (A : forall a b, count_instructions (a ++ String "010" b) pat
                          = (count_instructions a pat + count_instructions b pat)%Z).
  { intros a b. rewrite !count_instructions_filter, split_lines_newline.
    rewrite filter_app, length_app. lia. }
  split; [apply A | rewrite !A; lia].
Qed.

(** *** Detected and undetected *)

Lemma join_or_none_none (names : list string) :
  Forall (fun n => exists c s, n = String c s /\ c <> "n"%char) names ->
  join_or_none names = "none" -> names = [].
Proof.
  intros F E. destruct names as [|n names]; [reflexivity|]. exfalso.
  inversion F as [|? ? (c & s & -> & N) _]; subst.
  unfold join_or_none in E. cbn [String.concat] in E.
  destruct names; simpl in E; injection E as E _; now apply N.
Qed.

Lemma registry_names_initial :
  Forall (fun n => exists c s, n = String c s /\ c <> "n"%char) (map fst INSPECT_ARRAY).
Proof.
  assert (C : forallb (fun n => match n with
                                | String c _ => negb (Ascii.eqb c "n")
                                | EmptyString => false
                                end) (map fst INSPECT_ARRAY) = true)
    by (vm_compute; reflexivity).
  rewrite forallb_forall in C. apply Forall_forall. intros n I.
  specialize (C n I). destruct n as [|c s]; [discriminate|].
  exists c, s. split; [reflexivity|].
  apply negb_true_iff in C. now apply Ascii.eqb_neq.
Qed.

(** X8.  A category is detected exactly when it counts at least one
    instruction and undetected exactly when it counts none; the report
    says "none" for the detected categories exactly when every category
    counts none. *)
Theorem detected_iff_counted (binary_name : string) (parsed_info : file_info)
  (size_mb : Q) (disasm : string) :
  let st := inspect_loop disasm (count_instructions disasm ANY) in
  let report := inspect binary_name parsed_info size_mb disasm in
  (forall n, In n (detected st) <->
             exists pat, In (n, pat) INSPECT_ARRAY /\ (0 < count_instructions disasm pat)%Z) /\
  (forall n, In n (undetected st) <->
             exists pat, In (n, pat) INSPECT_ARRAY /\ count_instructions disasm pat = 0%Z) /\
  (od_get "detected_extensions" report = Some (VStr "none") <->
   Forall (fun item => count_instructions disasm (snd item) = 0%Z) INSPECT_ARRAY).
Proof.
  intros st report.
  assert (D : detected st = map fst (filter (hit disasm) INSPECT_ARRAY))
    by (unfold st; now rewrite inspect_loop_spec).
  assert (U : undetected st = map fst (filter (fun i => negb (hit disasm i)) INSPECT_ARRAY))
    by (unfold st; now rewrite inspect_loop_spec).
  assert (HD : forall n, In n (detected st) <->
             exists pat, In (n, pat) INSPECT_ARRAY /\ (0 < count_instructions disasm pat)%Z).
  { intro n. rewrite D, in_map_iff. split.
    - intros ([n' pat] & E & I). simpl in E. subst n'. apply filter_In in I as [I H].
      exists pat. split; [exact I|]. unfold hit in H. simpl in H. lia.
    - intros (pat & I & C). exists (n, pat). split; [reflexivity|].
      apply filter_In. split; [exact I|]. unfold hit. simpl. lia. }
  split; [exact HD | split].
  - intro n. rewrite U, in_map_iff. split.
    + intros ([n' pat] & E & I). simpl in E. subst n'. apply filter_In in I as [I H].
      exists pat. split; [exact I|]. unfold hit in H. simpl in H.
      pose proof (count_instructions_nonneg disasm pat). lia.
    + intros (pat & I & C). exists (n, pat). split; [reflexivity|].
      apply filter_In. split; [exact I|]. unfold hit. simpl. rewrite C. reflexivity.
  - destruct (inspect_lists binary_name parsed_info size_mb disasm) as (G & _ & _).
    fold st in G. fold report in G. rewrite G. split.
    + intro E. injection E as E.
      assert (N : detected st = []).
      { apply join_or_none_none; [|exact E].
        rewrite D. apply Forall_forall. intros n I.
        pose proof registry_names_initial as R. rewrite Forall_forall in R. apply R.
        apply in_map_iff in I as (i & <- & I). apply filter_In in I as [I _].
        now apply in_map. }
      apply Forall_forall. intros [n pat] I. simpl.
      pose proof (count_instructions_nonneg disasm pat) as P.
      destruct (Z.eq_dec (count_instructions disasm pat) 0) as [Z0|NZ]; [exact Z0|].
      exfalso. assert (I' : In n (detected st)) by (apply HD; exists pat; split; [exact I | lia]).
      rewrite N in I'. exact I'.
    + intro F. rewrite Forall_forall in F.
      assert (N : detected st = []).
      { destruct (detected st) as [|n l] eqn:E; [reflexivity|]. exfalso.
        assert (I : In n (n :: l)) by now left.
        apply HD in I as (pat & I & C). specialize (F (n, pat) I). simpl in F. lia. }
      now rewrite N.
Qed.

(** *** Samples *)

Lemma sample_loop_firstn (pat : pattern) (limit : Z) (lines : list string) :
  forall samples,
    (Z.of_nat (List.length samples) < Z.max limit 1)%Z ->
    sample_loop pat limit lines samples
    = firstn (Z.to_nat (Z.max limit 1))
        (samples ++ map strip (filter (counted pat) lines)).
Proof.
  induction lines as [|line rest IH]; intros samples B.
  - cbn [sample_loop filter map]. rewrite app_nil_r, firstn_all2; [reflexivity | lia].
  - cbn [sample_loop filter]. unfold counted at 1.
    destruct (search INSN_LINE line); [|now apply IH].
    destruct (search pat line); [|now apply IH].
    cbn [andb map].
    replace (samples ++ strip line :: map strip (filter (counted pat) rest))%list
      with ((samples ++ [strip line]) ++ map strip (filter (counted pat) rest))%list
      by now rewrite <- app_assoc.
    destruct (Z.geb_spec (Z.of_nat (List.length (samples ++ [strip line]))) limit) as [G | L].
    + rewrite length_app in G. cbn [List.length] in G.
      rewrite firstn_app.
      replace (Z.to_nat (Z.max limit 1) - List.length (samples ++ [strip line]))%nat
        with 0%nat by (rewrite length_app; simpl; lia).
      cbn [firstn]. rewrite app_nil_r, firstn_all2; [reflexivity|].
      rewrite length_app. simpl. lia.
    + apply IH. lia.
Qed.

(** X9.  The samples are the first [limit] counted lines, stripped, in the
    order of the stream - or the first one when [limit] is below 1, the
    test against the limit coming after the first sample is taken.  So
    there are min(max(limit, 1), count) samples. *)
Theorem samples_are_first_counted_lines (disasm : string) (pat : pattern) (limit : Z) :
  find_sample_instructions disasm pat limit
  = firstn (Z.to_nat (Z.max limit 1))
      (map strip (filter (counted pat) (split_lines disasm))) /\
  Z.of_nat (List.length (find_sample_instructions disasm pat limit))
  = Z.min (Z.max limit 1) (count_instructions disasm pat).
Proof.
  assert (E : find_sample_instructions disasm pat limit
              = firstn (Z.to_nat (Z.max limit 1))
                  (map strip (filter (counted pat) (split_lines disasm))))
    by (unfold find_sample_instructions; rewrite sample_loop_firstn; [reflexivity | simpl; lia]).
  split; [exact E|].
  rewrite E, length_firstn, length_map, count_instructions_filter. lia.
Qed.

(** *** What [main] prints *)

Lemma print_results_keys (debug_level : Z) (results : odict) :
  map printed_key (print_results debug_level results)
  = filter (shown debug_level) (od_keys results).
Proof.
  unfold print_results, od_keys.
  induction results as [|[key value] results IH]; [reflexivity|].
  cbn [flat_map map filter fst]. rewrite map_app, IH. unfold shown at 2, print_item.
  destruct ((debug_level <? 1)%Z &&
            (endswith key "_instructions" || endswith key "_instructions_percentage"));
    [reflexivity|].
  destruct (endswith key "_percentage"); [reflexivity|].
  destruct (String.eqb key "binary_size_mb"); reflexivity.
Qed.

Lemma print_item_number (debug_level : Z) (key : string) (v : value) :
  (exists z, v = VInt z) \/ (exists q, v = VFloat q) ->
  Forall well_formatted (print_item debug_level (key, v)).
Proof.
  intro N. unfold print_item.
  destruct ((debug_level <? 1)%Z &&
            (endswith key "_instructions" || endswith key "_instructions_percentage"));
    [constructor|].
  destruct (endswith key "_percentage");
    [|destruct (String.eqb key "binary_size_mb")];
    (constructor; [|constructor]);
    destruct N as [[z ->] | [q ->]]; exact I.
Qed.

Lemma print_fixed_entries (debug_level : Z) (binary_name : string)
  (parsed_info : file_info) (size_mb : Q) (st : loop_state) (total_insn : Z) :
  Forall well_formatted
    (print_results debug_level
       (fixed_entries binary_name parsed_info size_mb st total_insn)).
Proof.
  unfold print_results, fixed_entries.
  destruct (debug_level <? 1)%Z eqn:D; cbn [flat_map]; unfold print_item; rewrite D;
    vm_compute; repeat constructor.
Qed.

Lemma print_ext_entries (debug_level : Z) (disasm : string) (total_insn : Z)
  (rules : list (string * pattern)) :
  Forall well_formatted
    (print_results debug_level (flat_map (ext_entries disasm total_insn) rules)).
Proof.
  unfold print_results.
  induction rules as [|item rules IH]; [constructor|].
  cbn [flat_map]. rewrite flat_map_app. apply Forall_app. split; [|exact IH].
  unfold ext_entries. cbn [flat_map]. apply Forall_app.
  split; [apply print_item_number; eauto|].
  apply Forall_app. split; [apply print_item_number; eauto | constructor].
Qed.

(** X10.  Without [-d], or with [-q], [main] prints the fourteen keys of
    [QUIET_KEYS] whatever the binary: the per-category counts and
    percentages are left out, and so is "total_instructions", whose name
    ends in "_instructions" too.  With [-d] it prints every key of the
    report, in order.  The formats [.2f] and [.1f] are only ever applied
    to numbers. *)
Theorem main_prints_quiet_or_all (quiet : bool) (debug : Z) (binary_name : string)
  (parsed_info : file_info) (size_mb : Q) (disasm : string) :
  let report := inspect binary_name parsed_info size_mb disasm in
  let lines := print_results (debug_level quiet debug) report in
  map printed_key lines
  = (if quiet || (debug <? 1)%Z then QUIET_KEYS else REPORT_KEYS) /\
  Forall well_formatted lines.
Proof.
  intros report lines. split.
  - unfold lines. rewrite print_results_keys. unfold report. rewrite inspect_keys.
    unfold debug_level, shown. destruct quiet; cbn [orb].
    + vm_compute. reflexivity.
    + destruct (debug <? 1)%Z; vm_compute; reflexivity.
  - unfold lines, report. rewrite inspect_entries.
    unfold print_results. rewrite flat_map_app. apply Forall_app. split.
    + apply print_fixed_entries.
    + apply print_ext_entries.
Qed.

End InspectMore.

(* ================================================================= *)
(** ** The table and the capability block of auxv.print.py *)

Module AuxvMainFacts.
Import Auxv AuxvFacts AuxvMain.

Local Open Scope string_scope.
Local Open Scope Z_scope.

(** *** Names of tags *)

Lemma dict_get_In {A : Type} (k : Z) (v : A) (d : list (Z * A)) :
  dict_get k d = Some v -> In (k, v) d.
Proof.
  induction d as [|[k' v'] d IH]; simpl; [discriminate|].
  destruct (Z.eqb_spec k' k) as [->|_].
  - intro E. injection E as ->. now left.
  - intro E. right. now apply IH.
Qed.

Lemma nodup_snd_functional {A B} (l : list (A * B)) (a1 a2 : A) (b : B) :
  NoDup (map snd l) -> In (a1, b) l -> In (a2, b) l -> a1 = a2.
Proof.
  induction l as [|[x y] l IH]; simpl; intros N I1 I2; [contradiction|].
  inversion N as [|? ? N1 N2]; subst.
  destruct I1 as [E1 | I1], I2 as [E2 | I2].
  - congruence.
  - injection E1 as -> ->. exfalso. apply N1. now apply (in_map snd _ (a2, b)).
  - injection E2 as -> ->. exfalso. apply N1. now apply (in_map snd _ (a1, b)).
  - auto.
Qed.

Lemma at_names_nodup : NoDup (map snd AT_NAMES).
Proof. apply InspectFacts.nodupb_NoDup. vm_compute. reflexivity. Qed.

Lemma dec_of_Z_inj (a b : Z) : dec_of_Z a = dec_of_Z b -> a = b.
Proof.
  unfold dec_of_Z. intro E.
  apply (f_equal NilEmpty.int_of_string) in E. rewrite !NilEmpty.isi in E.
  injection E as E. apply (f_equal Z.of_int) in E. now rewrite !DecimalZ.of_to in E.
Qed.

(** No name of the table is "AT_" followed by a number. *)
Lemma at_names_not_numbered (t : Z) (name : string) :
  In name (map snd AT_NAMES) -> name <> "AT_" ++ dec_of_Z t.
Proof.
  intros I E.
  assert (C : forallb (fun n => match NilEmpty.int_of_string (substring 3 (String.length n) n) with
                                | Some _ => false
                                | None => true
                                end) (map snd AT_NAMES) = true)
    by (vm_compute; reflexivity).
  rewrite forallb_forall in C. specialize (C name I). rewrite E in C.
  cbn [append substring String.length] in C.
  replace (substring 0 (S (S (S (String.length (dec_of_Z t))))) (dec_of_Z t))
    with (dec_of_Z t) in C.
  - unfold dec_of_Z in C. rewrite NilEmpty.isi in C. discriminate.
  - generalize (dec_of_Z t). intro s. generalize 3%nat. intro k.
    induction s as [|c s IH]; simpl; [now destruct k | now rewrite <- IH].
Qed.

Lemma at_name_inj (t1 t2 : Z) : at_name t1 = at_name t2 -> t1 = t2.
Proof.
  unfold at_name.
  destruct (dict_get t1 AT_NAMES) as [n1|] eqn:G1, (dict_get t2 AT_NAMES) as [n2|] eqn:G2.
  - intros ->. apply dict_get_In in G1, G2.
    apply (nodup_snd_functional AT_NAMES t1 t2 n2 at_names_nodup G1 G2).
  - intro E. exfalso. apply dict_get_In in G1.
    apply (at_names_not_numbered t2 n1); [|exact E].
    now apply (in_map snd _ (t1, n1)).
  - intro E. exfalso. apply dict_get_In in G2.
    apply (at_names_not_numbered t1 n2); [|now symmetry].
    now apply (in_map snd _ (t2, n2)).
  - intro E. injection E as E. now apply dec_of_Z_inj.
Qed.

(** X11.  Every tag has a display name, from the table or "AT_" and its number,
    and no two tags have the same: a row of the table tells its tag. *)
Theorem at_name_is_injective (t1 t2 : Z) :
  (at_name t1 = at_name t2 -> t1 = t2) /\
  (dict_get t1 AT_NAMES = None -> at_name t1 = "AT_" ++ dec_of_Z t1).
Proof.
  split; [apply at_name_inj | unfold at_name; now intros ->].
Qed.

Lemma decimal_names_are_tags (t : Z) (tags : list Z) :
  existsb (String.eqb (at_name t)) (map at_name tags) = existsb (Z.eqb t) tags.
Proof.
  induction tags as [|x tags IH]; [reflexivity|]. cbn [map existsb]. rewrite IH. f_equal.
  destruct (Z.eqb_spec t x) as [->|N]; [apply String.eqb_refl|].
  apply String.eqb_neq. intro E. now apply at_name_inj in E.
Qed.

(** X12.  The choice between decimal and hexadecimal, made on the name, is a
    choice on the tag: a value is printed in decimal exactly for the tags
    4, 5, 6, 11, 12, 13, 14, 15 and 23, unless the row shows a string or
    is that of [AT_RANDOM]. *)
Theorem decimal_is_by_tag (str_cache : list (Z * string)) (t v : Z) :
  entry_field str_cache t v
  = match (if existsb (Z.eqb t) [16; 24; 31] then dict_get t str_cache else None) with
    | Some s => "0x" ++ hex_of_Z v ++ "  " ++ quote ++ s ++ quote
    | None =>
        if t =? 25 then "0x" ++ hex_of_Z v ++ "  (pointer to 16 random bytes)"
        else if existsb (Z.eqb t) DECIMAL_TAGS then dec_of_Z v
        else "0x" ++ hex_of_Z v
    end.
Proof.
  unfold entry_field.
  change DECIMAL_NAMES with (map at_name DECIMAL_TAGS).
  now rewrite decimal_names_are_tags.
Qed.

(** *** The rows *)

Lemma string_length_append (a b : string) :
  String.length (a ++ b) = (String.length a + String.length b)%nat.
Proof. induction a as [|c a IH]; simpl; [reflexivity | now rewrite IH]. Qed.

Lemma spaces_length (n : nat) : String.length (spaces n) = n.
Proof. induction n as [|n IH]; simpl; [reflexivity | now rewrite IH]. Qed.

Lemma ljust_length (s : string) (w : nat) :
  String.length (ljust s w) = Nat.max (String.length s) w.
Proof. unfold ljust. rewrite string_length_append, spaces_length. lia. Qed.

Lemma substring_skip (a s : string) (m : nat) :
  substring (String.length a) m (a ++ s) = substring 0 m s.
Proof. induction a as [|c a IH]; simpl; [reflexivity | exact IH]. Qed.

Lemma substring_prefix (b c : string) :
  substring 0 (String.length b) (b ++ c) = b.
Proof. induction b as [|x b IH]; simpl; [now destruct c | now rewrite IH]. Qed.

Lemma name_width_bound (entries : list (Z * Z)) (e : Z * Z) :
  In e entries -> (String.length (at_name (fst e)) <= name_width entries)%nat.
Proof.
  intro I. unfold name_width. destruct entries as [|e0 entries0] eqn:E; [contradiction|].
  rewrite <- E in *. clear E.
  induction entries as [|x entries IH]; [contradiction|].
  cbn [map fold_right]. destruct I as [-> | I]; [lia|].
  specialize (IH I). lia.
Qed.

(** X13.  The table has one row per entry, in order, after its heading, and in
    every row the separator [" : "] stands at the same column, the
    length of the longest name. *)
Theorem rows_are_aligned (source_desc : string) (entries : list (Z * Z))
  (str_cache : list (Z * string)) :
  exists rows,
    print_table source_desc entries str_cache
    = ("auxv from " ++ source_desc ++ ":") :: rows /\
    List.length rows = List.length entries /\
    Forall (colon_at (name_width entries)) rows /\
    rows = map (fun e => ljust (at_name (fst e)) (name_width entries) ++ " : "
                         ++ entry_field str_cache (fst e) (snd e)) entries.
Proof.
  exists (map (entry_row (name_width entries) str_cache) entries).
  split; [reflexivity|]. split; [apply length_map|]. split; [|reflexivity].
  apply Forall_forall. intros row I. apply in_map_iff in I as (e & <- & I).
  unfold colon_at, entry_row.
  assert (L : String.length (ljust (at_name (fst e)) (name_width entries))
              = name_width entries).
  { rewrite ljust_length. pose proof (name_width_bound entries e I). lia. }
  rewrite <- L at 1. rewrite substring_skip.
  apply (substring_prefix " : ").
Qed.

(** *** The capability block *)

Lemma bits_to_names_nil (bits : Z) (table : list (N * string)) :
  bits_to_names bits table = [] <-> no_named_bit bits table.
Proof.
  unfold no_named_bit. split.
  - intros E bit name I. destruct (Z.testbit bits (Z.of_N bit)) eqn:T; [|reflexivity].
    exfalso. assert (J : In name (bits_to_names bits table))
      by (apply bits_to_names_In; now exists bit).
    rewrite E in J. exact J.
  - intro H. destruct (bits_to_names bits table) as [|n l] eqn:E; [reflexivity|].
    exfalso. assert (J : In n (bits_to_names bits table)) by (rewrite E; now left).
    apply bits_to_names_In in J as (bit & I & T). rewrite (H bit n I) in T. discriminate.
Qed.

Lemma decode_hwcap_aarch64 (hwcap hwcap2 : Z) :
  decode_hwcap "aarch64" hwcap hwcap2 = [] <->
  bits_to_names hwcap AARCH64_HWCAP = [] /\ bits_to_names hwcap2 AARCH64_HWCAP2 = [].
Proof.
  unfold decode_hwcap. rewrite String.eqb_refl.
  generalize (bits_to_names hwcap AARCH64_HWCAP) (bits_to_names hwcap2 AARCH64_HWCAP2).
  intros [|n1 l1] [|n2 l2]; unfold append_line; cbn [app];
    (split; [try discriminate; now split | intros [E1 E2]; try discriminate; reflexivity]).
Qed.

Lemma decode_hwcap_x86 (arch : string) (hwcap hwcap2 : Z) :
  arch <> "aarch64" ->
  existsb (String.eqb arch) ["x86_64"; "i386"; "i686"] = true ->
  decode_hwcap arch hwcap hwcap2 = [] <->
  bits_to_names hwcap X86_HWCAP = [] /\ hwcap2 = 0.
Proof.
  intros NA X. unfold decode_hwcap. apply String.eqb_neq in NA. rewrite NA, X.
  generalize (bits_to_names hwcap X86_HWCAP).
  intros [|n l]; destruct (Z.eqb_spec hwcap2 0) as [Z0 | NZ]; unfold append_line; cbn [app];
    (split; [try discriminate; now split | intros [E1 E2]; try discriminate; tauto]).
Qed.

Lemma decode_hwcap_other (arch : string) (hwcap hwcap2 : Z) :
  arch <> "aarch64" ->
  existsb (String.eqb arch) ["x86_64"; "i386"; "i686"] = false ->
  decode_hwcap arch hwcap hwcap2 = [].
Proof.
  intros NA X. unfold decode_hwcap. apply String.eqb_neq in NA. now rewrite NA, X.
Qed.

Lemma decode_hwcap_nil (arch : string) (hwcap hwcap2 : Z) :
  decode_hwcap arch hwcap hwcap2 = [] <->
  (arch = "aarch64" /\ no_named_bit hwcap AARCH64_HWCAP /\
   no_named_bit hwcap2 AARCH64_HWCAP2) \/
  (In arch ["x86_64"; "i386"; "i686"] /\ no_named_bit hwcap X86_HWCAP /\ hwcap2 = 0) \/
  ~ In arch SUPPORTED_ARCH_LIST.
Proof.
  destruct (String.eqb_spec arch "aarch64") as [->|NA].
  - rewrite decode_hwcap_aarch64, !bits_to_names_nil. split; [intro H; left; tauto|].
    intros [H | [[[E | [E | [E | []]]] _] | N]]; try discriminate; [tauto|].
    exfalso. apply N. now left.
  - destruct (existsb (String.eqb arch) ["x86_64"; "i386"; "i686"]) eqn:X.
    + assert (I : In arch ["x86_64"; "i386"; "i686"]).
      { apply existsb_exists in X as (x & I & E). apply String.eqb_eq in E. now subst x. }
      rewrite (decode_hwcap_x86 arch hwcap hwcap2 NA X), bits_to_names_nil.
      split; [intro H; right; left; tauto|].
      intros [[E _] | [H | N]]; [contradiction | tauto |].
      exfalso. apply N. now right.
    + rewrite (decode_hwcap_other arch hwcap hwcap2 NA X).
      split; [|reflexivity]. intros _. right. right.
      intros [E | I]; [now symmetry in E|].
      assert (X' : existsb (String.eqb arch) ["x86_64"; "i386"; "i686"] = true).
      { apply existsb_exists. exists arch. split; [exact I | apply String.eqb_refl]. }
      rewrite X in X'. discriminate.
Qed.

(** X14.  Under [--decode-hwcap] the message "no known mapping for arch=..." is
    printed exactly when [decode_hwcap] has no line to give: for an
    architecture it does not know, but also for aarch64 when no bit of
    its two tables is set (as when the vector has no [AT_HWCAP] entry),
    and for x86 when no bit of its table is set and [AT_HWCAP2] is 0. *)
Theorem no_mapping_message (arch : string) (entries : list (Z * Z)) :
  let hw1 := first_value 17 entries in
  let hw2 := first_value 26 entries in
  print_hwcap arch entries = [no_mapping arch] <->
  (arch = "aarch64" /\ no_named_bit hw1 AARCH64_HWCAP /\ no_named_bit hw2 AARCH64_HWCAP2) \/
  (In arch ["x86_64"; "i386"; "i686"] /\ no_named_bit hw1 X86_HWCAP /\ hw2 = 0) \/
  ~ In arch SUPPORTED_ARCH_LIST.
Proof.
  intros hw1 hw2. rewrite <- decode_hwcap_nil. fold hw1 hw2.
  unfold print_hwcap. fold hw1 hw2.
  destruct (decode_hwcap arch hw1 hw2) as [|ln lines].
  - split; reflexivity.
  - split; [|discriminate]. cbn [map]. intro E. injection E as _ E. discriminate.
Qed.

(** X15.  Only the bits the table names count: two masks that agree on them
    expand to the same names. *)
Theorem unmapped_bits_are_ignored (bits bits' : Z) (table : list (N * string)) :
  (forall bit name, In (bit, name) table ->
                    Z.testbit bits (Z.of_N bit) = Z.testbit bits' (Z.of_N bit)) ->
  bits_to_names bits table = bits_to_names bits' table.
Proof.
  intro H. rewrite !bits_to_names_filter. f_equal.
  induction table as [|[bit name] table IH]; [reflexivity|].
  cbn [filter fst]. rewrite (H bit name) by now left.
  rewrite IH; [reflexivity|]. intros b n I. apply (H b n). now right.
Qed.

Lemma agree_on_table (bits bits' : Z) (table : list (N * string)) :
  forallb (fun e => Bool.eqb (Z.testbit bits (Z.of_N (fst e)))
                             (Z.testbit bits' (Z.of_N (fst e)))) table = true ->
  forall bit name, In (bit, name) table ->
                   Z.testbit bits (Z.of_N bit) = Z.testbit bits' (Z.of_N bit).
Proof.
  intros C bit name I. rewrite forallb_forall in C.
  specialize (C (bit, name) I). now apply Bool.eqb_prop in C.
Qed.

(** Bits 24 and 40 have no name in the primary table of aarch64. *)
Lemma unmapped_bits_are_ignored_witness :
  bits_to_names (2 ^ 1 + 2 ^ 24 + 2 ^ 40) AARCH64_HWCAP = bits_to_names (2 ^ 1) AARCH64_HWCAP.
Proof.
  apply (unmapped_bits_are_ignored (2 ^ 1 + 2 ^ 24 + 2 ^ 40) (2 ^ 1) AARCH64_HWCAP).
  apply agree_on_table. vm_compute. reflexivity.
Defined.

(** *** Runs of [main] *)

Lemma supported_valid (arch : string) :
  In arch SUPPORTED_ARCH_LIST <-> existsb (String.eqb arch) SUPPORTED_ARCH_LIST = true.
Proof.
  rewrite existsb_exists. split.
  - intro I. exists arch. split; [exact I | apply String.eqb_refl].
  - intros (x & I & E). apply String.eqb_eq in E. now subst x.
Qed.

Lemma supported_word_size (h : host) (arch : string) :
  In arch SUPPORTED_ARCH_LIST ->
  resolve_ul_size h (Some arch) = 4 \/ resolve_ul_size h (Some arch) = 8.
Proof.
  intro I. simpl in I. destruct I as [<- | [<- | [<- | [<- | []]]]]; cbn; tauto.
Qed.

(** X16.  In file mode with a supported hint, a file that holds the entries in
    the byte order of the host, then a pair with tag 0, then anything,
    is printed as the heading, one row per entry and, under
    [--decode-hwcap], the capability block of these entries. *)
Theorem main_prints_the_decoded_file (sys : system) (path arch : string)
  (hwcap_flag strings_flag : bool) (entries : list (Z * Z)) (v0 : Z) (rest : list byte) :
  In arch SUPPORTED_ARCH_LIST ->
  read_bytes sys path
  = Some (encode (sys_byteorder (sys_host sys))
            (Z.to_nat (resolve_ul_size (sys_host sys) (Some arch))) (entries ++ [(0, v0)])
          ++ rest)%list ->
  Forall (fun e => 0 < fst e < 2 ^ (8 * resolve_ul_size (sys_host sys) (Some arch)) /\
                   0 <= snd e < 2 ^ (8 * resolve_ul_size (sys_host sys) (Some arch)))
         entries ->
  0 <= v0 < 2 ^ (8 * resolve_ul_size (sys_host sys) (Some arch)) ->
  main sys (Args (Some path) (Some arch) hwcap_flag strings_flag)
  = Printed (print_table ("File: " ++ path ++ " (arch=" ++ arch ++ ")") entries [] ++
             (if hwcap_flag then print_hwcap arch entries else []))%list.
Proof.
  intros I R F B0. unfold main. cbn [decode_arch decode_auxv valid_choice].
  rewrite (proj1 (supported_valid arch) I). cbn [negb].
  assert (NE : String.eqb arch "" = false).
  { apply String.eqb_neq. intros ->. simpl in I.
    destruct I as [E | [E | [E | [E | []]]]]; discriminate. }
  unfold parse_auxv_path. rewrite NE, R.
  rewrite (roundtrip_native (sys_host sys) (Some arch) entries v0 rest
             (supported_word_size (sys_host sys) arch I) F B0).
  reflexivity.
Qed.

Lemma main_prints_the_decoded_file_witness :
  main (sample_system host_le64 "x86_64" (sample_auxv 8))
    (Args (Some "auxv.bin") (Some "aarch64") true false)
  = Printed (print_table "File: auxv.bin (arch=aarch64)" sample_entries [] ++
             print_hwcap "aarch64" sample_entries)%list.
Proof.
  apply (main_prints_the_decoded_file (sample_system host_le64 "x86_64" (sample_auxv 8))
           "auxv.bin" "aarch64" true false sample_entries 0 []).
  - simpl. tauto.
  - vm_compute. reflexivity.
  - repeat constructor; simpl; lia.
  - simpl. lia.
Defined.

(** The decoder on a hint: it returns entries, or it has no word size. *)
Lemma parse_auxv_hint (h : host) (arch : string) (data : list byte) :
  (~ (~ In arch SUPPORTED_ARCH_LIST /\ ~ (sizeof_c_ulong h = 4 \/ sizeof_c_ulong h = 8)) /\
   exists es, parse_auxv h data (Some arch) = Ok es) \/
  (parse_auxv h data (Some arch) = RuntimeError_UnsupportedWordSize (sizeof_c_ulong h) /\
   ~ In arch SUPPORTED_ARCH_LIST /\ ~ (sizeof_c_ulong h = 4 \/ sizeof_c_ulong h = 8)).
Proof.
  destruct (existsb (String.eqb arch) SUPPORTED_ARCH_LIST) eqn:V.
  - left. split.
    + intros [N _]. apply N. now apply supported_valid.
    + apply parse_auxv_ok, supported_word_size, supported_valid, V.
  - assert (N : ~ In arch SUPPORTED_ARCH_LIST)
      by (intro I; apply supported_valid in I; rewrite V in I; discriminate).
    pose proof (resolve_unsupported h arch N) as R.
    assert (D : sizeof_c_ulong h = 4 \/ sizeof_c_ulong h = 8 \/
                ~ (sizeof_c_ulong h = 4 \/ sizeof_c_ulong h = 8)) by lia.
    destruct D as [E | [E | E]].
    + left. split; [tauto|]. apply parse_auxv_ok. rewrite R. tauto.
    + left. split; [tauto|]. apply parse_auxv_ok. rewrite R. tauto.
    + right. rewrite parse_auxv_unsupported by (rewrite R; exact E). rewrite R. tauto.
Qed.

(** [main] in terms of the path it reads and the hint it passes. *)
Lemma main_unfold (sys : system) (a : args) :
  main sys a
  = if negb (valid_choice (decode_arch a)) then ArgumentError
    else match read_bytes sys (auxv_path a) with
         | None => OSError (auxv_path a)
         | Some data =>
             match parse_auxv (sys_host sys) data (Some (auxv_arch sys a)) with
             | Ok entries =>
                 Printed
                   (print_table
                      (match decode_auxv a with
                       | Some path => "File: " ++ path ++ " (arch=" ++ auxv_arch sys a ++ ")"
                       | None => "PID " ++ dec_of_Z (getpid sys) ++ " (arch="
                                 ++ auxv_arch sys a ++ ")"
                       end) entries
                      (match decode_auxv a with
                       | Some _ => []
                       | None => if try_strings a then fill_str_cache sys entries [] else []
                       end) ++
                    (if decode_hwcap_flag a then print_hwcap (auxv_arch sys a) entries
                     else []))%list
             | r => Raised r
             end
         end.
Proof.
  unfold main, auxv_path, auxv_arch, parse_auxv_path.
  destruct (negb (valid_choice (decode_arch a))); [reflexivity|].
  destruct (decode_auxv a) as [path|]; [destruct (decode_arch a) as [x|]|].
  - destruct (read_bytes sys path); [|reflexivity].
    destruct (parse_auxv _ _ _); reflexivity.
  - destruct (read_bytes sys path); [|reflexivity].
    destruct (parse_auxv _ _ _); reflexivity.
  - destruct (read_bytes sys "/proc/self/auxv"); [|reflexivity].
    destruct (parse_auxv _ _ _); reflexivity.
Qed.

(** X17.  Given the values of the four options, a run of [main] ends in
    one of four ways, each under its own condition.  [argparse] rejects
    [--decode-arch] exactly when it is given and is none of the four
    architectures.  Otherwise [open] raises exactly when the path - the
    file of [--decode-auxv], or /proc/self/auxv - cannot be read.
    Otherwise the decoder raises exactly when it has no word size, its
    hint being none of the four and the native [c_ulong] having neither
    4 nor 8 bytes, and its exception is that of the word size; this
    needs a machine that is none of the four, and self mode or no
    [--decode-arch].  Otherwise the table is printed.  In self mode a
    valid [--decode-arch] changes nothing. *)
Theorem main_failures (sys : system) (a : args) :
  (main sys a = ArgumentError <->
   exists x, decode_arch a = Some x /\ ~ In x SUPPORTED_ARCH_LIST) /\
  (forall p, main sys a = OSError p <->
             valid_choice (decode_arch a) = true /\ p = auxv_path a /\
             read_bytes sys (auxv_path a) = None) /\
  (forall r, main sys a = Raised r <->
             valid_choice (decode_arch a) = true /\
             read_bytes sys (auxv_path a) <> None /\ no_word_size sys a /\
             r = RuntimeError_UnsupportedWordSize (sizeof_c_ulong (sys_host sys))) /\
  ((exists lines, main sys a = Printed lines) <->
   valid_choice (decode_arch a) = true /\
   read_bytes sys (auxv_path a) <> None /\ ~ no_word_size sys a) /\
  (valid_choice (decode_arch a) = true -> no_word_size sys a ->
   ~ In (machine sys) SUPPORTED_ARCH_LIST /\
   (decode_auxv a = None \/ decode_arch a = None)) /\
  (decode_auxv a = None -> valid_choice (decode_arch a) = true ->
   main sys a = main sys (Args None None (decode_hwcap_flag a) (try_strings a))).
Proof.
  unfold no_word_size.
  split; [|split; [|split; [|split; [|split]]]].
  - rewrite main_unfold. destruct (decode_arch a) as [x|]; cbn [valid_choice].
    + destruct (existsb (String.eqb x) SUPPORTED_ARCH_LIST) eqn:V; cbn [negb].
      * split.
        -- destruct (read_bytes sys (auxv_path a)); [|discriminate].
           destruct (parse_auxv _ _ _); discriminate.
        -- intros (y & E & N). injection E as <-. exfalso. apply N. now apply supported_valid.
      * split; [|reflexivity]. intros _. exists x. split; [reflexivity|].
        intro I. apply supported_valid in I. rewrite V in I. discriminate.
    + cbn [negb]. split.
      * destruct (read_bytes sys (auxv_path a)); [|discriminate].
        destruct (parse_auxv _ _ _); discriminate.
      * intros (y & E & _). discriminate.
  - intro p. rewrite main_unfold. destruct (valid_choice (decode_arch a)); cbn [negb].
    + destruct (read_bytes sys (auxv_path a)) as [data|].
      * split; [destruct (parse_auxv _ _ _); discriminate | intros (_ & _ & E); discriminate].
      * split; [intros [= <-]; auto | intros (_ & -> & _); reflexivity].
    + split; [discriminate | intros (E & _); discriminate].
  - intro r. rewrite main_unfold. destruct (valid_choice (decode_arch a)); cbn [negb].
    + destruct (read_bytes sys (auxv_path a)) as [data|].
      * destruct (parse_auxv_hint (sys_host sys) (auxv_arch sys a) data)
          as [(Y & es & E) | (E & N)]; rewrite E.
        -- split; [discriminate | intros (_ & _ & W & _); contradiction].
        -- split.
           ++ intros [= <-]. split; [reflexivity|]. split; [discriminate|]. split; [exact N|].
              reflexivity.
           ++ intros (_ & _ & _ & ->). reflexivity.
      * split; [discriminate | intros (_ & E & _); now contradiction E].
    + split; [discriminate | intros (E & _); discriminate].
  - rewrite main_unfold. destruct (valid_choice (decode_arch a)); cbn [negb].
    + destruct (read_bytes sys (auxv_path a)) as [data|].
      * destruct (parse_auxv_hint (sys_host sys) (auxv_arch sys a) data)
          as [(Y & es & E) | (E & N)]; rewrite E.
        -- split; [|eauto]. intros _. split; [reflexivity|]. split; [discriminate | exact Y].
        -- split; [intros [lines H]; discriminate | intros (_ & _ & W); contradiction].
      * split; [intros [lines H]; discriminate | intros (_ & E & _); now contradiction E].
    + split; [intros [lines H]; discriminate | intros (E & _); discriminate].
  - intros V [N _]. unfold auxv_arch in N.
    destruct (decode_auxv a) as [path|]; [|split; [exact N | now left]].
    destruct (decode_arch a) as [x|]; [|split; [exact N | now right]].
    exfalso. cbn [valid_choice] in V.
    destruct (String.eqb_spec x "") as [-> | NE]; [discriminate V|].
    apply N. now apply supported_valid.
  - intros E V. unfold main. rewrite E, V. reflexivity.
Qed.

(** Self mode on a machine that is none of the four, with a native word
    of 2 bytes; and file mode on a file that cannot be opened. *)
Lemma main_failures_witness :
  main (sample_system (Host 2 Little) "riscv64" (sample_auxv 8)) (Args None None true false)
  = Raised (RuntimeError_UnsupportedWordSize 2) /\
  main (System host_le64 "aarch64" 4242 (fun _ => None) (fun _ => None))
    (Args (Some "/no/such/file") None false false)
  = OSError "/no/such/file".
Proof.
  split.
  - apply (proj1 (proj2 (proj2 (main_failures
             (sample_system (Host 2 Little) "riscv64" (sample_auxv 8))
             (Args None None true false))))).
    split; [reflexivity|]. split; [discriminate|]. split; [|reflexivity].
    split; [|simpl; lia].
    simpl. intros [H | [H | [H | [H | []]]]]; discriminate.
  - apply (proj1 (proj2 (main_failures
             (System host_le64 "aarch64" 4242 (fun _ => None) (fun _ => None))
             (Args (Some "/no/such/file") None false false)))).
    split; [reflexivity|]. split; reflexivity.
Defined.

End AuxvMainFacts.

(* ================================================================= *)
(** ** The [file] line *)

Module InspectInfoFacts.
Import Re ReFacts Binary64 Binary64Facts Inspect InspectMain InspectInfo.

Local Open Scope string_scope.

Local Notation "'chars'" := list_ascii_of_string.
Local Notation "'text_of'" := string_of_list_ascii.

(** *** Strings and their characters *)

Lemma chars_app (a b : string) : chars (a ++ b) = (chars a ++ chars b)%list.
Proof. induction a as [|c a IH]; simpl; [reflexivity | now rewrite IH]. Qed.

Lemma text_of_app (x y : list ascii) : text_of (x ++ y) = text_of x ++ text_of y.
Proof. induction x as [|c x IH]; simpl; [reflexivity | now rewrite IH]. Qed.

Lemma chars_inj (a b : string) : chars a = chars b -> a = b.
Proof.
  intro E. rewrite <- (string_of_list_ascii_of_string a), E.
  apply string_of_list_ascii_of_string.
Qed.

Lemma text_of_chars_eq (x : list ascii) (s : string) : text_of x = s <-> x = chars s.
Proof.
  split; intro E.
  - rewrite <- E. symmetry. apply list_ascii_of_string_of_list_ascii.
  - rewrite E. apply string_of_list_ascii_of_string.
Qed.

(** *** Prefixes and occurrences *)

Lemma drop_prefix_iff (p s r : list ascii) : drop_prefix p s = Some r <-> s = (p ++ r)%list.
Proof.
  revert s. induction p as [|a p IH]; intro s; simpl.
  - split; [now intros [= ->] | now intros ->].
  - destruct s as [|b s]; [split; discriminate|].
    destruct (Ascii.eqb_spec a b) as [->|N].
    + rewrite IH. split; [now intros -> | now intros [= ->]].
    + split; [discriminate | intros [= <- _]; contradiction].
Qed.

Lemma drop_prefix_app (p r : list ascii) : drop_prefix p (p ++ r) = Some r.
Proof. now apply drop_prefix_iff. Qed.

Lemma starts_with_drop (p s : list ascii) :
  starts_with p s = true <-> exists r, drop_prefix p s = Some r.
Proof.
  revert s. induction p as [|a p IH]; intro s; simpl.
  - split; [eauto | reflexivity].
  - destruct s as [|b s]; [split; [discriminate | now intros [r H]]|].
    destruct (Ascii.eqb a b); simpl; [apply IH | split; [discriminate | now intros [r H]]].
Qed.

Lemma starts_with_iff (p s : list ascii) :
  starts_with p s = true <-> exists r, s = (p ++ r)%list.
Proof.
  rewrite starts_with_drop. split; intros [r H]; exists r; now apply drop_prefix_iff.
Qed.

Lemma occurs_iff (p s : list ascii) :
  occurs p s = true <-> exists a b, s = (a ++ p ++ b)%list.
Proof.
  induction s as [|c s IH]; cbn [occurs].
  - rewrite orb_false_r, starts_with_iff. split.
    + intros [r ->]. now exists [], r.
    + intros (a & b & E). symmetry in E. apply app_eq_nil in E as [-> E]. now exists b.
  - rewrite orb_true_iff, starts_with_iff, IH. split.
    + intros [[r ->] | (a & b & ->)]; [now exists [], r | now exists (c :: a), b].
    + intros (a & b & E). destruct a as [|x a]; [left; now exists b|].
      right. injection E as _ ->. now exists a, b.
Qed.

Lemma occurs_factor (p a t b : list ascii) :
  occurs p t = true -> occurs p (a ++ t ++ b) = true.
Proof.
  rewrite !occurs_iff. intros (x & y & ->). exists (a ++ x)%list, (y ++ b)%list.
  now rewrite <- !app_assoc.
Qed.

Lemma contains_iff (m s : string) :
  contains m s = true <-> exists a b, s = a ++ m ++ b.
Proof.
  unfold contains. rewrite occurs_iff. split.
  - intros (a & b & E). exists (text_of a), (text_of b).
    apply chars_inj. now rewrite !chars_app, !list_ascii_of_string_of_list_ascii.
  - intros (a & b & ->). exists (chars a), (chars b). now rewrite !chars_app.
Qed.

(** *** What one item takes *)

Lemma match_lit (l : string) (items : list item) (s : list ascii) :
  match_items (Lit l :: items) s
  = match drop_prefix (chars l) s with
    | Some s' => option_map (app (chars l)) (match_items items s')
    | None => None
    end.
Proof. reflexivity. Qed.

Lemma match_many (cls : ascii -> bool) (items : list item) (s : list ascii) :
  match_items (Many cls :: items) s
  = match s with
    | [] => None
    | c :: s' =>
        if cls c then
          match match_items (Many cls :: items) s' with
          | Some g => Some (c :: g)
          | None => option_map (cons c) (match_items items s')
          end
        else None
    end.
Proof. destruct s; reflexivity. Qed.

Lemma match_or_nil (items : list item) (s : list ascii) :
  match_items (Or [] :: items) s = None.
Proof. reflexivity. Qed.

Lemma match_or_cons (l : string) (ls : list string) (items : list item) (s : list ascii) :
  match_items (Or (l :: ls) :: items) s
  = match drop_prefix (chars l) s with
    | Some s' =>
        match match_items items s' with
        | Some g => Some (chars l ++ g)%list
        | None => match_items (Or ls :: items) s
        end
    | None => match_items (Or ls :: items) s
    end.
Proof. reflexivity. Qed.

Lemma lit_inv (l : string) (items : list item) (s g : list ascii) :
  match_items (Lit l :: items) s = Some g ->
  exists g' s', s = (chars l ++ s')%list /\ g = (chars l ++ g')%list /\
                match_items items s' = Some g'.
Proof.
  rewrite match_lit. destruct (drop_prefix (chars l) s) as [s'|] eqn:D; [|discriminate].
  apply drop_prefix_iff in D.
  destruct (match_items items s') as [g'|] eqn:M; [|discriminate].
  intros [= <-]. now exists g', s'.
Qed.

Lemma many_inv (cls : ascii -> bool) (items : list item) (s : list ascii) :
  forall g, match_items (Many cls :: items) s = Some g ->
  exists r g' s', s = (r ++ s')%list /\ g = (r ++ g')%list /\ run cls r /\
                  match_items items s' = Some g' /\
                  (items = [] -> halts cls s').
Proof.
  induction s as [|c s IH]; intro g; rewrite match_many; [discriminate|].
  destruct (cls c) eqn:C; [|discriminate].
  destruct (match_items (Many cls :: items) s) as [g1|] eqn:M.
  - intros [= <-]. destruct (IH g1 eq_refl) as (r & g' & s' & -> & -> & [N F] & M' & H).
    exists (c :: r), g', s'. repeat split; try assumption; try discriminate.
    simpl. now rewrite C, F.
  - destruct (match_items items s) as [g'|] eqn:M'; [|discriminate].
    intros [= <-]. exists [c], g', s. repeat split; try assumption; try discriminate.
    + simpl. now rewrite C.
    + intros ->. destruct s as [|d s]; [exact I|]. simpl.
      rewrite match_many in M. destruct (cls d); [|reflexivity].
      destruct (match_items [Many cls] s); discriminate.
Qed.

Lemma or_inv (ls : list string) (items : list item) (s : list ascii) :
  forall g, match_items (Or ls :: items) s = Some g ->
  exists l g' s', In l ls /\ s = (chars l ++ s')%list /\ g = (chars l ++ g')%list /\
                  match_items items s' = Some g'.
Proof.
  induction ls as [|l ls IH]; intro g; [now rewrite match_or_nil|].
  rewrite match_or_cons.
  assert (R : match_items (Or ls :: items) s = Some g ->
              exists l0 g' s', In l0 (l :: ls) /\ s = (chars l0 ++ s')%list /\
                               g = (chars l0 ++ g')%list /\ match_items items s' = Some g').
  { intro H. destruct (IH g H) as (l0 & g' & s' & I0 & H'). exists l0, g', s'.
    split; [now right | exact H']. }
  destruct (drop_prefix (chars l) s) as [s'|] eqn:D; [|exact R].
  apply drop_prefix_iff in D.
  destruct (match_items items s') as [g'|] eqn:M; [|exact R].
  intros [= <-]. exists l, g', s'. repeat split; try assumption. now left.
Qed.

(** *** What a pattern captures *)

Lemma re_match_inv (p : capture) (s g : list ascii) :
  re_match p s = Some g ->
  exists s', s = (chars (before p) ++ s')%list /\ match_items (group p) s' = Some g.
Proof.
  unfold re_match. destruct (drop_prefix (chars (before p)) s) as [s'|] eqn:D; [|discriminate].
  apply drop_prefix_iff in D. intro M. now exists s'.
Qed.

Lemma re_search_inv (p : capture) (s : list ascii) :
  forall g, re_search p s = Some g ->
  exists a t, s = (a ++ t)%list /\ re_match p t = Some g.
Proof.
  induction s as [|c s IH]; intro g; cbn [re_search].
  - destruct (re_match p []) as [g'|] eqn:M; [|discriminate].
    intros [= <-]. now exists [], [].
  - destruct (re_match p (c :: s)) as [g'|] eqn:M.
    + intros [= <-]. now exists [], (c :: s).
    + intro H. destruct (IH g H) as (a & t & -> & M'). now exists (c :: a), t.
Qed.

Lemma re_search_none (p : capture) (s : list ascii) :
  (forall a t, s = (a ++ t)%list -> re_match p t = None) -> re_search p s = None.
Proof.
  intro H. destruct (re_search p s) as [g|] eqn:E; [|reflexivity].
  apply re_search_inv in E as (a & t & -> & M). now rewrite (H a t eq_refl) in M.
Qed.

Lemma nil_inv (s g : list ascii) : match_items [] s = Some g -> g = [].
Proof. now intros [= <-]. Qed.

Lemma many_only_inv (pre : string) (cls : ascii -> bool) (t g : list ascii) :
  re_match (Capture pre [Many cls]) t = Some g ->
  exists b, t = (chars pre ++ g ++ b)%list /\ run cls g /\ halts cls b.
Proof.
  intro H. apply re_match_inv in H as (s' & -> & M). cbn [before group] in *.
  apply many_inv in M as (r & g' & b & -> & -> & R & M & H).
  apply nil_inv in M as ->. rewrite app_nil_r. exists b. auto.
Qed.

Lemma lit_many_inv (pre l : string) (cls : ascii -> bool) (t g : list ascii) :
  re_match (Capture pre [Lit l; Many cls]) t = Some g ->
  exists r b, t = (chars pre ++ chars l ++ r ++ b)%list /\ g = (chars l ++ r)%list /\
              run cls r /\ halts cls b.
Proof.
  intro H. apply re_match_inv in H as (s' & -> & M). cbn [before group] in *.
  apply lit_inv in M as (g1 & s1 & -> & -> & M).
  apply many_inv in M as (r & g' & b & -> & -> & R & M & H).
  apply nil_inv in M as ->. rewrite app_nil_r. exists r, b. auto.
Qed.

Lemma version_inv (t g : list ascii) :
  re_match ELF_VERSION t = Some g ->
  exists d x b, t = (g ++ b)%list /\
                g = (chars "version " ++ d ++ chars " (" ++ x ++ chars ")")%list /\
                run isdigit d /\ run notclose x.
Proof.
  intro H. apply re_match_inv in H as (s' & -> & M). cbn [before group ELF_VERSION] in *.
  apply lit_inv in M as (g1 & s1 & -> & -> & M).
  apply many_inv in M as (d & g2 & s2 & -> & -> & D & M & _).
  apply lit_inv in M as (g3 & s3 & -> & -> & M).
  apply many_inv in M as (x & g4 & s4 & -> & -> & X & M & _).
  apply lit_inv in M as (g5 & s5 & -> & -> & M).
  apply nil_inv in M as ->.
  exists d, x, s5. repeat split; try apply D; try apply X.
  rewrite <- !app_assoc. reflexivity.
Qed.

Lemma arch_inv (t g : list ascii) :
  re_match ARCH t = Some g ->
  exists l b, In l ["ARM aarch64"; "x86-64"; "i386"; "MIPS"] /\ g = chars l /\
              t = (g ++ b)%list.
Proof.
  intro H. apply re_match_inv in H as (s' & -> & M). cbn [before group ARCH] in *.
  apply or_inv in M as (l & g' & b & I & -> & -> & M).
  apply nil_inv in M as ->. rewrite app_nil_r. now exists l, b.
Qed.

(** *** The fields of [parse_file_info] *)

Lemma binary_format_eq (file_info : string) :
  binary_format (parse_file_info file_info)
  = group_or (re_match BINARY_FORMAT (chars (without_name file_info))) "unknown".
Proof. reflexivity. Qed.

Lemma arch_eq (file_info : string) :
  arch (parse_file_info file_info)
  = group_or (re_search ARCH (chars (without_name file_info))) "unknown".
Proof. reflexivity. Qed.

Lemma elf_version_eq (file_info : string) :
  elf_version (parse_file_info file_info)
  = group_or (re_search ELF_VERSION (chars (without_name file_info))) "unknown".
Proof. reflexivity. Qed.

Lemma interpreter_eq (file_info : string) :
  interpreter (parse_file_info file_info)
  = match re_search INTERPRETER (chars (without_name file_info)) with
    | Some g => strip (text_of g)
    | None => "none"
    end.
Proof. reflexivity. Qed.

Lemma android_api_eq (file_info : string) :
  android_api (parse_file_info file_info)
  = group_or (re_search ANDROID_API (chars (without_name file_info))) "none".
Proof. reflexivity. Qed.

Lemma builder_eq (file_info : string) :
  builder (parse_file_info file_info)
  = group_or (re_search BUILDER (chars (without_name file_info))) "unknown".
Proof. reflexivity. Qed.

Lemma build_id_sha1_eq (file_info : string) :
  build_id_sha1 (parse_file_info file_info)
  = group_or (re_search BUILD_ID (chars (without_name file_info))) "none".
Proof. reflexivity. Qed.

Lemma run_all (cls : ascii -> bool) (r : list ascii) : run cls r -> all cls (text_of r).
Proof.
  intros [N F]. split.
  - intro E. apply text_of_chars_eq in E. now subst.
  - now rewrite list_ascii_of_string_of_list_ascii.
Qed.

Lemma halts_stops (cls : ascii -> bool) (b : list ascii) : halts cls b -> stops cls (text_of b).
Proof. unfold stops. now rewrite list_ascii_of_string_of_list_ascii. Qed.

Lemma text_split (s : string) (x y : list ascii) :
  chars s = (x ++ y)%list -> s = text_of x ++ text_of y.
Proof. intro E. rewrite <- text_of_app, <- E. symmetry. apply string_of_list_ascii_of_string. Qed.

(** X18.  Whatever the line, each captured field is either its default
    or taken from the text (the line without its filename prefix): the
    format is the start of the text, from "ELF " to the first comma; the
    architecture is one of the four names, and occurs in the text; the
    version is "version ", digits, " (", text without ")" and ")"; the
    interpreter, the API level, the builder and the build id are the run
    of their class that follows an occurrence of their keyword, as far as
    the class goes - the interpreter stripped. *)
Theorem fields_are_taken_from_the_text (file_info : string) :
  let text := without_name file_info in
  let r := parse_file_info file_info in
  (binary_format r = "unknown" \/
   exists f b, text = "ELF " ++ f ++ b /\ binary_format r = "ELF " ++ f /\
               all notcomma f /\ stops notcomma b) /\
  (arch r = "unknown" \/
   In (arch r) ["ARM aarch64"; "x86-64"; "i386"; "MIPS"] /\ contains (arch r) text = true) /\
  (elf_version r = "unknown" \/
   exists d x, elf_version r = "version " ++ d ++ " (" ++ x ++ ")" /\
               all isdigit d /\ all notclose x /\ contains (elf_version r) text = true) /\
  (interpreter r = "none" \/
   exists a p b, text = a ++ "interpreter " ++ p ++ b /\ interpreter r = strip p /\
                 all notcomma p /\ stops notcomma b) /\
  (android_api r = "none" \/
   exists a d b, text = a ++ "for Android " ++ d ++ b /\ android_api r = "Android " ++ d /\
                 all isdigit d /\ stops isdigit b) /\
  (builder r = "unknown" \/
   exists a p b, text = a ++ "built by NDK " ++ p ++ b /\ builder r = "NDK " ++ p /\
                 all notcomma p /\ stops notcomma b) /\
  (build_id_sha1 r = "none" \/
   exists a p b, text = a ++ "BuildID[sha1]=" ++ p ++ b /\ build_id_sha1 r = p /\
                 all ishex p /\ stops ishex b).
Proof.
  intros text r. subst r.
  rewrite binary_format_eq, arch_eq, elf_version_eq, interpreter_eq, android_api_eq,
    builder_eq, build_id_sha1_eq.
  fold text. unfold group_or.
  split; [|split; [|split; [|split; [|split; [|split]]]]].
  - destruct (re_match BINARY_FORMAT (chars text)) as [g|] eqn:M; [right | now left].
    apply lit_many_inv in M as (f & b & E & -> & R & H).
    exists (text_of f), (text_of b). split; [|split; [|split]].
    + apply (text_split text (chars "ELF " ++ f) b). now rewrite <- app_assoc.
    + now rewrite text_of_app.
    + now apply run_all.
    + now apply halts_stops.
  - destruct (re_search ARCH (chars text)) as [g|] eqn:M; [right | now left].
    apply re_search_inv in M as (a & t & E & M).
    apply arch_inv in M as (l & b & I & -> & ->).
    rewrite string_of_list_ascii_of_string. split; [exact I|].
    unfold contains. rewrite E. apply occurs_iff. now exists a, b.
  - destruct (re_search ELF_VERSION (chars text)) as [g|] eqn:M; [right | now left].
    apply re_search_inv in M as (a & t & E & M).
    apply version_inv in M as (d & x & b & -> & G & D & X).
    exists (text_of d), (text_of x). split; [|split; [|split]].
    + rewrite G, !text_of_app. reflexivity.
    + now apply run_all.
    + now apply run_all.
    + unfold contains. rewrite list_ascii_of_string_of_list_ascii, E.
      apply occurs_iff. now exists a, b.
  - destruct (re_search INTERPRETER (chars text)) as [g|] eqn:M; [right | now left].
    apply re_search_inv in M as (a & t & E & M).
    apply many_only_inv in M as (b & -> & R & H).
    exists (text_of a), (text_of g), (text_of b). split; [|split; [|split]].
    + rewrite (text_split text _ _ E), !text_of_app. reflexivity.
    + reflexivity.
    + now apply run_all.
    + now apply halts_stops.
  - destruct (re_search ANDROID_API (chars text)) as [g|] eqn:M; [right | now left].
    apply re_search_inv in M as (a & t & E & M).
    apply lit_many_inv in M as (d & b & -> & -> & R & H).
    exists (text_of a), (text_of d), (text_of b). split; [|split; [|split]].
    + rewrite (text_split text _ _ E), !text_of_app. reflexivity.
    + now rewrite text_of_app.
    + now apply run_all.
    + now apply halts_stops.
  - destruct (re_search BUILDER (chars text)) as [g|] eqn:M; [right | now left].
    apply re_search_inv in M as (a & t & E & M).
    apply lit_many_inv in M as (d & b & -> & -> & R & H).
    exists (text_of a), (text_of d), (text_of b). split; [|split; [|split]].
    + rewrite (text_split text _ _ E), !text_of_app. reflexivity.
    + now rewrite text_of_app.
    + now apply run_all.
    + now apply halts_stops.
  - destruct (re_search BUILD_ID (chars text)) as [g|] eqn:M; [right | now left].
    apply re_search_inv in M as (a & t & E & M).
    apply many_only_inv in M as (b & -> & R & H).
    exists (text_of a), (text_of g), (text_of b). split; [|split; [|split]].
    + rewrite (text_split text _ _ E), !text_of_app. reflexivity.
    + reflexivity.
    + now apply run_all.
    + now apply halts_stops.
Qed.

(** *** What [strip] and the removal of the name leave *)

Lemma lstrip_suffix (s : list ascii) :
  exists w, s = (w ++ lstrip s)%list /\ forallb isspace w = true.
Proof.
  induction s as [|c s (w & E & F)]; [now exists []|]. simpl.
  destruct (isspace c) eqn:C; [|now exists []].
  exists (c :: w). simpl. rewrite C, F. split; [now rewrite <- E | reflexivity].
Qed.

Lemma forallb_rev (f : ascii -> bool) (l : list ascii) : forallb f (rev l) = forallb f l.
Proof.
  induction l as [|c l IH]; [reflexivity|]. simpl.
  rewrite forallb_app, IH. simpl. rewrite andb_true_r. apply andb_comm.
Qed.

Lemma chars_strip (s : string) :
  chars (strip s) = rev (lstrip (rev (lstrip (chars s)))).
Proof. unfold strip. apply list_ascii_of_string_of_list_ascii. Qed.

Lemma strip_factor (s : string) :
  exists w1 w2, chars s = (w1 ++ chars (strip s) ++ w2)%list /\
                forallb isspace w1 = true /\ forallb isspace w2 = true.
Proof.
  rewrite chars_strip.
  destruct (lstrip_suffix (chars s)) as (w1 & E1 & F1).
  destruct (lstrip_suffix (rev (lstrip (chars s)))) as (w2 & E2 & F2).
  exists w1, (rev w2). split; [|split; [exact F1 | now rewrite forallb_rev]].
  rewrite <- rev_app_distr, <- E2, rev_involutive. exact E1.
Qed.

Lemma after_colon_suffix (s : list ascii) : exists a, s = (a ++ after_colon s)%list.
Proof.
  induction s as [|c s [a E]]; [now exists []|]. simpl.
  destruct (Ascii.eqb c ":"); [now exists [c]|].
  exists (c :: a). simpl. now rewrite <- E.
Qed.

Lemma without_name_factor (file_info : string) :
  exists a b, chars file_info = (a ++ chars (without_name file_info) ++ b)%list.
Proof.
  unfold without_name. destruct (contains ":" file_info).
  - destruct (after_colon_suffix (chars file_info)) as [a E].
    destruct (strip_factor (text_of (after_colon (chars file_info)))) as (w1 & w2 & S & _).
    rewrite list_ascii_of_string_of_list_ascii in S.
    exists (a ++ w1)%list, w2. rewrite <- app_assoc, <- S. exact E.
  - exists [], []. now rewrite app_nil_r.
Qed.

Lemma contains_without_name (m file_info : string) :
  contains m file_info = false -> contains m (without_name file_info) = false.
Proof.
  unfold contains. intro H.
  destruct (occurs (chars m) (chars (without_name file_info))) eqn:O; [|reflexivity].
  destruct (without_name_factor file_info) as (a & b & E).
  rewrite E, (occurs_factor _ a _ b O) in H. discriminate.
Qed.

(** *** A line with none of the markers *)

Lemma re_search_marker (p : capture) (m : string) (s : list ascii) :
  (forall t g, re_match p t = Some g -> exists b, t = (chars m ++ b)%list) ->
  occurs (chars m) s = false -> re_search p s = None.
Proof.
  intros H O. apply re_search_none. intros a t -> .
  destruct (re_match p t) as [g|] eqn:M; [|reflexivity].
  destruct (H t g M) as [b ->].
  assert (O' : occurs (chars m) (a ++ chars m ++ b) = true)
    by (apply occurs_iff; now exists a, b).
  rewrite O' in O. discriminate.
Qed.

Lemma re_search_arch_none (s : list ascii) :
  (forall m, In m ["ARM aarch64"; "x86-64"; "i386"; "MIPS"] -> occurs (chars m) s = false) ->
  re_search ARCH s = None.
Proof.
  intro H. apply re_search_none. intros a t ->.
  destruct (re_match ARCH t) as [g|] eqn:M; [|reflexivity].
  apply arch_inv in M as (l & b & I & -> & ->).
  assert (O : occurs (chars l) (a ++ chars l ++ b) = true)
    by (apply occurs_iff; now exists a, b).
  rewrite (H l I) in O. discriminate.
Qed.

Lemma lit_many_head (pre l : string) (cls : ascii -> bool) (t g : list ascii) :
  re_match (Capture pre [Lit l; Many cls]) t = Some g ->
  exists b, t = (chars (pre ++ l) ++ b)%list.
Proof.
  intro M. apply lit_many_inv in M as (r & b & -> & _).
  exists (r ++ b)%list. now rewrite chars_app, <- app_assoc.
Qed.

Lemma many_only_head (pre : string) (cls : ascii -> bool) (t g : list ascii) :
  re_match (Capture pre [Many cls]) t = Some g -> exists b, t = (chars pre ++ b)%list.
Proof. intro M. apply many_only_inv in M as (b & -> & _). now exists (g ++ b)%list. Qed.

Lemma version_head (t g : list ascii) :
  re_match ELF_VERSION t = Some g -> exists b, t = (chars "version " ++ b)%list.
Proof.
  intro M. apply version_inv in M as (d & x & b & -> & -> & _).
  exists (d ++ chars " (" ++ x ++ chars ")" ++ b)%list. now rewrite <- !app_assoc.
Qed.

(** X19.  A line in which none of the marker texts occurs - such as the
    "Error: ..." text [get_file_info] returns when [file] fails - parses
    to the defaults: "unknown" for the format, the architecture, the
    version and the builder, "none" for the interpreter, the API level
    and the build id, and all three flags off. *)
Theorem unrecognised_line_gives_defaults (file_info : string) :
  (forall m, In m MARKERS -> contains m file_info = false) ->
  parse_file_info file_info = UNRECOGNISED.
Proof.
  intro H.
  assert (H' : forall m, In m MARKERS -> contains m (without_name file_info) = false)
    by (intros m I; apply contains_without_name; auto).
  assert (O : forall m, In m MARKERS -> occurs (chars m) (chars (without_name file_info)) = false)
    by exact H'.
  unfold parse_file_info, UNRECOGNISED.
  assert (E1 : re_match BINARY_FORMAT (chars (without_name file_info)) = None).
  { destruct (re_match BINARY_FORMAT _) as [g|] eqn:M; [|reflexivity].
    apply lit_many_head in M as [b E].
    assert (O1 : occurs (chars "ELF ") (chars (without_name file_info)) = true)
      by (apply occurs_iff; exists [], b; exact E).
    rewrite O in O1; [discriminate | simpl; tauto]. }
  assert (E2 : re_search ARCH (chars (without_name file_info)) = None).
  { apply re_search_arch_none. intros m I. apply O. simpl in *. tauto. }
  assert (E3 : re_search ELF_VERSION (chars (without_name file_info)) = None).
  { apply (re_search_marker _ "version "); [exact version_head | apply O; simpl; tauto]. }
  assert (E4 : re_search INTERPRETER (chars (without_name file_info)) = None).
  { apply (re_search_marker _ "interpreter ");
      [exact (many_only_head _ _) | apply O; simpl; tauto]. }
  assert (E5 : re_search ANDROID_API (chars (without_name file_info)) = None).
  { apply (re_search_marker _ "for Android ");
      [exact (lit_many_head "for " "Android " _) | apply O; simpl; tauto]. }
  assert (E6 : re_search BUILDER (chars (without_name file_info)) = None).
  { apply (re_search_marker _ "built by NDK ");
      [exact (lit_many_head "built by " "NDK " _) | apply O; simpl; tauto]. }
  assert (E7 : re_search BUILD_ID (chars (without_name file_info)) = None).
  { apply (re_search_marker _ "BuildID[sha1]=");
      [exact (many_only_head _ _) | apply O; simpl; tauto]. }
  rewrite E1, E2, E3, E4, E5, E6, E7.
  rewrite (H' "dynamically linked"), (H' "with debug_info"), (H' "stripped")
    by (simpl; tauto).
  reflexivity.
Qed.

(** The text [get_file_info] returns when [file] exits with an error. *)
Lemma unrecognised_line_gives_defaults_witness :
  parse_file_info "Error: Command '['file', 'x265']' returned non-zero exit status 1."
  = UNRECOGNISED.
Proof.
  apply unrecognised_line_gives_defaults.
  intros m I. simpl in I.
  repeat (destruct I as [<- | I]; [vm_compute; reflexivity|]). contradiction.
Defined.

(** *** The filename prefix *)

Lemma after_colon_app (n t : list ascii) :
  occurs [":"%char] n = false -> after_colon (n ++ ":"%char :: t) = t.
Proof.
  induction n as [|c n IH]; intro H; simpl.
  - reflexivity.
  - cbn [occurs starts_with] in H. apply orb_false_iff in H as [H1 H2].
    rewrite andb_true_r in H1. rewrite Ascii.eqb_sym, H1. now apply IH.
Qed.

Lemma without_name_colon (name t : string) :
  contains ":" name = false -> without_name (name ++ ":" ++ t) = strip t.
Proof.
  intro H. unfold without_name.
  assert (C : contains ":" (name ++ ":" ++ t) = true)
    by (apply contains_iff; now exists name, t).
  rewrite C, chars_app. cbn [append list_ascii_of_string].
  rewrite (after_colon_app _ _ H). now rewrite string_of_list_ascii_of_string.
Qed.

(** X20.  The prefix removed is what stands before the first colon: the
    name of the file, when it has no colon itself, plays no part in the
    result, and the text parsed is the rest of the line, stripped. *)
Theorem file_name_is_dropped (name1 name2 t : string) :
  contains ":" name1 = false -> contains ":" name2 = false ->
  without_name (name1 ++ ":" ++ t) = strip t /\
  parse_file_info (name1 ++ ":" ++ t) = parse_file_info (name2 ++ ":" ++ t).
Proof.
  intros H1 H2. split; [now apply without_name_colon|].
  unfold parse_file_info. now rewrite !without_name_colon.
Qed.

Lemma file_name_is_dropped_witness :
  without_name ("libx265.so" ++ ":" ++ " ELF 64-bit LSB shared object, ARM aarch64 ")
  = strip " ELF 64-bit LSB shared object, ARM aarch64 " /\
  parse_file_info ("libx265.so" ++ ":" ++ " ELF 64-bit LSB shared object, ARM aarch64 ")
  = parse_file_info ("/data/local/tmp/x265" ++ ":" ++ " ELF 64-bit LSB shared object, ARM aarch64 ").
Proof. apply file_name_is_dropped; reflexivity. Defined.

(** *** The first occurrence of a keyword *)

Lemma match_run (cls : ascii -> bool) (p b : list ascii) :
  run cls p -> halts cls b -> match_items [Many cls] (p ++ b) = Some p.
Proof.
  intros [N F] H. induction p as [|c p IH]; [contradiction|].
  simpl in F. apply andb_true_iff in F as [C F].
  rewrite <- app_comm_cons, match_many, C.
  destruct p as [|d p].
  - cbn [app]. destruct b as [|e b]; [reflexivity|].
    rewrite match_many. simpl in H. now rewrite H.
  - now rewrite IH.
Qed.

Lemma re_match_many (pre : string) (cls : ascii -> bool) (p b : list ascii) :
  run cls p -> halts cls b ->
  re_match (Capture pre [Many cls]) (chars pre ++ p ++ b) = Some p.
Proof.
  intros R H. unfold re_match. cbn [before group].
  rewrite drop_prefix_app. now apply match_run.
Qed.

Lemma re_match_lit_many (pre l : string) (cls : ascii -> bool) (p b : list ascii) :
  run cls p -> halts cls b ->
  re_match (Capture pre [Lit l; Many cls]) (chars pre ++ chars l ++ p ++ b)
  = Some (chars l ++ p)%list.
Proof.
  intros R H. unfold re_match. cbn [before group].
  rewrite drop_prefix_app, match_lit, drop_prefix_app, (match_run _ _ _ R H). reflexivity.
Qed.

Lemma firstn_prefix (m b : list ascii) : firstn (List.length m) (m ++ b) = m.
Proof.
  rewrite firstn_app, Nat.sub_diag, firstn_all. simpl. apply app_nil_r.
Qed.

(** A word that begins after the start of [u ++ m] and before [m] ends
    before the last character of [m]. *)
Lemma prefix_trim (m u b b' : list ascii) :
  u <> [] -> (m ++ b')%list = (u ++ m ++ b)%list ->
  exists c, (u ++ removelast m)%list = (m ++ c)%list.
Proof.
  intros N E. destruct (list_eq_dec ascii_dec m []) as [-> | M].
  - exists u. simpl. apply app_nil_r.
  - pose proof (app_removelast_last " "%char M) as Em.
    remember (removelast m) as r eqn:Hr. remember (last m " "%char) as x eqn:Hx.
    clear Hr Hx M. subst m.
    exists (skipn (List.length (r ++ [x])) (u ++ r)).
    rewrite <- (firstn_skipn (List.length (r ++ [x])) (u ++ r)) at 1.
    f_equal.
    transitivity (firstn (List.length (r ++ [x])) ((r ++ [x]) ++ b'));
      [|apply firstn_prefix].
    rewrite E.
    replace (u ++ (r ++ [x]) ++ b)%list with ((u ++ r) ++ x :: b)%list
      by (now rewrite <- !app_assoc).
    rewrite (firstn_app _ (u ++ r)).
    replace (List.length (r ++ [x]) - List.length (u ++ r))%nat with 0%nat.
    + now rewrite firstn_O, app_nil_r.
    + rewrite !length_app. destruct u; [contradiction | simpl; lia].
Qed.

Lemma re_search_skip (p : capture) (m a s : list ascii) :
  (forall t g, re_match p t = Some g -> exists b, t = (m ++ b)%list) ->
  (exists b, s = (m ++ b)%list) ->
  occurs m (a ++ removelast m) = false ->
  re_search p (a ++ s) = re_search p s.
Proof.
  intros H [b ->]. induction a as [|x a IH]; intro O; [reflexivity|].
  cbn [occurs app] in O. apply orb_false_iff in O as [O1 O2].
  cbn [re_search app].
  destruct (re_match p (x :: a ++ m ++ b)) as [g|] eqn:M; [exfalso | now apply IH].
  destruct (H _ _ M) as [b' E].
  destruct (prefix_trim m (x :: a) b b') as [c C]; [discriminate | symmetry; exact E |].
  assert (S : starts_with m ((x :: a) ++ removelast m) = true)
    by (apply starts_with_iff; now exists c).
  cbn [app] in S. rewrite S in O1. discriminate.
Qed.

Lemma re_search_here (p : capture) (s g : list ascii) :
  re_match p s = Some g -> re_search p s = Some g.
Proof. intro M. destruct s; cbn [re_search]; now rewrite M. Qed.

Lemma all_run (cls : ascii -> bool) (p : string) : all cls p -> run cls (chars p).
Proof.
  intros [N F]. split; [|exact F].
  intro E. apply N. apply chars_inj. now rewrite E.
Qed.

Lemma chars_but_last (m : string) : chars (but_last m) = removelast (chars m).
Proof. apply list_ascii_of_string_of_list_ascii. Qed.

(** The four patterns at the first occurrence of their keyword. *)
Lemma keyword_search (pre l m : string) (cls : ascii -> bool) (a p b : string) :
  m = pre ++ l ->
  contains m (a ++ but_last m) = false ->
  all cls p -> stops cls b ->
  re_search (Capture pre [Lit l; Many cls]) (chars (a ++ m ++ p ++ b))
  = Some (chars l ++ chars p)%list.
Proof.
  intros -> O P B. unfold contains in O.
  rewrite (chars_app a), chars_but_last in O.
  rewrite !chars_app, <- app_assoc.
  rewrite (re_search_skip _ (chars pre ++ chars l)).
  - apply re_search_here.
    apply re_match_lit_many; [now apply all_run | exact B].
  - intros t g M. apply lit_many_head in M as [b0 ->]. exists b0. now rewrite chars_app.
  - exists (chars p ++ chars b)%list. now rewrite <- app_assoc.
  - now rewrite <- chars_app.
Qed.

Lemma keyword_search_many (pre : string) (cls : ascii -> bool) (a p b : string) :
  contains pre (a ++ but_last pre) = false ->
  all cls p -> stops cls b ->
  re_search (Capture pre [Many cls]) (chars (a ++ pre ++ p ++ b)) = Some (chars p).
Proof.
  intros O P B. unfold contains in O.
  rewrite (chars_app a), chars_but_last in O.
  rewrite !chars_app.
  rewrite (re_search_skip _ (chars pre)).
  - apply re_search_here. apply re_match_many; [now apply all_run | exact B].
  - intros t g M. now apply many_only_head in M.
  - eauto.
  - exact O.
Qed.

(** X21.  The interpreter, the API level, the builder and the build id
    are read at the first occurrence of their keyword: when the text
    holds the keyword, not occurring before, followed by a run of the
    class of the field that stops where the text ends or the class does,
    the field is that run - stripped for the interpreter, after
    "Android " and "NDK " for the API level and the builder. *)
Theorem keyword_fields_take_the_first_run (f : keyword_field) (file_info a p b : string) :
  without_name file_info = a ++ keyword f ++ p ++ b ->
  contains (keyword f) (a ++ but_last (keyword f)) = false ->
  all (keyword_class f) p -> stops (keyword_class f) b ->
  field_value f (parse_file_info file_info) = field_of_run f p.
Proof.
  intros E O P B. destruct f; cbn [field_value field_of_run keyword keyword_class] in *.
  - rewrite interpreter_eq, E.
    unfold INTERPRETER. rewrite (keyword_search_many _ _ _ _ _ O P B).
    now rewrite string_of_list_ascii_of_string.
  - rewrite android_api_eq, E.
    unfold ANDROID_API. rewrite (keyword_search "for " "Android " "for Android " _ _ _ _ eq_refl O P B).
    unfold group_or. now rewrite text_of_app, !string_of_list_ascii_of_string.
  - rewrite builder_eq, E.
    unfold BUILDER. rewrite (keyword_search "built by " "NDK " "built by NDK " _ _ _ _ eq_refl O P B).
    unfold group_or. now rewrite text_of_app, !string_of_list_ascii_of_string.
  - rewrite build_id_sha1_eq, E.
    unfold BUILD_ID. rewrite (keyword_search_many _ _ _ _ _ O P B).
    unfold group_or. now rewrite string_of_list_ascii_of_string.
Qed.

(** The API level of [android_line], whose text has "for GNU/Linux"
    before "for Android". *)
Lemma keyword_fields_take_the_first_run_witness :
  field_value AndroidApi (parse_file_info android_line) = field_of_run AndroidApi "21".
Proof.
  apply (keyword_fields_take_the_first_run AndroidApi android_line
           ("ELF 64-bit LSB shared object, ARM aarch64, version 1 (SYSV), " ++
            "dynamically linked, interpreter /system/bin/linker64, for GNU/Linux 3.7.0, " ++
            "BuildID[sha1]=0a1b2c3d4e5f, ")
           "21"
           ", built by NDK r26b (10909125), with debug_info, not stripped").
  - vm_compute. reflexivity.
  - vm_compute. reflexivity.
  - split; [discriminate | reflexivity].
  - reflexivity.
Defined.

(** *** The captures and the language of their patterns *)

Lemma matches_lit (l : string) (s : list ascii) : matches (lit l) s <-> s = chars l.
Proof.
  revert s. induction l as [|c l IH]; intro s.
  - simpl. split; [now inversion 1 | intros ->; constructor].
  - destruct l as [|d l].
    + simpl. unfold chr. split.
      * intro H. apply matches_sym_inv in H as (x & -> & E).
        apply Ascii.eqb_eq in E. now subst.
      * intros ->. constructor. apply Ascii.eqb_refl.
    + change (lit (String c (String d l))) with (Cat (chr c) (lit (String d l))).
      change (chars (String c (String d l))) with (c :: chars (String d l)).
      split.
      * intro H. apply matches_cat_inv in H as (s1 & s2 & -> & H1 & H2).
        apply matches_sym_inv in H1 as (x & -> & E). apply Ascii.eqb_eq in E. subst x.
        apply IH in H2. now subst.
      * intros ->. change (c :: chars (String d l)) with ([c] ++ chars (String d l))%list.
        constructor; [constructor; apply Ascii.eqb_refl | now apply IH].
Qed.

Lemma matches_alts (rs : list regex) (s : list ascii) :
  matches (alts rs) s <-> exists r, In r rs /\ matches r s.
Proof.
  induction rs as [|r rs IH].
  - simpl. split; [now inversion 1 | now intros (r & [] & _)].
  - destruct rs as [|r' rs].
    + simpl. split; [eauto | now intros (x & [<- | []] & H)].
    + change (alts (r :: r' :: rs)) with (Alt r (alts (r' :: rs))). split.
      * intro H. inversion H as [| | |? ? ? M|? ? ? M| |]; subst.
        -- exists r. split; [now left | assumption].
        -- apply IH in M as (x & I & M). exists x. split; [now right | assumption].
      * intros (x & [<- | I] & M); [now apply MAltL|].
        apply MAltR. apply IH. now exists x.
Qed.

Lemma match_items_sound (items : list item) :
  forall s g, match_items items s = Some g ->
              matches (regex_of items) g /\ exists b, s = (g ++ b)%list.
Proof.
  induction items as [|[l | cls | ls] items IH]; intros s g M.
  - apply nil_inv in M as ->. split; [constructor | now exists s].
  - apply lit_inv in M as (g' & s' & -> & -> & M).
    destruct (IH _ _ M) as (H & b & ->). split.
    + cbn [regex_of regex_of_item]. constructor; [now apply matches_lit | exact H].
    + exists b. now rewrite <- app_assoc.
  - apply many_inv in M as (r & g' & s' & -> & -> & R & M & _).
    destruct (IH _ _ M) as (H & b & ->). split.
    + cbn [regex_of regex_of_item]. constructor; [now apply matches_plus_sym | exact H].
    + exists b. now rewrite <- app_assoc.
  - apply or_inv in M as (l & g' & s' & I & -> & -> & M).
    destruct (IH _ _ M) as (H & b & ->). split.
    + cbn [regex_of regex_of_item]. constructor; [|exact H].
      apply matches_alts. exists (lit l). split; [now apply in_map | now apply matches_lit].
    + exists b. now rewrite <- app_assoc.
Qed.

Lemma many_complete (cls : ascii -> bool) (items : list item) (r t : list ascii) :
  run cls r -> match_items items t <> None ->
  match_items (Many cls :: items) (r ++ t) <> None.
Proof.
  intros [N F] H. induction r as [|c r IH]; [contradiction|].
  simpl in F. apply andb_true_iff in F as [C F].
  rewrite <- app_comm_cons, match_many, C.
  destruct (match_items (Many cls :: items) (r ++ t)) as [g|] eqn:M; [discriminate|].
  destruct r as [|d r]; [|exfalso; apply IH; [discriminate | exact F | reflexivity]].
  cbn [app]. destruct (match_items items t); [discriminate | contradiction].
Qed.

Lemma or_complete (ls : list string) (items : list item) (l : string) (t : list ascii) :
  In l ls -> match_items items t <> None ->
  match_items (Or ls :: items) (chars l ++ t) <> None.
Proof.
  intros I H. induction ls as [|l0 ls IH]; [contradiction|].
  rewrite match_or_cons.
  destruct (drop_prefix (chars l0) (chars l ++ t)) as [s'|] eqn:D.
  - destruct (match_items items s') eqn:M; [discriminate|].
    destruct I as [-> | I]; [|now apply IH].
    rewrite drop_prefix_app in D. injection D as <-. contradiction.
  - destruct I as [-> | I]; [|now apply IH].
    now rewrite drop_prefix_app in D.
Qed.

Lemma match_items_complete (items : list item) :
  forall g b, matches (regex_of items) g -> match_items items (g ++ b) <> None.
Proof.
  induction items as [|[l | cls | ls] items IH]; intros g b M.
  - discriminate.
  - cbn [regex_of regex_of_item] in M.
    apply matches_cat_inv in M as (g1 & g2 & -> & M1 & M2).
    apply matches_lit in M1 as ->.
    rewrite <- app_assoc, match_lit, drop_prefix_app.
    specialize (IH g2 b M2). now destruct (match_items items (g2 ++ b)).
  - cbn [regex_of regex_of_item] in M.
    apply matches_cat_inv in M as (g1 & g2 & -> & M1 & M2).
    apply matches_plus_sym in M1. rewrite <- app_assoc.
    apply many_complete; [exact M1 | now apply IH].
  - cbn [regex_of regex_of_item] in M.
    apply matches_cat_inv in M as (g1 & g2 & -> & M1 & M2).
    apply matches_alts in M1 as (r & I & M1).
    apply in_map_iff in I as (l & <- & I). apply matches_lit in M1 as ->.
    rewrite <- app_assoc. apply or_complete; [exact I | now apply IH].
Qed.

(** Backtracking finds a match wherever the pattern has one. *)
Lemma re_match_decides (p : capture) (s : list ascii) :
  re_match p s <> None <-> match_here (body (whole true p)) s = true.
Proof.
  rewrite match_here_iff. cbn [body whole]. split.
  - intro H. destruct (re_match p s) as [g|] eqn:M; [|contradiction].
    apply re_match_inv in M as (s' & -> & M).
    apply match_items_sound in M as (M & b & ->).
    exists (chars (before p) ++ g)%list, b. split; [now rewrite <- app_assoc|].
    constructor; [now apply matches_lit | exact M].
  - intros (x & q & -> & M).
    apply matches_cat_inv in M as (g1 & g2 & -> & M1 & M2).
    apply matches_lit in M1 as ->.
    unfold re_match. rewrite <- !app_assoc, drop_prefix_app.
    now apply match_items_complete.
Qed.

Lemma re_search_decides (p : capture) (s : list ascii) :
  re_search p s <> None <-> search_from (body (whole false p)) s = true.
Proof.
  induction s as [|c s IH]; cbn [re_search search_from].
  - rewrite orb_false_r. rewrite <- (re_match_decides p []).
    destruct (re_match p []); split; congruence.
  - rewrite orb_true_iff, <- IH, <- (re_match_decides p (c :: s)).
    destruct (re_match p (c :: s)); split; try tauto; try congruence.
Qed.

Lemma search_whole_false (p : capture) (text : string) :
  search (whole false p) text = false <-> re_search p (chars text) = None.
Proof.
  unfold search. cbn [anchored whole].
  pose proof (re_search_decides p (chars text)) as D. cbn [body whole] in D.
  destruct (re_search p (chars text)); destruct (search_from _ _); split; try congruence.
  - intros _. destruct D as [D _]. now discriminate D.
  - intros _. destruct D as [_ D]. now contradiction D.
Qed.

Lemma search_whole_true (p : capture) (text : string) :
  search (whole true p) text = false <-> re_match p (chars text) = None.
Proof.
  unfold search. cbn [anchored whole].
  pose proof (re_match_decides p (chars text)) as D. cbn [body whole] in D.
  destruct (re_match p (chars text)); destruct (match_here _ _); split; try congruence.
  - intros _. destruct D as [D _]. now discriminate D.
  - intros _. destruct D as [_ D]. now contradiction D.
Qed.

Lemma text_of_cons_neq (c d : ascii) (x : list ascii) (s : string) :
  c <> d -> text_of (c :: x) <> String d s.
Proof. simpl. intros N [= E _]. contradiction. Qed.

(** X22.  A default stands for no match, and only for that: the format,
    the architecture, the version, the API level, the builder and the
    build id have their default exactly when their pattern matches
    nowhere in the text ([re.match] for the format), for no capture of
    these patterns can read "unknown" or "none".  The interpreter is
    "none" when its pattern does not match, but a line can also name an
    interpreter "none". *)
Theorem defaults_are_unambiguous (file_info : string) :
  let text := without_name file_info in
  let r := parse_file_info file_info in
  (binary_format r = "unknown" <-> search (whole true BINARY_FORMAT) text = false) /\
  (arch r = "unknown" <-> search (whole false ARCH) text = false) /\
  (elf_version r = "unknown" <-> search (whole false ELF_VERSION) text = false) /\
  (android_api r = "none" <-> search (whole false ANDROID_API) text = false) /\
  (builder r = "unknown" <-> search (whole false BUILDER) text = false) /\
  (build_id_sha1 r = "none" <-> search (whole false BUILD_ID) text = false) /\
  (search (whole false INTERPRETER) text = false -> interpreter r = "none") /\
  (search (whole false INTERPRETER) "interpreter none, stripped" = true /\
   interpreter (parse_file_info "a.out: interpreter none, stripped") = "none").
Proof.
  intros text r. subst r.
  rewrite binary_format_eq, arch_eq, elf_version_eq, interpreter_eq, android_api_eq,
    builder_eq, build_id_sha1_eq.
  fold text. rewrite search_whole_true, !search_whole_false. unfold group_or.
  split; [|split; [|split; [|split; [|split; [|split; [|split; [|split]]]]]]].
  - destruct (re_match BINARY_FORMAT (chars text)) as [g|] eqn:M; [|tauto].
    split; [|discriminate]. intro E. exfalso.
    apply lit_many_inv in M as (f & b & _ & -> & _).
    revert E. now apply text_of_cons_neq.
  - destruct (re_search ARCH (chars text)) as [g|] eqn:M; [|tauto].
    split; [|discriminate]. intro E. exfalso.
    apply re_search_inv in M as (a & t & _ & M).
    apply arch_inv in M as (l & b & I & -> & _).
    rewrite string_of_list_ascii_of_string in E. subst l.
    simpl in I. repeat (destruct I as [I | I]; [discriminate|]). contradiction.
  - destruct (re_search ELF_VERSION (chars text)) as [g|] eqn:M; [|tauto].
    split; [|discriminate]. intro E. exfalso.
    apply re_search_inv in M as (a & t & _ & M).
    apply version_inv in M as (d & x & b & _ & -> & _).
    revert E. now apply text_of_cons_neq.
  - destruct (re_search ANDROID_API (chars text)) as [g|] eqn:M; [|tauto].
    split; [|discriminate]. intro E. exfalso.
    apply re_search_inv in M as (a & t & _ & M).
    apply lit_many_inv in M as (f & b & _ & -> & _).
    revert E. now apply text_of_cons_neq.
  - destruct (re_search BUILDER (chars text)) as [g|] eqn:M; [|tauto].
    split; [|discriminate]. intro E. exfalso.
    apply re_search_inv in M as (a & t & _ & M).
    apply lit_many_inv in M as (f & b & _ & -> & _).
    revert E. now apply text_of_cons_neq.
  - destruct (re_search BUILD_ID (chars text)) as [g|] eqn:M; [|tauto].
    split; [|discriminate]. intro E. exfalso.
    apply re_search_inv in M as (a & t & _ & M).
    apply many_only_inv in M as (b & _ & [_ F] & _).
    apply text_of_chars_eq in E. subst g. discriminate F.
  - now intros ->.
  - vm_compute. congruence.
  - vm_compute. reflexivity.
Qed.

(** *** The build id line of [readelf] *)

Lemma first_line_prefix (s : string) :
  forall m l ls, forallb notnl m = true -> split_lines s = l :: ls ->
                 starts_with m (chars s) = starts_with m (chars l).
Proof.
  induction s as [|c s IH]; intros m l ls F E.
  - injection E as <- _. reflexivity.
  - destruct m as [|y m]; [reflexivity|].
    simpl in F. apply andb_true_iff in F as [Y F].
    cbn [split_lines] in E. cbn [list_ascii_of_string starts_with].
    destruct (Ascii.eqb_spec c "010") as [-> | N].
    + injection E as <- _. unfold notnl in Y. apply negb_true_iff in Y. now rewrite Y.
    + destruct (InspectFacts.split_lines_cons s) as (l' & ls' & S).
      rewrite S in E. injection E as <- _.
      cbn [list_ascii_of_string starts_with]. now rewrite (IH m l' ls' F S).
Qed.

(** A text without newline occurs in a stream when it occurs in one of
    its lines. *)
Lemma occurs_lines (m : list ascii) (s : string) :
  m <> [] -> forallb notnl m = true ->
  occurs m (chars s) = existsb (fun l => occurs m (chars l)) (split_lines s).
Proof.
  intros N F. destruct m as [|y m]; [contradiction|]. clear N.
  induction s as [|c s IH].
  - reflexivity.
  - cbn [split_lines list_ascii_of_string]. cbn [occurs]. rewrite IH.
    destruct (Ascii.eqb_spec c "010") as [-> | N].
    + cbn [existsb list_ascii_of_string occurs starts_with].
      simpl in F. apply andb_true_iff in F as [Y _].
      unfold notnl in Y. apply negb_true_iff in Y. now rewrite Y.
    + destruct (InspectFacts.split_lines_cons s) as (l & ls & S). rewrite S.
      cbn [existsb list_ascii_of_string]. cbn [occurs].
      assert (P : starts_with (y :: m) (chars (String c s))
                  = starts_with (y :: m) (chars (String c l))).
      { apply (first_line_prefix _ _ _ ls F). cbn [split_lines].
        destruct (Ascii.eqb_spec c "010"); [contradiction | now rewrite S]. }
      cbn [list_ascii_of_string] in P. rewrite P. now rewrite !orb_assoc.
Qed.

Lemma first_build_id_line_none (lines : list string) :
  first_build_id_line lines = None <->
  existsb (fun l => contains "Build ID" l) lines = false /\
  existsb (fun l => contains "BuildID" l) lines = false.
Proof.
  induction lines as [|line lines IH]; [simpl; tauto|].
  cbn [first_build_id_line existsb].
  destruct (contains "Build ID" line), (contains "BuildID" line); cbn [orb];
    try (split; [discriminate | intros [? ?]; discriminate]); exact IH.
Qed.

Lemma first_build_id_line_some (lines : list string) (l : string) :
  first_build_id_line lines = Some l ->
  exists earlier line later,
    lines = (earlier ++ line :: later)%list /\ l = strip line /\
    (contains "Build ID" line = true \/ contains "BuildID" line = true) /\
    Forall (fun e => contains "Build ID" e = false /\ contains "BuildID" e = false) earlier.
Proof.
  induction lines as [|line lines IH]; [discriminate|].
  cbn [first_build_id_line].
  destruct (contains "Build ID" line) eqn:A.
  - intros [= <-]. exists [], line, lines. repeat split; auto.
  - destruct (contains "BuildID" line) eqn:B; cbn [orb].
    + intros [= <-]. exists [], line, lines. repeat split; auto.
    + intro H. destruct (IH H) as (earlier & line' & later & -> & E & C & F).
      exists (line :: earlier), line', later. repeat split; auto.
Qed.

Lemma occurs_lstrip (c : ascii) (m x : list ascii) :
  isspace c = false -> occurs (c :: m) x = true -> occurs (c :: m) (lstrip x) = true.
Proof.
  intro C. induction x as [|d x IH]; [trivial|].
  cbn [lstrip]. destruct (isspace d) eqn:D; [|trivial].
  cbn [occurs starts_with].
  destruct (Ascii.eqb_spec c d) as [-> | N]; [congruence|]. exact IH.
Qed.

Lemma occurs_rev (m x : list ascii) : occurs m x = true -> occurs (rev m) (rev x) = true.
Proof.
  rewrite !occurs_iff. intros (a & b & ->). exists (rev b), (rev a).
  now rewrite !rev_app_distr, <- app_assoc.
Qed.

(** Stripping a line leaves in it a text that begins and ends with
    other characters than whitespace. *)
Lemma contains_strip (m s : string) (c d : ascii) (x y : list ascii) :
  chars m = c :: x -> rev (chars m) = d :: y -> isspace c = false -> isspace d = false ->
  contains m s = true -> contains m (strip s) = true.
Proof.
  intros E1 E2 C D H. unfold contains in *. rewrite chars_strip.
  rewrite <- (rev_involutive (chars m)). apply occurs_rev.
  rewrite E2. apply occurs_lstrip; [exact D|]. rewrite <- E2.
  apply occurs_rev. rewrite E1. apply occurs_lstrip; [exact C|]. now rewrite <- E1.
Qed.

(** X23.  [get_build_id] finds no line exactly when neither "Build ID"
    nor "BuildID" occurs anywhere in the output of [readelf]; the line
    it returns is the first one that has either text, stripped, and
    still has it. *)
Theorem build_id_line_is_the_first (stdout : string) :
  (get_build_id stdout = None <->
   contains "Build ID" stdout = false /\ contains "BuildID" stdout = false) /\
  (forall l, get_build_id stdout = Some l ->
     (contains "Build ID" l = true \/ contains "BuildID" l = true) /\
     exists earlier line later,
       split_lines stdout = (earlier ++ line :: later)%list /\ l = strip line /\
       Forall (fun e => contains "Build ID" e = false /\ contains "BuildID" e = false)
              earlier).
Proof.
  unfold get_build_id. split.
  - rewrite first_build_id_line_none. unfold contains.
    rewrite (occurs_lines (chars "Build ID") stdout) by (discriminate || reflexivity).
    rewrite (occurs_lines (chars "BuildID") stdout) by (discriminate || reflexivity).
    tauto.
  - intros l H. apply first_build_id_line_some in H as (earlier & line & later & E & -> & C & F).
    split; [|now exists earlier, line, later].
    destruct C as [C | C]; [left | right].
    + now apply (contains_strip _ _ "B" "D" (chars "uild ID") (chars "I dliuB")).
    + now apply (contains_strip _ _ "B" "D" (chars "uildID") (chars "IdliuB")).
Qed.

(** *** The size of the file *)

Lemma format_1f_comp (x y : Q) : (x == y)%Q -> format_1f x = format_1f y.
Proof.
  intro E. unfold format_1f.
  now rewrite (round_half_even_comp (x * 10) (y * 10)) by now rewrite E.
Qed.

Lemma compare_quotient (s D : Z) (q : Q) :
  (0 < D)%Z -> (q == inject_Z s / inject_Z D)%Q -> (q ?= 1024)%Q = (s ?= 1024 * D)%Z.
Proof.
  intros P E. rewrite E. destruct D as [|p|p]; try lia.
  unfold Qcompare, Qdiv, Qmult, Qinv, inject_Z. cbn [Qnum Qden].
  f_equal; lia.
Qed.

Lemma quotient_step (s D : Z) (q : Q) :
  (0 < D)%Z -> (q == inject_Z s / inject_Z D)%Q ->
  (q / 1024 == inject_Z s / inject_Z (1024 * D))%Q.
Proof.
  intros P E. rewrite E. destruct D as [|p|p]; try lia.
  change (1024 * Z.pos p)%Z with (Z.pos (1024 * p)).
  unfold Qeq, Qdiv, Qmult, Qinv, inject_Z. cbn [Qnum Qden]. lia.
Qed.

(** The loop, entered with the size divided [j] times. *)
Lemma size_loop_unit (s : Z) (units : list string) :
  forall (q : Q) (D : Z) (k : nat),
    (0 < D)%Z -> (q == inject_Z s / inject_Z D)%Q ->
    (k <= List.length units)%nat ->
    (k = 0%nat \/ 1024 ^ Z.of_nat k * D <= s)%Z ->
    (k = List.length units \/ s < 1024 ^ Z.of_nat (k + 1) * D)%Z ->
    (0 <= s)%Z ->
    size_loop units q
    = format_1f (inject_Z s / inject_Z (1024 ^ Z.of_nat k * D))
      ++ " " ++ nth k (units ++ ["TB"]) "".
Proof.
  induction units as [|u units IH]; intros q D k P E K Lo Hi Hs.
  - assert (k = 0%nat) as -> by (simpl in K; lia).
    cbn [size_loop nth app]. rewrite Z.pow_0_r, Z.mul_1_l.
    now rewrite (format_1f_comp _ _ E).
  - cbn [size_loop]. rewrite (compare_quotient s D q P E).
    destruct k as [|k].
    + destruct Hi as [Hi | Hi]; [discriminate|].
      change (Z.of_nat (0 + 1)) with 1%Z in Hi. rewrite Z.pow_1_r in Hi.
      apply Z.compare_lt_iff in Hi. rewrite Hi.
      cbn [nth app]. rewrite Z.pow_0_r, Z.mul_1_l.
      now rewrite (format_1f_comp _ _ E).
    + destruct Lo as [Lo | Lo]; [discriminate|].
      assert (G : (1024 * D <= s)%Z).
      { rewrite Nat2Z.inj_succ, Z.pow_succ_r in Lo by lia.
        assert (0 < 1024 ^ Z.of_nat k)%Z by (apply Z.pow_pos_nonneg; lia).
        nia. }
      assert (C : (s ?= 1024 * D)%Z <> Lt) by (rewrite Z.compare_lt_iff; lia).
      assert (R : size_loop units (q / 1024)
                  = format_1f (inject_Z s / inject_Z (1024 ^ Z.of_nat k * (1024 * D)))
                    ++ " " ++ nth k (units ++ ["TB"]) "").
      { apply IH.
        - lia.
        - now apply quotient_step.
        - simpl in K. lia.
        - destruct k as [|k']; [now left | right].
          rewrite Nat2Z.inj_succ, Z.pow_succ_r in Lo by lia.
          rewrite Nat2Z.inj_succ, Z.pow_succ_r by lia.
          rewrite Nat2Z.inj_succ, Z.pow_succ_r in Lo by lia. lia.
        - destruct Hi as [Hi | Hi]; [left; simpl in Hi; lia | right].
          replace (Z.of_nat (S k + 1)) with (Z.succ (Z.of_nat (k + 1))) in Hi by lia.
          rewrite Z.pow_succ_r in Hi by lia. lia.
        - exact Hs. }
      replace (1024 ^ Z.of_nat (S k) * D)%Z with (1024 ^ Z.of_nat k * (1024 * D))%Z
        by (rewrite Nat2Z.inj_succ, Z.pow_succ_r by lia; lia).
      cbn [nth app].
      destruct (s ?= 1024 * D)%Z; [exact R | contradiction | exact R].
Qed.

Lemma get_file_size_unit (st_size : Z) (k : nat) :
  (0 <= st_size)%Z -> (k <= 4)%nat ->
  (k = 0%nat \/ 1024 ^ Z.of_nat k <= st_size)%Z ->
  (k = 4%nat \/ st_size < 1024 ^ Z.of_nat (k + 1))%Z ->
  get_file_size st_size
  = format_1f (inject_Z st_size / inject_Z (1024 ^ Z.of_nat k)) ++ " " ++ nth k UNITS "".
Proof.
  intros Hs K Lo Hi. unfold get_file_size.
  rewrite (size_loop_unit st_size ["B"; "KB"; "MB"; "GB"] (inject_Z st_size) 1 k).
  - now rewrite Z.mul_1_r.
  - lia.
  - unfold Qeq, Qdiv, Qmult, Qinv, inject_Z. cbn [Qnum Qden]. lia.
  - exact K.
  - rewrite Z.mul_1_r. exact Lo.
  - rewrite Z.mul_1_r. exact Hi.
  - exact Hs.
Qed.

(** X24.  [get_file_size] divides by 1024 until the size is below 1024
    or the units run out: a size from 1024^k up to 1024^(k+1), for k up
    to 3, is shown as its quotient by 1024^k, to one decimal, with the
    k-th unit, and a size of 1024^4 bytes or more in "TB". *)
Theorem file_size_picks_the_unit (st_size : Z) (k : nat) :
  (0 <= st_size < 2 ^ 53)%Z -> (k <= 4)%nat ->
  (k = 0%nat \/ 1024 ^ Z.of_nat k <= st_size)%Z ->
  (k = 4%nat \/ st_size < 1024 ^ Z.of_nat (k + 1))%Z ->
  get_file_size st_size
  = format_1f (inject_Z st_size / inject_Z (1024 ^ Z.of_nat k)) ++ " " ++ nth k UNITS "".
Proof. intros [Hs _]. now apply get_file_size_unit. Qed.

Lemma file_size_picks_the_unit_witness :
  get_file_size 5242880
  = format_1f (inject_Z 5242880 / inject_Z (1024 ^ Z.of_nat 2)) ++ " " ++ nth 2 UNITS "".
Proof.
  apply file_size_picks_the_unit.
  - lia.
  - lia.
  - right. vm_compute. discriminate.
  - right. vm_compute. reflexivity.
Defined.

Lemma round_top (n d : Z) :
  (0 < d)%Z -> (20479 * d <= 2 * n)%Z -> (n < 10240 * d)%Z ->
  match (2 * (n mod d) ?= d)%Z with
  | Lt => (n / d)%Z
  | Gt => (n / d + 1)%Z
  | Eq => if Z.even (n / d) then (n / d)%Z else (n / d + 1)%Z
  end = 10240%Z.
Proof.
  intros P Lo Hi.
  pose proof (Z.div_mod n d) as E. pose proof (Z.mod_pos_bound n d P) as B.
  assert (Q : (n / d = 10239)%Z) by nia.
  rewrite Q in *.
  destruct (Z.compare_spec (2 * (n mod d)) d) as [C | C | C]; [reflexivity | lia | reflexivity].
Qed.

Lemma format_1f_1024 (s : Z) (d : positive) :
  (20479 * Zpos d <= 20 * s)%Z -> (s < 1024 * Zpos d)%Z ->
  format_1f (inject_Z s / inject_Z (Zpos d)) = "1024.0".
Proof.
  intros Lo Hi. unfold format_1f.
  rewrite (round_half_even_comp _ ((10 * s) # d)).
  - rewrite round_half_even_quotient, round_top by lia. reflexivity.
  - unfold Qeq, Qdiv, Qmult, Qinv, inject_Z. cbn [Qnum Qden]. lia.
Qed.

(** X25.  The number shown can be 1024.0 although the loop is left
    only with a size below 1024: a size less than a twentieth of a unit
    below the next unit is rounded up to "1024.0" of its unit. *)
Theorem file_size_can_read_1024 (st_size : Z) (k : nat) :
  (1 <= k <= 3)%nat ->
  (20479 * 1024 ^ Z.of_nat k <= 20 * st_size)%Z ->
  (st_size < 1024 ^ Z.of_nat (k + 1))%Z ->
  get_file_size st_size = "1024.0 " ++ nth k UNITS "".
Proof.
  intros K Lo Hi.
  assert (P : (0 < 1024 ^ Z.of_nat k)%Z) by (apply Z.pow_pos_nonneg; lia).
  assert (E : (1024 ^ Z.of_nat (k + 1) = 1024 * 1024 ^ Z.of_nat k)%Z).
  { replace (Z.of_nat (k + 1)) with (Z.succ (Z.of_nat k)) by lia.
    apply Z.pow_succ_r. lia. }
  rewrite (get_file_size_unit st_size k); [| lia | lia | right; lia | right; exact Hi].
  rewrite E in Hi.
  destruct (1024 ^ Z.of_nat k)%Z as [|d|d] eqn:D; try lia.
  now rewrite format_1f_1024.
Qed.

Lemma file_size_can_read_1024_witness : get_file_size 1048575 = "1024.0 " ++ nth 1 UNITS "".
Proof. apply file_size_can_read_1024; [lia | vm_compute; discriminate | vm_compute; reflexivity]. Defined.

End InspectInfoFacts.
